(** * TreeBillboardsApp: frame-resource ring, dirty propagation, draw submission

    A shallow embedding of [Week7-2-TreeBillboardsApp.cpp].  The C++ members
    of [TreeBillboardsApp] become the fields of a record [App]; every member
    function becomes a function on [App] that also returns the calls it makes
    on the outside world (upload-buffer stores, command-list commands).

    Integers are [Z]; 32- and 64-bit unsigned arithmetic has its wrap-around
    written out.  [float] is IEEE binary32, through the Standard Library's
    [SpecFloat].  Pointers to render items are positions in [mAllRitems];
    pointers to materials and geometries are their keys in the owning maps. *)

From Stdlib Require Import ZArith Lia.
From Stdlib Require Import Floats.SpecFloat.
From stdpp Require Import gmap strings list fin_maps sorting.

Open Scope string_scope.
Open Scope list_scope.
Open Scope Z_scope.

(** ** Machine numbers *)

Definition UINT_MOD : Z := 2 ^ 32.
Definition UINT64_MOD : Z := 2 ^ 64.

(** [const int gNumFrameResources = 3;] *)
Definition gNumFrameResources : Z := 3.

(** Single-precision floats. *)
Module F32.
Definition prec : Z := 24.
Definition emax : Z := 128.
Definition add : spec_float -> spec_float -> spec_float := SFadd prec emax.
Definition sub : spec_float -> spec_float -> spec_float := SFsub prec emax.
Definition mul : spec_float -> spec_float -> spec_float := SFmul prec emax.
Definition div : spec_float -> spec_float -> spec_float := SFdiv prec emax.

(** [x >= y] and [x <= y]; false when either side is not a number. *)
Definition geb (x y : spec_float) : bool := SFleb y x.
Definition of_Z (n : Z) : spec_float := binary_normalize prec emax n 0 false.

(** The literal [m * 10^-d] written with an [f] suffix, rounded to nearest. *)
Definition lit (m : Z) (d : nat) : spec_float :=
    div (of_Z m) (of_Z (10 ^ Z.of_nat d)).
End F32.

Abbreviation float := spec_float.

(** ** DirectXMath storage types *)

Module XMFLOAT2.
Record t := mk { x : float; y : float }.
End XMFLOAT2.

Module XMFLOAT3.
Record t := mk { x : float; y : float; z : float }.
End XMFLOAT3.

Module XMFLOAT4.
Record t := mk { x : float; y : float; z : float; w : float }.
End XMFLOAT4.

(** Row-major 4x4 matrix; [mRC] is the element [(R, C)]. *)
Module XMFLOAT4X4.
Record t := mk {
    m00 : float; m01 : float; m02 : float; m03 : float;
    m10 : float; m11 : float; m12 : float; m13 : float;
    m20 : float; m21 : float; m22 : float; m23 : float;
    m30 : float; m31 : float; m32 : float; m33 : float }.

(** [MatTransform(3, 0) = v] and [MatTransform(3, 1) = v]. *)
Definition set30 (v : float) (m : t) : t :=
    mk (m00 m) (m01 m) (m02 m) (m03 m) (m10 m) (m11 m) (m12 m) (m13 m)
       (m20 m) (m21 m) (m22 m) (m23 m) v (m31 m) (m32 m) (m33 m).
Definition set31 (v : float) (m : t) : t :=
    mk (m00 m) (m01 m) (m02 m) (m03 m) (m10 m) (m11 m) (m12 m) (m13 m)
       (m20 m) (m21 m) (m22 m) (m23 m) (m30 m) v (m32 m) (m33 m).
End XMFLOAT4X4.

(** [XMMatrixTranspose] (load, transpose, store: no arithmetic). *)
Definition XMMatrixTranspose (m : XMFLOAT4X4.t) : XMFLOAT4X4.t :=
  let 'XMFLOAT4X4.mk a00 a01 a02 a03 a10 a11 a12 a13
                     a20 a21 a22 a23 a30 a31 a32 a33 := m in
  XMFLOAT4X4.mk a00 a10 a20 a30 a01 a11 a21 a31
                a02 a12 a22 a32 a03 a13 a23 a33.

Definition f0 : float := F32.lit 0 0.
Definition f1 : float := F32.lit 1 0.

(** [MathHelper::Identity4x4()] *)
Definition Identity4x4 : XMFLOAT4X4.t :=
  XMFLOAT4X4.mk f1 f0 f0 f0  f0 f1 f0 f0  f0 f0 f1 f0  f0 f0 f0 f1.

(** [XMMatrixScaling(sx, sy, sz)] stored into an [XMFLOAT4X4]. *)
Definition XMMatrixScaling (sx sy sz : float) : XMFLOAT4X4.t :=
  XMFLOAT4X4.mk sx f0 f0 f0  f0 sy f0 f0  f0 f0 sz f0  f0 f0 f0 f1.

(** ** Scene records *)

Inductive D3D_PRIMITIVE_TOPOLOGY :=
| TRIANGLELIST
| POINTLIST.

(** [enum class RenderLayer : int], in declaration order. *)
Inductive RenderLayer :=
| Opaque
| Transparent
| AlphaTested
| AlphaTestedTreeSprites.

(** Modelled from the spec: the declaration of [Material] is in
    Common/d3dUtil.h, which is not part of the source tree.  The fields are
    those the application reads and writes; a new material carries the same
    frames-dirty re-arm as a new render item, and an identity texture
    transform. *)
Module Material.
Record t := mk {
    Name : string;
    MatCBIndex : Z;
    DiffuseSrvHeapIndex : Z;
    NumFramesDirty : Z;
    DiffuseAlbedo : XMFLOAT4.t;
    FresnelR0 : XMFLOAT3.t;
    Roughness : float;
    MatTransform : XMFLOAT4X4.t }.

Definition set_NumFramesDirty (n : Z) (m : t) : t :=
    mk (Name m) (MatCBIndex m) (DiffuseSrvHeapIndex m) n
       (DiffuseAlbedo m) (FresnelR0 m) (Roughness m) (MatTransform m).
Definition set_MatTransform (x : XMFLOAT4X4.t) (m : t) : t :=
    mk (Name m) (MatCBIndex m) (DiffuseSrvHeapIndex m) (NumFramesDirty m)
       (DiffuseAlbedo m) (FresnelR0 m) (Roughness m) x.
End Material.

(** [struct RenderItem].  [Mat] and [Geo] are the keys of the pointed-to
    objects in [mMaterials] and [mGeometries]. *)
Module RenderItem.
Record t := mk {
    World : XMFLOAT4X4.t;
    TexTransform : XMFLOAT4X4.t;
    NumFramesDirty : Z;
    ObjCBIndex : Z;
    Mat : string;
    Geo : string;
    PrimitiveType : D3D_PRIMITIVE_TOPOLOGY;
    IndexCount : Z;
    StartIndexLocation : Z;
    BaseVertexLocation : Z }.

Definition set_NumFramesDirty (n : Z) (r : t) : t :=
    mk (World r) (TexTransform r) n (ObjCBIndex r) (Mat r) (Geo r)
       (PrimitiveType r) (IndexCount r) (StartIndexLocation r)
       (BaseVertexLocation r).
End RenderItem.

(** [SubmeshGeometry]: one named sub-range of a mesh. *)
Module SubmeshGeometry.
Record t := mk {
    IndexCount : Z;
    StartIndexLocation : Z;
    BaseVertexLocation : Z }.
End SubmeshGeometry.

(** The records copied to the GPU (FrameResource.h). *)
Module ObjectConstants.
Record t := mk { World : XMFLOAT4X4.t; TexTransform : XMFLOAT4X4.t }.
End ObjectConstants.

Module MaterialConstants.
Record t := mk {
    DiffuseAlbedo : XMFLOAT4.t;
    FresnelR0 : XMFLOAT3.t;
    Roughness : float;
    MatTransform : XMFLOAT4X4.t }.
End MaterialConstants.

Module Vertex.
Record t := mk { Pos : XMFLOAT3.t; Normal : XMFLOAT3.t; TexC : XMFLOAT2.t }.
End Vertex.

(** ** Upload buffers and frame resources *)

(** Modelled from the spec: [UploadBuffer<T>] is declared in
    Common/UploadBuffer.h, which is not part of the source tree.  It is a
    fixed-capacity array of [T] mapped for CPU writes; [CopyData(i, v)]
    stores [v] at element [i].  The source copies through a raw pointer, so
    an element index outside the capacity is undefined behaviour there; the
    model leaves the buffer as it is in that case (the call itself is always
    recorded in the event log of the caller). *)
Module UploadBuffer.
Record t (T : Type) := mk {
    mElementCount : Z;
    GPUVirtualAddress : Z;
    mMappedData : list (option T) }.
Arguments mk {T}.
Arguments mElementCount {T}.
Arguments GPUVirtualAddress {T}.
Arguments mMappedData {T}.

Definition create {T} (elementCount address : Z) : t T :=
    mk elementCount address (replicate (Z.to_nat elementCount) None).

Definition in_bounds {T} (elementIndex : Z) (b : t T) : Prop :=
    0 <= elementIndex < mElementCount b.

Definition CopyData {T} (elementIndex : Z) (data : T) (b : t T) : t T :=
    if (0 <=? elementIndex) && (elementIndex <? mElementCount b)
    then mk (mElementCount b) (GPUVirtualAddress b)
            (<[Z.to_nat elementIndex := Some data]> (mMappedData b))
    else b.

Definition read {T} (elementIndex : Z) (b : t T) : option T :=
    if 0 <=? elementIndex
    then mjoin (mMappedData b !! Z.to_nat elementIndex)
    else None.
End UploadBuffer.

(** The part of [PassConstants] that is copied without matrix arithmetic:
    the transposed view and projection, the eye position and the timer
    values.  The products and inverses of the camera matrices and the
    constant light set, which [UpdateMainPassCB] also fills in, are left
    out. *)
Module PassConstants.
Record t := mk {
    View : XMFLOAT4X4.t;
    Proj : XMFLOAT4X4.t;
    EyePosW : XMFLOAT3.t;
    NearZ : float;
    FarZ : float;
    TotalTime : float;
    DeltaTime : float }.
End PassConstants.

(** [struct FrameResource] (FrameResource.h): the per-slot buffers and the
    fence value of the last submission that used the slot. *)
Module FrameResource.
Record t := mk {
    PassCB : UploadBuffer.t PassConstants.t;
    ObjectCB : UploadBuffer.t ObjectConstants.t;
    MaterialCB : UploadBuffer.t MaterialConstants.t;
    WavesVB : UploadBuffer.t Vertex.t;
    Fence : N }.

Definition set_Fence (f : N) (r : t) : t :=
    mk (PassCB r) (ObjectCB r) (MaterialCB r) (WavesVB r) f.
End FrameResource.

(** GPU resources a vertex or index buffer view can point at. *)
Inductive Resource :=
| NullResource
| DefaultVertexBuffer (geometry : string)
| DefaultIndexBuffer (geometry : string)
| WavesVBResource (slot : Z).

(** The part of [MeshGeometry] the frame loop reads and writes. *)
Module MeshGeometry.
Record t := mk {
    VertexBufferGPU : Resource;
    IndexBufferGPU : Resource }.
End MeshGeometry.

(** ** The device timeline

    [ID3D12Fence] and the command queue, seen from the CPU.  [Pending] holds
    the fence values of the [Signal] operations the queue has not reached
    yet, oldest first; reaching one makes it the completed value. *)
Module Gpu.
Record t := mk { Completed : N; Pending : list N }.

(** [mCommandQueue->Signal(mFence.Get(), v)] *)
Definition Signal (v : N) (g : t) : t := mk (Completed g) (Pending g ++ [v]).

(** The queue advances past [n] more signals (fewer if it runs dry). *)
Fixpoint advance (n : nat) (g : t) : t :=
    match n, Pending g with
    | S n', v :: rest => advance n' (mk v rest)
    | _, _ => g
    end.

Fixpoint drain_until (v : N) (completed : N) (pending : list N) : option t :=
    if (v <=? completed)%N then Some (mk completed pending)
    else match pending with
         | [] => None
         | p :: rest => drain_until v p rest
         end.

(** [SetEventOnCompletion(v, h); WaitForSingleObject(h, INFINITE)]: the
    call returns once the completed value has reached [v]; it never returns
    ([None]) when no signal that reaches [v] is in the queue. *)
Definition WaitForFence (v : N) (g : t) : option t :=
    drain_until v (Completed g) (Pending g).
End Gpu.

(** ** What the application does to the outside world *)

(** The value handed to one [UploadBuffer::CopyData] call; the constructor
    says which of the slot's four buffers receives it. *)
Inductive Payload :=
| ToPassCB (d : PassConstants.t)
| ToObjectCB (d : ObjectConstants.t)
| ToMaterialCB (d : MaterialConstants.t)
| ToWavesVB (d : Vertex.t).

(** Calls made by [Update], in program order. *)
Inductive Event :=
| EvGetCompletedValue (completed : N)
    (* mFence->GetCompletedValue() returned [completed] *)
| EvWaitForFence (fence : N)
    (* SetEventOnCompletion(fence, h); WaitForSingleObject(h, INFINITE)
       returned *)
| EvCopyData (slot : Z) (elementIndex : Z) (d : Payload)
    (* mFrameResources[slot]-><buffer>->CopyData(elementIndex, d) *)
| EvDisturb (i j : Z) (magnitude : float).
    (* mWaves->Disturb(i, j, magnitude) *)

(** Commands recorded into [mCommandList] by [Draw]. *)
Inductive Command :=
| Reset (pso : string)
| RSSetViewports
| RSSetScissorRects
| ResourceBarrierToRenderTarget
| ClearRenderTargetView
| ClearDepthStencilView
| OMSetRenderTargets
| SetDescriptorHeaps
| SetGraphicsRootSignature
| SetGraphicsRootConstantBufferView (rootParameterIndex : Z) (address : Z)
| SetGraphicsRootDescriptorTable (rootParameterIndex : Z) (handle : Z)
| SetPipelineState (pso : string)
| IASetVertexBuffers (vertexBuffer : Resource)
| IASetIndexBuffer (indexBuffer : Resource)
| IASetPrimitiveTopology (topology : D3D_PRIMITIVE_TOPOLOGY)
| DrawIndexedInstanced (IndexCountPerInstance InstanceCount
                        StartIndexLocation BaseVertexLocation
                        StartInstanceLocation : Z)
| ResourceBarrierToPresent.

Global Instance RenderLayer_eq_dec : EqDecision RenderLayer.
Proof. solve_decision. Defined.

Global Instance Resource_eq_dec : EqDecision Resource.
Proof. solve_decision. Defined.

(** ** External collaborators

    Code and data of the repository that the application calls but that is
    not in the source tree, taken as parameters. *)

(** Waves.h: the wave-field simulator. *)
Class WavesSim := {
  Waves : Type;
  Waves_new : Z -> Z -> float -> float -> float -> float -> Waves;
  RowCount : Waves -> Z;
  ColumnCount : Waves -> Z;
  VertexCount : Waves -> Z;
  Width : Waves -> float;
  Depth : Waves -> float;
  Position : Waves -> Z -> XMFLOAT3.t;
  Normal : Waves -> Z -> XMFLOAT3.t;
  Disturb : Z -> Z -> float -> Waves -> Waves;
  Waves_Update : float -> Waves -> Waves }.

(** Common/MathHelper.h: [Rand(a, b)] and [RandF(a, b)]; the last argument
    is the raw value the C runtime's [rand()] returns for the call. *)
Class MathHelperRandom := {
  Rand : Z -> Z -> Z -> Z;
  RandF : float -> float -> Z -> float }.

(** Scene content: the literal placement of every render item (the product
    of translation, scaling and rotation matrices stored into its [World],
    keyed by the item's object-constant index) and the draw arguments the
    geometry builders register per mesh and submesh name. *)
Class SceneContent := {
  placement : Z -> XMFLOAT4X4.t;
  DrawArgs : string -> string -> SubmeshGeometry.t }.

(** What the device decides: record sizes after 256-byte alignment
    ([d3dUtil::CalcConstantBufferByteSize(sizeof(...))]), the descriptor
    increment, the start of the SRV heap and the GPU virtual address of each
    upload buffer of each frame resource. *)
Class Device := {
  objCBByteSize : Z;
  matCBByteSize : Z;
  mCbvSrvDescriptorSize : Z;
  SrvHeapStart : Z;
  UploadAddress : Z -> string -> Z }.

(** [GameTimer]: the two values the application reads. *)
Module GameTimer.
Record t := mk { TotalTime : float; DeltaTime : float }.
End GameTimer.

(** Everything one iteration of the message loop receives from outside: the
    timer, the camera after [OnKeyboardInput], how many queued signals the
    GPU got past since the CPU last looked, and the raw random draws. *)
Module FrameInput.
Record t := mk {
    gt : GameTimer.t;
    View : XMFLOAT4X4.t;
    Proj : XMFLOAT4X4.t;
    EyePosW : XMFLOAT3.t;
    gpu_progress : nat;
    rand_i : Z;
    rand_j : Z;
    rand_r : Z }.
End FrameInput.

(** ** The application *)

Section TreeBillboardsApp.

Context `{WS : WavesSim} `{RS : MathHelperRandom} `{SC : SceneContent}
        `{DV : Device}.

(** The members of [TreeBillboardsApp] and of its base class [D3DApp] that
    the frame loop reads and writes, the function-local static [t_base] of
    [UpdateWaves], and the device timeline.  [mCurrFrameResource] is always
    [mFrameResources[mCurrFrameResourceIndex].get()] once [Update] has run,
    so it is not stored.  A [RenderItem*] is the position of the item in
    [mAllRitems], which is also the order in which the items are
    allocated. *)
Record App := mkApp {
  mFrameResources : list FrameResource.t;
  mCurrFrameResourceIndex : Z;
  mGeometries : gmap string MeshGeometry.t;
  mMaterials : gmap string Material.t;
  mWavesRitem : nat;
  mAllRitems : list RenderItem.t;
  mRitemLayer : RenderLayer -> list nat;
  mWaves : Waves;
  t_base : float;
  mCurrentFence : N;
  mGpu : Gpu.t }.

(** *** BuildMaterials *)

(** One [std::make_unique<Material>()] block: map key, [Name], albedo,
    Fresnel term, roughness. *)
Definition MaterialDesc : Type :=
  string * string * XMFLOAT4.t * XMFLOAT3.t * float.

Definition rgba (r g b a : float) : XMFLOAT4.t := XMFLOAT4.mk r g b a.
Definition rgb (r g b : float) : XMFLOAT3.t := XMFLOAT3.mk r g b.

Definition opaque_white : XMFLOAT4.t := rgba f1 f1 f1 f1.
Definition half_white : XMFLOAT4.t := rgba f1 f1 f1 (F32.lit 5 1).
Definition fresnel (v : float) : XMFLOAT3.t := rgb v v v.

(** The twelve materials in the order the source constructs them (which is
    also the order in which it stores them under their keys). *)
Definition material_descs : list MaterialDesc :=
  [ ("grass", "grass", opaque_white, fresnel (F32.lit 1 2), F32.lit 125 3);
    ("grass2", "grass", opaque_white, fresnel (F32.lit 1 2), F32.lit 125 3);
    ("water", "water", half_white, fresnel (F32.lit 1 1), f0);
    ("bricks", "bricks", opaque_white, fresnel (F32.lit 2 2), F32.lit 25 2);
    ("bricks2", "bricks2", opaque_white, fresnel (F32.lit 2 2), F32.lit 25 2);
    ("bricks3", "bricks3", opaque_white, fresnel (F32.lit 2 2), F32.lit 25 2);
    ("ice", "ice", half_white, fresnel (F32.lit 1 1), f0);
    ("tile", "tile", opaque_white, fresnel (F32.lit 2 2), F32.lit 25 2);
    ("sand", "sand", opaque_white, fresnel (F32.lit 2 2), F32.lit 25 2);
    ("checkboard", "checkboard", opaque_white, fresnel (F32.lit 2 2),
     F32.lit 25 2);
    ("shiny", "shiny", half_white, fresnel (F32.lit 1 1), f0);
    ("treeSprites", "treeSprites", opaque_white, fresnel (F32.lit 1 2),
     F32.lit 125 3) ].

(** [m->MatCBIndex = MatCBIndex++; m->DiffuseSrvHeapIndex =
    DiffuseSrvHeapIndex++; ...; mMaterials[key] = std::move(m);] *)
Definition add_material (st : Z * Z * gmap string Material.t)
    (d : MaterialDesc) : Z * Z * gmap string Material.t :=
  let '(MatCBIndex, DiffuseSrvHeapIndex, mats) := st in
  let '(key, name, albedo, r0, roughness) := d in
  ((MatCBIndex + 1) mod UINT_MOD,
   (DiffuseSrvHeapIndex + 1) mod UINT_MOD,
   <[key := Material.mk name MatCBIndex DiffuseSrvHeapIndex
              gNumFrameResources albedo r0 roughness Identity4x4]> mats).

Definition BuildMaterials : gmap string Material.t :=
  (foldl add_material (0, 0, ∅) material_descs).2.

(** *** BuildRenderItems *)

Record RitemBuild := mkRitemBuild {
  objCBIndex : Z;
  allRitems : list RenderItem.t;
  ritemLayer : RenderLayer -> list nat }.

Definition layer_push (layer : RenderLayer) (p : nat)
    (layers : RenderLayer -> list nat) : RenderLayer -> list nat :=
  fun l => if decide (l = layer) then layers l ++ [p] else layers l.

(** One render-item block of the source:
    [auto r = std::make_unique<RenderItem>(); r->World = ...;
     r->ObjCBIndex = objCBIndex++; r->Mat = mMaterials[mat].get();
     r->Geo = mGeometries[geo].get(); r->PrimitiveType = ...;
     r->IndexCount = r->Geo->DrawArgs[submesh].IndexCount; ...
     mRitemLayer[(int)layer].push_back(r.get());
     mAllRitems.push_back(std::move(r));]
    [world] gives the [World] matrix from the index the item receives;
    [NumFramesDirty] keeps its default, [gNumFrameResources]. *)
Definition add_ritem (layer : RenderLayer) (world : Z -> XMFLOAT4X4.t)
    (tex : XMFLOAT4X4.t) (mat geo submesh : string)
    (topology : D3D_PRIMITIVE_TOPOLOGY) (st : RitemBuild) : RitemBuild :=
  let args := DrawArgs geo submesh in
  let r := RenderItem.mk (world (objCBIndex st)) tex gNumFrameResources
             (objCBIndex st) mat geo topology
             (SubmeshGeometry.IndexCount args)
             (SubmeshGeometry.StartIndexLocation args)
             (SubmeshGeometry.BaseVertexLocation args) in
  mkRitemBuild ((objCBIndex st + 1) mod UINT_MOD)
               (allRitems st ++ [r])
               (layer_push layer (length (allRitems st)) (ritemLayer st)).

(** An opaque triangle-list item placed by the scene data, with the default
    texture transform: the shape of all but three blocks. *)
Definition add_placed (layer : RenderLayer) (mat geo submesh : string)
    : RitemBuild -> RitemBuild :=
  add_ritem layer placement Identity4x4 mat geo submesh TRIANGLELIST.

Definition add_box : RitemBuild -> RitemBuild :=
  add_placed Opaque "bricks" "boxGeo" "box".
Definition add_wedge : RitemBuild -> RitemBuild :=
  add_placed Opaque "bricks2" "wedgeGeo" "wedge".
Definition add_grasswall : RitemBuild -> RitemBuild :=
  add_placed Opaque "grass2" "grasswallGeo" "grasswall".
Definition add_prism : RitemBuild -> RitemBuild :=
  add_placed Opaque "checkboard" "prismGeo" "prism".

(** The body of every [borders]/[dersbor] loop: two wedges. *)
Definition wedge_pair (st : RitemBuild) : RitemBuild :=
  add_wedge (add_wedge st).

(** The body of the corner loop: cylinder, cone, sphere. *)
Definition corner_tower (st : RitemBuild) : RitemBuild :=
  add_placed Transparent "ice" "sphereGeo" "sphere"
    (add_placed Opaque "tile" "coneGeo" "cone"
       (add_placed Opaque "bricks3" "cylinderGeo" "cylinder" st)).

(** The body of the gate loop: three prisms, the middle stairs (a box) and
    the front and back stairs (wedges). *)
Definition gate (st : RitemBuild) : RitemBuild :=
  add_wedge (add_wedge (add_box (add_prism (add_prism (add_prism st))))).

(** [for (...; n iterations; ...) body] *)
Definition loop (n : nat) (body : RitemBuild -> RitemBuild)
    : RitemBuild -> RitemBuild :=
  Nat.iter n body.

(** The render items in source order.  The first three blocks push the
    layer pointers before they move the items into [mAllRitems], in the same
    relative order; every later block does both at its end. *)
Definition BuildRenderItems : RitemBuild :=
  let st := mkRitemBuild 0 [] (fun _ => []) in
  (* wavesRitem; mWavesRitem = wavesRitem.get() *)
  let st := add_ritem Transparent (fun _ => Identity4x4)
              (XMMatrixScaling (F32.lit 5 0) (F32.lit 5 0) f1)
              "water" "waterGeo" "grid" TRIANGLELIST st in
  (* gridRitem *)
  let st := add_ritem Opaque (fun _ => Identity4x4)
              (XMMatrixScaling (F32.lit 5 0) (F32.lit 5 0) f1)
              "grass" "landGeo" "grid" TRIANGLELIST st in
  (* CenterRoom *)
  let st := add_box st in
  (* walls: for k < 2, SideWall *)
  let st := loop 2 add_box st in
  (* BackWall, FrontLeftWall, FrontRightWall *)
  let st := add_box (add_box (add_box st)) in
  (* side wall wedges: for j in 1, -1; for i < 10 *)
  let st := loop 2 (loop 10 wedge_pair) st in
  (* back wall wedges: for i < 6 *)
  let st := loop 6 wedge_pair st in
  (* front wall wedges: for i < 2, twice *)
  let st := loop 2 wedge_pair st in
  let st := loop 2 wedge_pair st in
  (* corners: for j < 2; for i < 2 *)
  let st := loop 2 (loop 2 corner_tower) st in
  (* centre wedges: for j < 2; for i < 4, twice *)
  let st := loop 2 (loop 4 wedge_pair) st in
  let st := loop 2 (loop 4 wedge_pair) st in
  (* CenterPyramid *)
  let st := add_placed Opaque "sand" "pyramidGeo" "pyramid" st in
  (* gate: for i < 2 *)
  let st := loop 2 gate st in
  (* maze: six outer grass walls, then ten labyrinth walls *)
  let st := loop 6 add_grasswall st in
  let st := loop 10 add_grasswall st in
  (* Diamond *)
  let st := add_placed Opaque "shiny" "diamondGeo" "diamond" st in
  (* treeSpritesRitem *)
  add_ritem AlphaTestedTreeSprites (fun _ => Identity4x4) Identity4x4
    "treeSprites" "treeSpritesGeo" "points" POINTLIST st.

(** *** BuildFrameResources *)

(** [FrameResource(device, passCount, objectCount, materialCount,
    waveVertCount)]: four upload buffers of the given capacities and a zero
    fence. *)
Definition new_FrameResource (slot passCount objectCount materialCount
    waveVertCount : Z) : FrameResource.t :=
  FrameResource.mk
    (UploadBuffer.create passCount (UploadAddress slot "PassCB"))
    (UploadBuffer.create objectCount (UploadAddress slot "ObjectCB"))
    (UploadBuffer.create materialCount (UploadAddress slot "MaterialCB"))
    (UploadBuffer.create waveVertCount (UploadAddress slot "WavesVB"))
    0%N.

(** [for (i < gNumFrameResources) mFrameResources.push_back(
      make_unique<FrameResource>(device, 1, (UINT)mAllRitems.size(),
                                 (UINT)mMaterials.size(),
                                 mWaves->VertexCount()))] *)
Definition BuildFrameResources (allRitems : list RenderItem.t)
    (materials : gmap string Material.t) (waves : Waves)
    : list FrameResource.t :=
  (fun i => new_FrameResource i 1
              (Z.of_nat (length allRitems) mod UINT_MOD)
              (Z.of_nat (size materials) mod UINT_MOD)
              (VertexCount waves))
  <$> seqZ 0 gNumFrameResources.

(** *** Initialize *)

(** The geometry builders, reduced to the buffers the frame loop binds:
    every mesh gets default-heap vertex and index buffers, except that the
    water mesh has no vertex buffer yet ("set dynamically"). *)
Definition static_geometries : list string :=
  [ "landGeo"; "boxGeo"; "wedgeGeo"; "sphereGeo"; "cylinderGeo"; "coneGeo";
    "pyramidGeo"; "diamondGeo"; "prismGeo"; "grasswallGeo";
    "treeSpritesGeo" ].

Definition BuildGeometries : gmap string MeshGeometry.t :=
  <["waterGeo" :=
      MeshGeometry.mk NullResource (DefaultIndexBuffer "waterGeo")]>
    (list_to_map
       ((fun g => (g, MeshGeometry.mk (DefaultVertexBuffer g)
                                       (DefaultIndexBuffer g)))
        <$> static_geometries)).

(** The state [Initialize] leaves behind.  [fence0] is the value of
    [mCurrentFence] after the last [FlushCommandQueue] of start-up, which
    also waits until the device has completed it. *)
Definition Initialize (fence0 : N) : App :=
  let waves := Waves_new 305 150 f1 (F32.lit 3 2) (F32.lit 4 0)
                 (F32.lit 2 1) in
  let materials := BuildMaterials in
  let items := BuildRenderItems in
  mkApp (BuildFrameResources (allRitems items) materials waves)
        0
        BuildGeometries
        materials
        0%nat
        (allRitems items)
        (ritemLayer items)
        waves
        f0
        fence0
        (Gpu.mk fence0 []).

(** *** Update *)

(** [v[i]] on a [std::vector], with an [int] index. *)
Definition at_index {A} (i : Z) (v : list A) : option A :=
  if 0 <=? i then v !! Z.to_nat i else None.

(** The fence test and wait at the top of [Update]:
    [if (fr->Fence != 0 && mFence->GetCompletedValue() < fr->Fence)
       { SetEventOnCompletion; WaitForSingleObject; }]
    [progress] is how far the device got since the CPU last looked.  [&&]
    does not evaluate its right operand when the fence is zero. *)
Definition FenceGate (fence : N) (progress : nat) (g : Gpu.t)
    : option (Gpu.t * list Event) :=
  let g1 := Gpu.advance progress g in
  if (fence =? 0)%N then Some (g1, [])
  else
    let completed := Gpu.Completed g1 in
    if (completed <? fence)%N
    then g2 ← Gpu.WaitForFence fence g1;
         Some (g2, [EvGetCompletedValue completed; EvWaitForFence fence])
    else Some (g1, [EvGetCompletedValue completed]).

(** The body of [AnimateMaterials], on the water material: scroll the
    texture coordinates [(3,0)] and [(3,1)] of its transform, wrap them at
    one, and re-arm the dirty counter. *)
Definition scroll_water (gt : GameTimer.t) (waterMat : Material.t)
    : Material.t :=
  let tu := XMFLOAT4X4.m30 (Material.MatTransform waterMat) in
  let tv := XMFLOAT4X4.m31 (Material.MatTransform waterMat) in
  let tu := F32.add tu (F32.mul (F32.lit 1 1) (GameTimer.DeltaTime gt)) in
  let tv := F32.add tv (F32.mul (F32.lit 2 2) (GameTimer.DeltaTime gt)) in
  let tu := if F32.geb tu f1 then F32.sub tu f1 else tu in
  let tv := if F32.geb tv f1 then F32.sub tv f1 else tv in
  let transform :=
    XMFLOAT4X4.set31 tv (XMFLOAT4X4.set30 tu (Material.MatTransform waterMat))
  in
  (* Material has changed, so need to update cbuffer. *)
  Material.set_NumFramesDirty gNumFrameResources
    (Material.set_MatTransform transform waterMat).

(** [AnimateMaterials].  [mMaterials["water"].get()] is a null pointer when
    the key is absent; dereferencing it has no defined result ([None]). *)
Definition AnimateMaterials (gt : GameTimer.t)
    (materials : gmap string Material.t) : option (gmap string Material.t) :=
  waterMat ← materials !! "water";
  Some (<["water" := scroll_water gt waterMat]> materials).

(** The record [UpdateObjectCBs] builds for one item. *)
Definition object_constants (e : RenderItem.t) : ObjectConstants.t :=
  ObjectConstants.mk (XMMatrixTranspose (RenderItem.World e))
                     (XMMatrixTranspose (RenderItem.TexTransform e)).

(** One iteration of the loop of [UpdateObjectCBs].  The loop state is the
    current slot's object buffer, the items visited so far and the
    [CopyData] calls made so far. *)
Definition UpdateObjectCBs_body
    (st : UploadBuffer.t ObjectConstants.t * list RenderItem.t
          * list (Z * ObjectConstants.t))
    (e : RenderItem.t) :=
  let '(currObjectCB, visited, calls) := st in
  if 0 <? RenderItem.NumFramesDirty e
  then
    let objConstants := object_constants e in
    (UploadBuffer.CopyData (RenderItem.ObjCBIndex e) objConstants currObjectCB,
     visited ++ [RenderItem.set_NumFramesDirty
                   (RenderItem.NumFramesDirty e - 1) e],
     calls ++ [(RenderItem.ObjCBIndex e, objConstants)])
  else (currObjectCB, visited ++ [e], calls).

Definition UpdateObjectCBs (currObjectCB : UploadBuffer.t ObjectConstants.t)
    (allRitems : list RenderItem.t) :=
  foldl UpdateObjectCBs_body (currObjectCB, [], []) allRitems.

(** The record [UpdateMaterialCBs] builds for one material. *)
Definition material_constants (mat : Material.t) : MaterialConstants.t :=
  MaterialConstants.mk (Material.DiffuseAlbedo mat) (Material.FresnelR0 mat)
                       (Material.Roughness mat)
                       (XMMatrixTranspose (Material.MatTransform mat)).

(** One iteration of the loop of [UpdateMaterialCBs], for the map entry
    [e = (key, mat)].  The material is updated in place, under its key. *)
Definition UpdateMaterialCBs_body
    (st : UploadBuffer.t MaterialConstants.t * gmap string Material.t
          * list (Z * MaterialConstants.t))
    (e : string * Material.t) :=
  let '(currMaterialCB, materials, calls) := st in
  let mat := e.2 in
  if 0 <? Material.NumFramesDirty mat
  then
    let matConstants := material_constants mat in
    (UploadBuffer.CopyData (Material.MatCBIndex mat) matConstants
       currMaterialCB,
     <[e.1 := Material.set_NumFramesDirty (Material.NumFramesDirty mat - 1)
                mat]> materials,
     calls ++ [(Material.MatCBIndex mat, matConstants)])
  else st.

(** [for (auto& e : mMaterials)]: the iteration order of the unordered map
    is the one [map_to_list] fixes. *)
Definition UpdateMaterialCBs
    (currMaterialCB : UploadBuffer.t MaterialConstants.t)
    (materials : gmap string Material.t) :=
  foldl UpdateMaterialCBs_body (currMaterialCB, materials, [])
        (map_to_list materials).

(** [UpdateMainPassCB]: the pass constants of this frame, stored at element
    0 of the current slot's pass buffer. *)
Definition MainPassCB (inp : FrameInput.t) : PassConstants.t :=
  PassConstants.mk (XMMatrixTranspose (FrameInput.View inp))
                   (XMMatrixTranspose (FrameInput.Proj inp))
                   (FrameInput.EyePosW inp)
                   f1 (F32.lit 1000 0)
                   (GameTimer.TotalTime (FrameInput.gt inp))
                   (GameTimer.DeltaTime (FrameInput.gt inp)).

(** A run of [CopyData] calls on one buffer, first call first. *)
Definition copy_all {T} (calls : list (Z * T)) (b : UploadBuffer.t T)
    : UploadBuffer.t T :=
  foldl (fun b c => UploadBuffer.CopyData c.1 c.2 b) b calls.

(** The vertex [UpdateWaves] builds for grid vertex [i]. *)
Definition wave_vertex (waves : Waves) (i : Z) : Vertex.t :=
  let Pos := Position waves i in
  Vertex.mk Pos (Normal waves i)
    (XMFLOAT2.mk
       (F32.add (F32.lit 5 1) (F32.div (XMFLOAT3.x Pos) (Width waves)))
       (F32.sub (F32.lit 5 1) (F32.div (XMFLOAT3.z Pos) (Depth waves)))).

(** The first part of [UpdateWaves]: the quarter-second test on the static
    [t_base] and the random disturbance.  [mTimer] is the timer the loop
    passes to [Update] as [gt].  Returns the new [t_base], the simulator and
    the [Disturb] call made, if any. *)
Definition random_disturb (inp : FrameInput.t) (tbase : float)
    (waves : Waves) : float * Waves * list Event :=
  if F32.geb (F32.sub (GameTimer.TotalTime (FrameInput.gt inp)) tbase)
             (F32.lit 25 2)
  then
    let tbase := F32.add tbase (F32.lit 25 2) in
    let i := Rand 4 (RowCount waves - 5) (FrameInput.rand_i inp) in
    let j := Rand 4 (ColumnCount waves - 5) (FrameInput.rand_j inp) in
    let r := RandF (F32.lit 2 1) (F32.lit 5 1) (FrameInput.rand_r inp) in
    (tbase, Disturb i j r waves, [EvDisturb i j r])
  else (tbase, waves, []).

(** The second part of [UpdateWaves]: advance the simulation and stream
    every vertex into the current slot's vertex buffer,
    [for (int i = 0; i < mWaves->VertexCount(); ++i)]. *)
Definition stream_waves (dt : float) (waves : Waves)
    (currWavesVB : UploadBuffer.t Vertex.t)
    : Waves * UploadBuffer.t Vertex.t * list (Z * Vertex.t) :=
  let waves := Waves_Update dt waves in
  let calls := (fun i => (i, wave_vertex waves i))
               <$> seqZ 0 (VertexCount waves) in
  (waves, copy_all calls currWavesVB, calls).

(** The last statement of [UpdateWaves]:
    [mWavesRitem->Geo->VertexBufferGPU = currWavesVB->Resource()]. *)
Definition rebind_waves (slot : Z) (wavesRitem : nat)
    (allRitems : list RenderItem.t) (geometries : gmap string MeshGeometry.t)
    : option (gmap string MeshGeometry.t) :=
  ri ← allRitems !! wavesRitem;
  geo ← geometries !! RenderItem.Geo ri;
  Some (<[RenderItem.Geo ri :=
            MeshGeometry.mk (WavesVBResource slot)
                            (MeshGeometry.IndexBufferGPU geo)]> geometries).

Definition tag {T} (slot : Z) (wrap : T -> Payload) (calls : list (Z * T))
    : list Event :=
  (fun c => EvCopyData slot c.1 (wrap c.2)) <$> calls.

(** [UpdateWaves], for the current slot [index]. *)
Definition UpdateWaves (inp : FrameInput.t) (index : Z) (tbase : float)
    (waves : Waves) (currWavesVB : UploadBuffer.t Vertex.t)
    (wavesRitem : nat) (allRitems : list RenderItem.t)
    (geometries : gmap string MeshGeometry.t)
    : option (float * Waves * UploadBuffer.t Vertex.t
              * gmap string MeshGeometry.t * list Event) :=
  let '(tbase, waves, disturb) := random_disturb inp tbase waves in
  let '(waves, wavesVB, calls) :=
    stream_waves (GameTimer.DeltaTime (FrameInput.gt inp)) waves currWavesVB
  in
  geometries ← rebind_waves index wavesRitem allRitems geometries;
  Some (tbase, waves, wavesVB, geometries,
        disturb ++ tag index ToWavesVB calls).

(** [UpdateMainPassCB]: [currPassCB->CopyData(0, mMainPassCB)]. *)
Definition UpdateMainPassCB (inp : FrameInput.t)
    (currPassCB : UploadBuffer.t PassConstants.t)
    : UploadBuffer.t PassConstants.t * list (Z * PassConstants.t) :=
  let calls := [(0, MainPassCB inp)] in
  (copy_all calls currPassCB, calls).

(** [TreeBillboardsApp::Update].  The camera has already been moved by
    [OnKeyboardInput]; it arrives in [inp]. *)
Definition Update (inp : FrameInput.t) (app : App)
    : option (App * list Event) :=
  (* Cycle through the circular frame resource array. *)
  let index := Z.rem (mCurrFrameResourceIndex app + 1) gNumFrameResources in
  fr ← at_index index (mFrameResources app);
  (* Has the GPU finished processing the commands of this frame resource? *)
  '(gpu, gate) ← FenceGate (FrameResource.Fence fr)
                    (FrameInput.gpu_progress inp) (mGpu app);
  materials ← AnimateMaterials (FrameInput.gt inp) (mMaterials app);
  let '(objectCB, ritems, objCalls) :=
    UpdateObjectCBs (FrameResource.ObjectCB fr) (mAllRitems app) in
  let '(materialCB, materials, matCalls) :=
    UpdateMaterialCBs (FrameResource.MaterialCB fr) materials in
  let '(passCB, passCalls) := UpdateMainPassCB inp (FrameResource.PassCB fr)
  in
  '(tbase, waves, wavesVB, geometries, waveLog) ←
    UpdateWaves inp index (t_base app) (mWaves app)
                (FrameResource.WavesVB fr) (mWavesRitem app) ritems
                (mGeometries app);
  let fr := FrameResource.mk passCB objectCB materialCB wavesVB
              (FrameResource.Fence fr) in
  Some (mkApp (<[Z.to_nat index := fr]> (mFrameResources app)) index
              geometries materials (mWavesRitem app) ritems
              (mRitemLayer app) waves tbase (mCurrentFence app) gpu,
        gate ++ tag index ToObjectCB objCalls
             ++ tag index ToMaterialCB matCalls
             ++ tag index ToPassCB passCalls
             ++ waveLog).

(** *** Draw *)

(** [base + index * byteSize], as the source computes it: the product in
    32-bit unsigned arithmetic, the sum in 64-bit. *)
Definition cb_address (base index byteSize : Z) : Z :=
  (base + (index * byteSize) mod UINT_MOD) mod UINT64_MOD.

(** [CD3DX12_GPU_DESCRIPTOR_HANDLE tex(heapStart);
     tex.Offset(index, descriptorSize)] *)
Definition descriptor_handle (heapStart index descriptorSize : Z) : Z :=
  (heapStart + index * descriptorSize) mod UINT64_MOD.

(** The body of the loop of [DrawRenderItems] for the item [ri] points to.
    A dangling item, geometry or material pointer has no defined result. *)
Definition DrawRenderItem (app : App) (fr : FrameResource.t) (ri : nat)
    : option (list Command) :=
  item ← mAllRitems app !! ri;
  geo ← mGeometries app !! RenderItem.Geo item;
  mat ← mMaterials app !! RenderItem.Mat item;
  let tex := descriptor_handle SrvHeapStart
               (Material.DiffuseSrvHeapIndex mat) mCbvSrvDescriptorSize in
  let objCBAddress :=
    cb_address (UploadBuffer.GPUVirtualAddress (FrameResource.ObjectCB fr))
               (RenderItem.ObjCBIndex item) objCBByteSize in
  let matCBAddress :=
    cb_address (UploadBuffer.GPUVirtualAddress (FrameResource.MaterialCB fr))
               (Material.MatCBIndex mat) matCBByteSize in
  Some [ IASetVertexBuffers (MeshGeometry.VertexBufferGPU geo);
         IASetIndexBuffer (MeshGeometry.IndexBufferGPU geo);
         IASetPrimitiveTopology (RenderItem.PrimitiveType item);
         SetGraphicsRootDescriptorTable 0 tex;
         SetGraphicsRootConstantBufferView 1 objCBAddress;
         SetGraphicsRootConstantBufferView 3 matCBAddress;
         DrawIndexedInstanced (RenderItem.IndexCount item) 1
           (RenderItem.StartIndexLocation item)
           (RenderItem.BaseVertexLocation item) 0 ].

(** [DrawRenderItems(cmdList, ritems)]:
    [for (size_t i = 0; i < ritems.size(); ++i)]. *)
Definition DrawRenderItems (app : App) (fr : FrameResource.t)
    (ritems : list nat) : option (list Command) :=
  mjoin <$> mapM (DrawRenderItem app fr) ritems.

(** [TreeBillboardsApp::Draw]: the recorded command list, then the fence
    stamp [mCurrFrameResource->Fence = ++mCurrentFence] and the queue
    signal. *)
Definition Draw (app : App) : option (App * list Command) :=
  let index := mCurrFrameResourceIndex app in
  fr ← at_index index (mFrameResources app);
  opaque ← DrawRenderItems app fr (mRitemLayer app Opaque);
  alphaTested ← DrawRenderItems app fr (mRitemLayer app AlphaTested);
  treeSprites ← DrawRenderItems app fr
                  (mRitemLayer app AlphaTestedTreeSprites);
  transparent ← DrawRenderItems app fr (mRitemLayer app Transparent);
  let fence := ((mCurrentFence app + 1) mod 2 ^ 64)%N in
  Some (mkApp (<[Z.to_nat index := FrameResource.set_Fence fence fr]>
                 (mFrameResources app))
              index (mGeometries app) (mMaterials app) (mWavesRitem app)
              (mAllRitems app) (mRitemLayer app) (mWaves app) (t_base app)
              fence (Gpu.Signal fence (mGpu app)),
        [ Reset "opaque"; RSSetViewports; RSSetScissorRects;
          ResourceBarrierToRenderTarget; ClearRenderTargetView;
          ClearDepthStencilView; OMSetRenderTargets; SetDescriptorHeaps;
          SetGraphicsRootSignature;
          SetGraphicsRootConstantBufferView 2
            (UploadBuffer.GPUVirtualAddress (FrameResource.PassCB fr)) ]
        ++ opaque
        ++ [SetPipelineState "alphaTested"] ++ alphaTested
        ++ [SetPipelineState "treeSprites"] ++ treeSprites
        ++ [SetPipelineState "transparent"] ++ transparent
        ++ [ResourceBarrierToPresent]).

(** Modelled from the spec: the message loop [D3DApp::Run] is in
    Common/d3dApp.cpp, which is not part of the source tree.  Per tick the
    scheduler selects the next slot, waits if the GPU is behind, stages the
    data ([Update]), then records, submits and signals ([Draw]). *)
Definition Tick (inp : FrameInput.t) (app : App)
    : option (App * list Event * list Command) :=
  '(app, events) ← Update inp app;
  '(app, commands) ← Draw app;
  Some (app, events, commands).

(** A run of the loop: one input per tick.  For each tick, first tick
    first: the slot the tick selected, the calls [Update] made and the
    commands [Draw] recorded. *)
Fixpoint Run (inputs : list FrameInput.t) (app : App)
    : option (App * list (Z * list Event * list Command)) :=
  match inputs with
  | [] => Some (app, [])
  | inp :: rest =>
      '(app, events, commands) ← Tick inp app;
      '(app', outputs) ← Run rest app;
      Some (app', (mCurrFrameResourceIndex app, events, commands) :: outputs)
  end.

End TreeBillboardsApp.

(** ** Vocabulary of the properties *)

(** What one render item contributes to [UpdateObjectCBs]: the [CopyData]
    call it causes, and the item afterwards. *)
Definition ObjectCB_call (e : RenderItem.t) : list (Z * ObjectConstants.t) :=
  if 0 <? RenderItem.NumFramesDirty e
  then [(RenderItem.ObjCBIndex e, object_constants e)]
  else [].

Definition ritem_after (e : RenderItem.t) : RenderItem.t :=
  if 0 <? RenderItem.NumFramesDirty e
  then RenderItem.set_NumFramesDirty (RenderItem.NumFramesDirty e - 1) e
  else e.

(** The same for one material and [UpdateMaterialCBs]. *)
Definition MaterialCB_call (m : Material.t) : list (Z * MaterialConstants.t) :=
  if 0 <? Material.NumFramesDirty m
  then [(Material.MatCBIndex m, material_constants m)]
  else [].

Definition material_after (m : Material.t) : Material.t :=
  if 0 <? Material.NumFramesDirty m
  then Material.set_NumFramesDirty (Material.NumFramesDirty m - 1) m
  else m.

(** The object-constant records a log stores into element [index] of slot
    [slot], oldest first; the same for material constants. *)
Definition object_stores (slot index : Z) (log : list Event)
    : list ObjectConstants.t :=
  log ≫= fun e =>
    match e with
    | EvCopyData s i (ToObjectCB d) =>
        if decide (s = slot /\ i = index) then [d] else []
    | _ => []
    end.

Definition material_stores (slot index : Z) (log : list Event)
    : list MaterialConstants.t :=
  log ≫= fun e =>
    match e with
    | EvCopyData s i (ToMaterialCB d) =>
        if decide (s = slot /\ i = index) then [d] else []
    | _ => []
    end.

Definition is_store (e : Event) : Prop :=
  match e with EvCopyData _ _ _ => True | _ => False end.

Definition store_slot (e : Event) : option Z :=
  match e with EvCopyData s _ _ => Some s | _ => None end.

(** What the fence test at the top of [Update] logs, for a slot whose stored
    fence is [fence] when the device's completed value is [completed]. *)
Definition gate_outcome (fence completed : N) (gate : list Event) : Prop :=
  (fence = 0%N /\ gate = []) \/
  (fence <> 0%N /\ (fence <= completed)%N /\
   gate = [EvGetCompletedValue completed]) \/
  (fence <> 0%N /\ (completed < fence)%N /\
   gate = [EvGetCompletedValue completed; EvWaitForFence fence]).

(** The slots a run selected, tick by tick. *)
Definition selected_slots (outputs : list (Z * list Event * list Command))
    : list Z :=
  (fun o => o.1.1) <$> outputs.

(** The events of a run, all ticks together. *)
Definition run_events (outputs : list (Z * list Event * list Command))
    : list Event :=
  outputs ≫= fun o => o.1.2.

(** No other render item shares the object-constant index of the item at
    position [k]; no other material shares the material-constant index of
    the material under [key]. *)
Definition unique_ObjCBIndex (items : list RenderItem.t) (k : nat) : Prop :=
  forall e, items !! k = Some e ->
  forall k' e', items !! k' = Some e' ->
    RenderItem.ObjCBIndex e' = RenderItem.ObjCBIndex e -> k' = k.

Definition unique_MatCBIndex (mats : gmap string Material.t) (key : string)
    : Prop :=
  forall m, mats !! key = Some m ->
  forall key' m', mats !! key' = Some m' ->
    Material.MatCBIndex m' = Material.MatCBIndex m -> key' = key.

(** The vertex stores of a log, in order: slot, element, vertex. *)
Definition wave_stores (log : list Event) : list (Z * Z * Vertex.t) :=
  log ≫= fun e =>
    match e with
    | EvCopyData s i (ToWavesVB v) => [(s, i, v)]
    | _ => []
    end.


(** The draw calls of a command list, in order. *)
Fixpoint draw_calls (commands : list Command) : list Command :=
  match commands with
  | [] => []
  | DrawIndexedInstanced a b c d e :: rest =>
      DrawIndexedInstanced a b c d e :: draw_calls rest
  | _ :: rest => draw_calls rest
  end.

(** No pipeline state chosen yet. *)
Definition no_pso : string := EmptyString.


(** The pipeline state in effect after a command list. *)
Fixpoint final_pso (pso : string) (commands : list Command) : string :=
  match commands with
  | [] => pso
  | Reset p :: rest => final_pso p rest
  | SetPipelineState p :: rest => final_pso p rest
  | _ :: rest => final_pso pso rest
  end.

(** The element index of a constant store lies below the capacity given
    for its buffer: [nobj] for object constants, [nmat] for material
    constants. *)
Definition store_in_bounds (nobj nmat : Z) (e : Event) : Prop :=
  match e with
  | EvCopyData _ i (ToObjectCB _) => 0 <= i < nobj
  | EvCopyData _ i (ToMaterialCB _) => 0 <= i < nmat
  | _ => True
  end.

(** What one iteration of the loop of [UpdateMaterialCBs] does to the
    material map. *)
Definition materials_step (mats : gmap string Material.t)
    (e : string * Material.t) : gmap string Material.t :=
  if 0 <? Material.NumFramesDirty e.2
  then <[e.1 := material_after e.2]> mats
  else mats.

(** The records among [calls] that go to element [i]. *)
Definition calls_at {T} (i : Z) (calls : list (Z * T)) : list T :=
  calls ≫= fun c => if decide (c.1 = i) then [c.2] else [].

(** A buffer whose mapping covers its capacity. *)
Definition mapped {T} (b : UploadBuffer.t T) : Prop :=
  length (UploadBuffer.mMappedData b)
  = Z.to_nat (UploadBuffer.mElementCount b).

(** ** Decompositions and invariants of the frame loop *)

Section Invariants.

Context `{WS : WavesSim} `{RS : MathHelperRandom} `{SC : SceneContent}
        `{DV : Device}.

(** The state and the log [Update] produces, from the results of its
    steps, with the two entity loops in closed form. *)
Definition Update_state (inp : FrameInput.t) (app : App) (index : Z)
    (fr : FrameResource.t) (gpu : Gpu.t) (mats : gmap string Material.t)
    (tbase : float) (waves : Waves) (wavesVB : UploadBuffer.t Vertex.t)
    (geometries : gmap string MeshGeometry.t) : App :=
  mkApp (<[Z.to_nat index :=
             FrameResource.mk
               (copy_all [(0, MainPassCB inp)] (FrameResource.PassCB fr))
               (copy_all (mAllRitems app ≫= ObjectCB_call)
                         (FrameResource.ObjectCB fr))
               (copy_all (map_to_list mats ≫= fun e => MaterialCB_call e.2)
                         (FrameResource.MaterialCB fr))
               wavesVB (FrameResource.Fence fr)]>
           (mFrameResources app))
        index geometries (material_after <$> mats) (mWavesRitem app)
        (ritem_after <$> mAllRitems app) (mRitemLayer app) waves tbase
        (mCurrentFence app) gpu.

Definition Update_log (inp : FrameInput.t) (app : App) (index : Z)
    (gate : list Event) (mats : gmap string Material.t)
    (waveLog : list Event) : list Event :=
  gate ++ tag index ToObjectCB (mAllRitems app ≫= ObjectCB_call)
       ++ tag index ToMaterialCB
            (map_to_list mats ≫= fun e => MaterialCB_call e.2)
       ++ tag index ToPassCB [(0, MainPassCB inp)]
       ++ waveLog.

(** The completed value followed by the queued signals. *)
Definition timeline (g : Gpu.t) : list N :=
  Gpu.Completed g :: Gpu.Pending g.

(** The fence values are consistent: the queue holds increasing values
    above the completed one, none beyond [mCurrentFence], and the fence
    stamped on every slot has been completed or is still queued. *)
Record gpu_ok (current : N) (fences : list N) (g : Gpu.t) : Prop := {
  gpu_sorted : StronglySorted N.lt (timeline g);
  gpu_bound : Forall (fun v => (v <= current)%N) (timeline g);
  gpu_fences :
    Forall (fun f => (f <= Gpu.Completed g)%N \/ f ∈ Gpu.Pending g) fences }.

(** The pointer [p] leads to a render item whose geometry and material
    pointers are live. *)
Definition ritem_ok (app : App) (p : nat) : Prop :=
  exists item,
    mAllRitems app !! p = Some item /\
    is_Some (mGeometries app !! RenderItem.Geo item) /\
    is_Some (mMaterials app !! RenderItem.Mat item).

(** The states the frame loop runs in: three frame resources, a current
    index in range, a water material, live pointers in [mWavesRitem] and in
    every layer, and consistent fence values. *)
Record wf (app : App) : Prop := {
  wf_frames : length (mFrameResources app) = 3%nat;
  wf_index : 0 <= mCurrFrameResourceIndex app < gNumFrameResources;
  wf_water : is_Some (mMaterials app !! "water");
  wf_waves : ritem_ok app (mWavesRitem app);
  wf_layers : forall layer, Forall (ritem_ok app) (mRitemLayer app layer);
  wf_gpu : gpu_ok (mCurrentFence app)
             (FrameResource.Fence <$> mFrameResources app) (mGpu app) }.

(** [++mCurrentFence], a [UINT64]. *)
Definition next_fence (app : App) : N :=
  ((mCurrentFence app + 1) mod 2 ^ 64)%N.

(** The state and the command list [Draw] produces. *)
Definition Draw_state (app : App) (fr : FrameResource.t) : App :=
  mkApp (<[Z.to_nat (mCurrFrameResourceIndex app) :=
             FrameResource.set_Fence (next_fence app) fr]>
           (mFrameResources app))
        (mCurrFrameResourceIndex app) (mGeometries app) (mMaterials app)
        (mWavesRitem app) (mAllRitems app) (mRitemLayer app) (mWaves app)
        (t_base app) (next_fence app)
        (Gpu.Signal (next_fence app) (mGpu app)).

Definition Draw_prologue (fr : FrameResource.t) : list Command :=
  [ Reset "opaque"; RSSetViewports; RSSetScissorRects;
    ResourceBarrierToRenderTarget; ClearRenderTargetView;
    ClearDepthStencilView; OMSetRenderTargets; SetDescriptorHeaps;
    SetGraphicsRootSignature;
    SetGraphicsRootConstantBufferView 2
      (UploadBuffer.GPUVirtualAddress (FrameResource.PassCB fr)) ].

Definition Draw_commands (fr : FrameResource.t)
    (opaque alphaTested treeSprites transparent : list Command)
    : list Command :=
  Draw_prologue fr
  ++ opaque
  ++ [SetPipelineState "alphaTested"] ++ alphaTested
  ++ [SetPipelineState "treeSprites"] ++ treeSprites
  ++ [SetPipelineState "transparent"] ++ transparent
  ++ [ResourceBarrierToPresent].

(** A decision procedure for [ritem_ok]. *)
Definition ritem_okb (app : App) (p : nat) : bool :=
  match mAllRitems app !! p with
  | Some item =>
      bool_decide (is_Some (mGeometries app !! RenderItem.Geo item))
      && bool_decide (is_Some (mMaterials app !! RenderItem.Mat item))
  | None => false
  end.

(** The object-constant indices count the items from zero; the material
    indices are distinct and below the number of materials; every frame
    resource has one object element per item and one material element per
    material. *)
Record indices_ok (app : App) : Prop := {
  idx_items :
    RenderItem.ObjCBIndex <$> mAllRitems app
    = seqZ 0 (Z.of_nat (length (mAllRitems app)));
  idx_unique : forall key, unique_MatCBIndex (mMaterials app) key;
  idx_materials :
    map_Forall (fun _ m => 0 <= Material.MatCBIndex m
                           < Z.of_nat (size (mMaterials app)))
               (mMaterials app);
  idx_capacity :
    Forall (fun fr =>
              UploadBuffer.mElementCount (FrameResource.ObjectCB fr)
              = Z.of_nat (length (mAllRitems app)) /\
              UploadBuffer.mElementCount (FrameResource.MaterialCB fr)
              = Z.of_nat (size (mMaterials app)))
           (mFrameResources app) }.

End Invariants.

(** ** Start-up and further vocabulary *)

(** ** What a run leaves alone *)

(** A render item after [n] more passes of [UpdateObjectCBs]. *)
Definition ritem_after_n (n : nat) (e : RenderItem.t) : RenderItem.t :=
  if 0 <? RenderItem.NumFramesDirty e
  then RenderItem.set_NumFramesDirty
         (Z.max 0 (RenderItem.NumFramesDirty e - Z.of_nat n)) e
  else e.

(** The fields of a material that no function of the frame loop assigns. *)
Definition material_static (m : Material.t)
    : string * Z * Z * XMFLOAT4.t * XMFLOAT3.t * float :=
  (Material.Name m, Material.MatCBIndex m, Material.DiffuseSrvHeapIndex m,
   Material.DiffuseAlbedo m, Material.FresnelR0 m, Material.Roughness m).

Section Ring.

Context `{WS : WavesSim} `{RS : MathHelperRandom} `{SC : SceneContent}
        `{DV : Device}.

(** The fence stamped on the slot [j] places after the current one in the
    ring (zero for a slot that does not exist). *)
Definition slot_fence (app : App) (j : Z) : N :=
  default 0%N
    ((FrameResource.Fence <$> mFrameResources app)
     !! Z.to_nat ((mCurrFrameResourceIndex app + j) mod gNumFrameResources)).

(** Between frames: the slot last submitted carries the newest fence value,
    the one before it the value before that, and so on round the ring,
    unless the device has already completed that much. *)
Record ring_ok (app : App) : Prop := {
  ring_0 :
    (mCurrentFence app
     <= N.max (slot_fence app 0) (Gpu.Completed (mGpu app)))%N;
  ring_1 :
    (mCurrentFence app
     <= N.max (slot_fence app 2) (Gpu.Completed (mGpu app)) + 1)%N;
  ring_2 :
    (mCurrentFence app
     <= N.max (slot_fence app 1) (Gpu.Completed (mGpu app)) + 2)%N;
  ring_3 : (mCurrentFence app <= Gpu.Completed (mGpu app) + 3)%N }.

(** Inside a frame, after [Update] has passed the fence test of the slot
    it selected. *)
Record ring_mid (app : App) : Prop := {
  mid_0 : (mCurrentFence app <= Gpu.Completed (mGpu app) + 2)%N;
  mid_1 :
    (mCurrentFence app
     <= N.max (slot_fence app 2) (Gpu.Completed (mGpu app)))%N;
  mid_2 :
    (mCurrentFence app
     <= N.max (slot_fence app 1) (Gpu.Completed (mGpu app)) + 1)%N }.

(** The layers in the order [Draw] submits them. *)
Definition draw_order (app : App) : list nat :=
  mRitemLayer app Opaque ++ mRitemLayer app AlphaTested
  ++ mRitemLayer app AlphaTestedTreeSprites ++ mRitemLayer app Transparent.

(** The draw call [DrawRenderItems] records for an item. *)
Definition item_draw (item : RenderItem.t) : Command :=
  DrawIndexedInstanced (RenderItem.IndexCount item) 1
    (RenderItem.StartIndexLocation item) (RenderItem.BaseVertexLocation item)
    0.

(** The commands are one draw call per pointer of [ritems], in order, each
    with the draw arguments of the item of [app] it points to. *)
Definition draws_of (app : App) (ritems : list nat)
    (commands : list Command) : Prop :=
  Forall2 (fun ri c =>
             exists item,
               (mAllRitems app !! ri = Some item) /\ (c = item_draw item))
          ritems (draw_calls commands).

End Ring.

(** The stores of a log, in order. *)
Definition store_events (log : list Event) : list Event :=
  log ≫= fun e =>
    match e with
    | EvCopyData _ _ _ => [e]
    | _ => []
    end.

(** The element index of a pass or vertex store lies below the capacity
    given for its buffer: one pass record, [nvert] vertices. *)
Definition stream_in_bounds (nvert : Z) (e : Event) : Prop :=
  match e with
  | EvCopyData _ i (ToPassCB _) => 0 <= i < 1
  | EvCopyData _ i (ToWavesVB _) => 0 <= i < nvert
  | _ => True
  end.

Section Streams.

Context `{WS : WavesSim} `{RS : MathHelperRandom} `{SC : SceneContent}
        `{DV : Device}.

(** The grid has [nvert] vertices, and every frame resource has room for
    one pass record and [nvert] vertices. *)
Record streams_ok (nvert : Z) (app : App) : Prop := {
  streams_waves : VertexCount (mWaves app) = nvert;
  streams_capacity :
    Forall (fun fr =>
              UploadBuffer.mElementCount (FrameResource.PassCB fr) = 1 /\
              UploadBuffer.mElementCount (FrameResource.WavesVB fr) = nvert)
           (mFrameResources app) }.

End Streams.

(** The fence queries and waits of a log, in order. *)
Definition fence_events (log : list Event) : list Event :=
  log ≫= fun e =>
    match e with
    | EvGetCompletedValue _ | EvWaitForFence _ => [e]
    | _ => []
    end.

Section Stamps.

Context `{WS : WavesSim} `{RS : MathHelperRandom} `{SC : SceneContent}
        `{DV : Device}.

(** After [t] ticks of a run that started with the fence counter at
    [fence0]: the counter has advanced by [t], and the slot [j] places
    ahead of the current one carries the value it was submitted with,
    [3 - j] ticks ago, or zero if the run is younger than that. *)
Definition slots_stamped (fence0 : N) (t : nat) (app : App) : Prop :=
  mCurrentFence app = (fence0 + N.of_nat t)%N /\
  forall j, 1 <= j <= 3 ->
    slot_fence app j =
    if decide (Z.of_nat t + j <= 3) then 0%N
    else (fence0 + N.of_nat t + Z.to_N j - 3)%N.

End Stamps.

(** ** Index buffers built at start-up *)

Definition UINT16_MOD : Z := 2 ^ 16.

(** The value of an [int] expression; signed overflow has no defined
    result. *)
Definition int (v : Z) : option Z :=
  if (- 2 ^ 31 <=? v) && (v <? 2 ^ 31) then Some v else None.

(** [indices[k] = v] on a [std::vector<std::uint16_t>]: the value is
    converted to 16 bits; a position outside the vector has no defined
    result. *)
Definition set_index (k v : Z) (indices : list Z) : option (list Z) :=
  if (0 <=? k) && (k <? Z.of_nat (length indices))
  then Some (<[Z.to_nat k := v mod UINT16_MOD]> indices)
  else None.

(** [for (x : l) body], threading the loop state. *)
Fixpoint for_each {A S} (l : list A) (body : A -> S -> option S) (st : S)
    : option S :=
  match l with
  | [] => Some st
  | x :: l => st ← body x st; for_each l body st
  end.

(** The body of the inner loop of [BuildWavesGeometry], for the quad at row
    [i] and column [j]: two triangles, then [k += 6]. *)
Definition waves_quad (n i j : Z) (st : list Z * Z) : option (list Z * Z) :=
  let '(indices, k) := st in
  a ← int (i * n + j);
  b ← int (i * n + j + 1);
  c ← int ((i + 1) * n + j);
  d ← int ((i + 1) * n + j + 1);
  indices ← set_index k a indices;
  indices ← set_index (k + 1) b indices;
  indices ← set_index (k + 2) c indices;
  indices ← set_index (k + 3) c indices;
  indices ← set_index (k + 4) b indices;
  indices ← set_index (k + 5) d indices;
  k ← int (k + 6);
  Some (indices, k).

(** The index list [BuildWavesGeometry] builds, from
    [mWaves->TriangleCount()], [RowCount()] and [ColumnCount()]:
    [std::vector<std::uint16_t> indices(3 * triangleCount)], zero filled
    (the product is an [int]), then the loops over the quads. *)
Definition BuildWavesGeometry_indices (triangleCount m n : Z)
    : option (list Z) :=
  count ← int (3 * triangleCount);
  let indices := replicate (Z.to_nat count) 0 in
  st ← for_each (seqZ 0 (m - 1))
         (fun i => for_each (seqZ 0 (n - 1)) (waves_quad n i))
         (indices, 0);
  Some st.1.

(** The two triangles of the quad at row [i] and column [j] of a grid with
    [n] columns, and the triangles of an [m] by [n] grid, row by row. *)
Definition quad_triangles (n i j : Z) : list Z :=
  [ i * n + j; i * n + j + 1; (i + 1) * n + j;
    (i + 1) * n + j; i * n + j + 1; (i + 1) * n + j + 1 ].

Definition grid_triangles (m n : Z) : list Z :=
  seqZ 0 (m - 1) ≫= fun i => seqZ 0 (n - 1) ≫= quad_triangles n i.

(** *** BuildTreeSpritesGeometry *)

Module TreeSpriteVertex.
Record t := mk { Pos : XMFLOAT3.t; Size : XMFLOAT2.t }.
End TreeSpriteVertex.

(** [static const int treeCount = 24;] *)
Definition treeCount : Z := 24.

(** The value of a [UINT] expression. *)
Definition uint (v : Z) : Z := v mod UINT_MOD.

(** The position the loop body gives vertex [i]: the chain of [if]s has no
    final [else], so an [i] no branch accepts leaves [Pos] as the array was
    created, with no defined value ([None]).  [i] is a [UINT]; it is
    converted to [float] where it meets one.  A literal [-c] is [c]
    negated, which is exact. *)
Definition tree_position (i : Z) : option XMFLOAT3.t :=
  if i <? 3 then
    Some (XMFLOAT3.mk (F32.lit 15 0) (F32.lit 8 0)
            (F32.sub (F32.lit (-10) 0)
               (F32.mul (F32.of_Z i) (F32.lit 10 0))))
  else if (3 <=? i) && (i <? 6) then
    Some (XMFLOAT3.mk (F32.lit (-15) 0) (F32.lit 8 0)
            (F32.sub (F32.lit (-10) 0)
               (F32.mul (F32.of_Z (uint (i - 3))) (F32.lit 10 0))))
  else if (6 <=? i) && (i <? 13) then
    if 11 <=? i then
      Some (XMFLOAT3.mk (F32.lit (-45) 0) (F32.lit 8 0)
              (F32.add (F32.lit (-140) 0)
                 (F32.of_Z (uint (uint (i - 7) * 20)))))
    else
      Some (XMFLOAT3.mk (F32.lit (-45) 0) (F32.lit 8 0)
              (F32.add (F32.lit (-140) 0)
                 (F32.of_Z (uint (uint (i - 6) * 20)))))
  else if (13 <=? i) && (i <? 20) then
    Some (XMFLOAT3.mk (F32.lit 45 0) (F32.lit 8 0)
            (F32.add (F32.lit (-140) 0)
               (F32.of_Z (uint (uint (i - 13) * 20)))))
  else if (20 <=? i) && (i <=? 21) then
    Some (XMFLOAT3.mk
            (F32.sub (F32.lit 35 0) (F32.of_Z (uint (uint (i - 20) * 20))))
            (F32.lit 8 0) (F32.lit (-150) 0))
  else if (22 <=? i) && (i <=? 23) then
    Some (XMFLOAT3.mk
            (F32.add (F32.lit (-35) 0)
               (F32.of_Z (uint (uint (i - 22) * 20))))
            (F32.lit 8 0) (F32.lit (-150) 0))
  else None.

(** [for (UINT i = 0; i < treeCount; i++)]: the position, if any, and
    [Size = (20, 20)]. *)
Definition BuildTreeSprites_vertices
    : list (option XMFLOAT3.t * XMFLOAT2.t) :=
  (fun i => (tree_position i, XMFLOAT2.mk (F32.lit 20 0) (F32.lit 20 0)))
  <$> seqZ 0 treeCount.

(** [std::array<std::uint16_t, size> a = { given... }]: the elements the
    initialiser does not list are zero. *)
Definition array_init (size : Z) (given : list Z) : list Z :=
  given ++ replicate (Z.to_nat size - length given) 0.

Definition BuildTreeSprites_indices : list Z :=
  array_init treeCount
    [ 0; 1; 2; 3; 4; 5; 6; 7;
      8; 9; 11; 12; 13; 14; 15;
      16; 17; 18; 19; 20; 21; 22; 23 ].

(** *** LoadTextures and BuildDescriptorHeaps *)

Module Texture.
Record t := mk { Name : string; Filename : string }.
End Texture.

(** The textures in the order [LoadTextures] stores them. *)
Definition texture_files : list (string * string) :=
  [ ("grassTex", "../../Textures/grass.dds");
    ("grasswallTex", "../../Textures/grasswall.dds");
    ("waterTex", "../../Textures/water1.dds");
    ("bricksTex", "../../Textures/bricks.dds");
    ("bricks2Tex", "../../Textures/bricks2.dds");
    ("bricks3Tex", "../../Textures/bricks3.dds");
    ("iceTex", "../../Textures/ice.dds");
    ("tileTex", "../../Textures/tile.dds");
    ("sandTex", "../../Textures/sand.dds");
    ("checkboardTex", "../../Textures/checkboard.dds");
    ("shinyTex", "../../Textures/shiny.dds");
    ("treeArrayTex", "../../Textures/treeArray.dds") ].

(** [mTextures[tex->Name] = std::move(tex);] for each texture. *)
Definition LoadTextures : gmap string Texture.t :=
  foldl (fun textures d => <[d.1 := Texture.mk d.1 d.2]> textures)
        ∅ texture_files.

Inductive SRV_DIMENSION :=
| SRV_DIMENSION_TEXTURE2D
| SRV_DIMENSION_TEXTURE2DARRAY.

(** One [CreateShaderResourceView(resource, &srvDesc, hDescriptor)]: where
    the handle points, as an offset in bytes from the start of the heap,
    the texture whose resource is viewed, and the view dimension. *)
Module ShaderResourceView.
Record t := mk {
    Offset : Z;
    Resource : string;
    ViewDimension : SRV_DIMENSION }.
End ShaderResourceView.

Module SrvHeap.
Record t := mk {
    NumDescriptors : Z;
    Views : list ShaderResourceView.t }.
End SrvHeap.

(** The names [BuildDescriptorHeaps] looks up in [mTextures]. *)
Definition srv_textures : list string :=
  [ "grassTex"; "grasswallTex"; "waterTex"; "bricksTex"; "bricks2Tex";
    "bricks3Tex"; "iceTex"; "tileTex"; "sandTex"; "checkboardTex";
    "shinyTex"; "treeArrayTex" ].

(** One 2D view at the handle, then [hDescriptor.Offset(1, size)]. *)
Definition add_view (descriptorSize : Z)
    (st : list ShaderResourceView.t * Z) (tex : Texture.t)
    : list ShaderResourceView.t * Z :=
  (st.1 ++ [ShaderResourceView.mk st.2 (Texture.Name tex)
              SRV_DIMENSION_TEXTURE2D],
   st.2 + 1 * descriptorSize).

(** [BuildDescriptorHeaps]: a heap of 12 descriptors; a 2D view of each of
    the first eleven textures, stepping the handle after each, then a 2D
    array view of the last.  [mTextures[name]] on a name that is not there
    inserts a null pointer, and [->Resource] on it has no defined result
    ([None]). *)
Definition BuildDescriptorHeaps (descriptorSize : Z)
    (textures : gmap string Texture.t) : option SrvHeap.t :=
  grassTex ← textures !! "grassTex";
  grasswallTex ← textures !! "grasswallTex";
  waterTex ← textures !! "waterTex";
  bricksTex ← textures !! "bricksTex";
  bricks2Tex ← textures !! "bricks2Tex";
  bricks3Tex ← textures !! "bricks3Tex";
  iceTex ← textures !! "iceTex";
  tileTex ← textures !! "tileTex";
  sandTex ← textures !! "sandTex";
  checkboardTex ← textures !! "checkboardTex";
  shinyTex ← textures !! "shinyTex";
  treeArrayTex ← textures !! "treeArrayTex";
  let '(views, hDescriptor) :=
    foldl (add_view descriptorSize) ([], 0)
          [ grassTex; grasswallTex; waterTex; bricksTex; bricks2Tex;
            bricks3Tex; iceTex; tileTex; sandTex; checkboardTex; shinyTex ]
  in
  Some (SrvHeap.mk 12
          (views ++ [ShaderResourceView.mk hDescriptor
                       (Texture.Name treeArrayTex)
                       SRV_DIMENSION_TEXTURE2DARRAY])).

(** *** BuildShadersAndInputLayouts and BuildPSOs *)

(** One [d3dUtil::CompileShader(file, defines, entry, target)]. *)
Module Shader.
Record t := mk {
    Filename : string;
    Defines : list (string * string);
    Entrypoint : string;
    Target : string }.
End Shader.

Definition defines : list (string * string) := [("FOG", "1")].
Definition alphaTestDefines : list (string * string) :=
  [("FOG", "1"); ("ALPHA_TEST", "1")].

Definition BuildShaders : gmap string Shader.t :=
  let shaders := ∅ in
  let shaders :=
    <["standardVS" := Shader.mk "Shaders\Default.hlsl" [] "VS" "vs_5_1"]>
      shaders in
  let shaders :=
    <["opaquePS" := Shader.mk "Shaders\Default.hlsl" defines "PS" "ps_5_1"]>
      shaders in
  let shaders :=
    <["alphaTestedPS" :=
        Shader.mk "Shaders\Default.hlsl" alphaTestDefines "PS" "ps_5_1"]>
      shaders in
  let shaders :=
    <["treeSpriteVS" :=
        Shader.mk "Shaders\TreeSprite.hlsl" [] "VS" "vs_5_1"]> shaders in
  let shaders :=
    <["treeSpriteGS" :=
        Shader.mk "Shaders\TreeSprite.hlsl" [] "GS" "gs_5_1"]> shaders in
  <["treeSpritePS" :=
      Shader.mk "Shaders\TreeSprite.hlsl" alphaTestDefines "PS" "ps_5_1"]>
    shaders.

Inductive InputLayout := StdInputLayout | TreeSpriteInputLayout.

Inductive PRIMITIVE_TOPOLOGY_TYPE :=
| PRIMITIVE_TOPOLOGY_TYPE_TRIANGLE
| PRIMITIVE_TOPOLOGY_TYPE_POINT.

(** [CD3DX12_RASTERIZER_DESC(D3D12_DEFAULT)], or that with
    [CullMode = D3D12_CULL_MODE_NONE]. *)
Inductive RasterizerState := RasterizerDefault | RasterizerCullNone.

(** [CD3DX12_BLEND_DESC(D3D12_DEFAULT)], or that with render target 0 set
    to [transparencyBlendDesc] (source alpha over inverse source alpha). *)
Inductive BlendState := BlendDefault | BlendTransparency.

(** The fields of [D3D12_GRAPHICS_PIPELINE_STATE_DESC] in which the four
    pipeline states differ. *)
Module PsoDesc.
Record t := mk {
    Layout : InputLayout;
    VS : Shader.t;
    GS : option Shader.t;
    PS : Shader.t;
    Rasterizer : RasterizerState;
    Blend : BlendState;
    PrimitiveTopologyType : PRIMITIVE_TOPOLOGY_TYPE }.
End PsoDesc.

(** [BuildPSOs].  [mShaders[name]] on a name that is not there inserts a
    null blob, and [->GetBufferPointer()] on it has no defined result. *)
Definition BuildPSOs (shaders : gmap string Shader.t)
    : option (gmap string PsoDesc.t) :=
  let psos := ∅ in
  (* PSO for opaque objects. *)
  standardVS ← shaders !! "standardVS";
  opaquePS ← shaders !! "opaquePS";
  let opaquePsoDesc :=
    PsoDesc.mk StdInputLayout standardVS None opaquePS RasterizerDefault
               BlendDefault PRIMITIVE_TOPOLOGY_TYPE_TRIANGLE in
  let psos := <["opaque" := opaquePsoDesc]> psos in
  (* PSO for transparent objects *)
  let transparentPsoDesc :=
    PsoDesc.mk (PsoDesc.Layout opaquePsoDesc) (PsoDesc.VS opaquePsoDesc)
               (PsoDesc.GS opaquePsoDesc) (PsoDesc.PS opaquePsoDesc)
               (PsoDesc.Rasterizer opaquePsoDesc) BlendTransparency
               (PsoDesc.PrimitiveTopologyType opaquePsoDesc) in
  let psos := <["transparent" := transparentPsoDesc]> psos in
  (* PSO for alpha tested objects *)
  alphaTestedPS ← shaders !! "alphaTestedPS";
  let alphaTestedPsoDesc :=
    PsoDesc.mk (PsoDesc.Layout opaquePsoDesc) (PsoDesc.VS opaquePsoDesc)
               (PsoDesc.GS opaquePsoDesc) alphaTestedPS RasterizerCullNone
               (PsoDesc.Blend opaquePsoDesc)
               (PsoDesc.PrimitiveTopologyType opaquePsoDesc) in
  let psos := <["alphaTested" := alphaTestedPsoDesc]> psos in
  (* PSO for tree sprites *)
  treeSpriteVS ← shaders !! "treeSpriteVS";
  treeSpriteGS ← shaders !! "treeSpriteGS";
  treeSpritePS ← shaders !! "treeSpritePS";
  let treeSpritePsoDesc :=
    PsoDesc.mk TreeSpriteInputLayout treeSpriteVS (Some treeSpriteGS)
               treeSpritePS RasterizerCullNone (PsoDesc.Blend opaquePsoDesc)
               PRIMITIVE_TOPOLOGY_TYPE_POINT in
  Some (<["treeSprites" := treeSpritePsoDesc]> psos).

(** The topology type a pipeline state must have for a primitive topology
    set by [IASetPrimitiveTopology]. *)
Definition topology_type (t : D3D_PRIMITIVE_TOPOLOGY)
    : PRIMITIVE_TOPOLOGY_TYPE :=
  match t with
  | TRIANGLELIST => PRIMITIVE_TOPOLOGY_TYPE_TRIANGLE
  | POINTLIST => PRIMITIVE_TOPOLOGY_TYPE_POINT
  end.

(** For every draw call of a command list, in order: the pipeline state and
    the primitive topology in effect when it is recorded.  [Reset] starts
    the list with the given pipeline state and no topology. *)
Fixpoint draw_contexts (pso : string)
    (topology : option D3D_PRIMITIVE_TOPOLOGY) (commands : list Command)
    : list (string * option D3D_PRIMITIVE_TOPOLOGY) :=
  match commands with
  | [] => []
  | Reset p :: rest => draw_contexts p None rest
  | SetPipelineState p :: rest => draw_contexts p topology rest
  | IASetPrimitiveTopology t :: rest => draw_contexts pso (Some t) rest
  | DrawIndexedInstanced _ _ _ _ _ :: rest =>
      (pso, topology) :: draw_contexts pso topology rest
  | _ :: rest => draw_contexts pso topology rest
  end.

(** The pipeline state and topology in effect after a command list. *)
Fixpoint final_context (pso : string)
    (topology : option D3D_PRIMITIVE_TOPOLOGY) (commands : list Command)
    : string * option D3D_PRIMITIVE_TOPOLOGY :=
  match commands with
  | [] => (pso, topology)
  | Reset p :: rest => final_context p None rest
  | SetPipelineState p :: rest => final_context p topology rest
  | IASetPrimitiveTopology t :: rest => final_context pso (Some t) rest
  | _ :: rest => final_context pso topology rest
  end.

(** A draw call is recorded under a pipeline state that was created, with
    a topology of that state's type. *)
Definition context_ok (psos : gmap string PsoDesc.t)
    (c : string * option D3D_PRIMITIVE_TOPOLOGY) : Prop :=
  exists desc t,
    psos !! c.1 = Some desc /\ c.2 = Some t /\
    topology_type t = PsoDesc.PrimitiveTopologyType desc.

Global Instance D3D_PRIMITIVE_TOPOLOGY_eq_dec :
  EqDecision D3D_PRIMITIVE_TOPOLOGY.
Proof. solve_decision. Defined.

(** The primitive topology of the items of a layer: points for the tree
    sprites, triangles for everything else. *)
Definition layer_topology (layer : RenderLayer) : D3D_PRIMITIVE_TOPOLOGY :=
  match layer with
  | AlphaTestedTreeSprites => POINTLIST
  | _ => TRIANGLELIST
  end.

Section Layers.

Context `{WS : WavesSim} `{RS : MathHelperRandom} `{SC : SceneContent}
        `{DV : Device}.

(** Every pointer of every layer leads to an item of the layer's
    topology. *)
Definition layers_typed (app : App) : Prop :=
  forall layer,
    Forall (fun ri => RenderItem.PrimitiveType <$> mAllRitems app !! ri
                      = Some (layer_topology layer))
           (mRitemLayer app layer).

End Layers.

(** The pipeline state [Draw] selects before it draws each layer. *)
Definition layer_psos : list (RenderLayer * string) :=
  [ (Opaque, "opaque"); (AlphaTested, "alphaTested");
    (AlphaTestedTreeSprites, "treeSprites"); (Transparent, "transparent") ].

(** *** BuildRootSignature *)

Inductive RootParameter :=
| RootDescriptorTable (numDescriptors baseShaderRegister : Z)
| RootConstantBufferView (shaderRegister : Z).

(** [slotRootParameter[0..3]]: the texture table, then the constant
    buffers of registers 0, 1 and 2. *)
Definition BuildRootSignature : list RootParameter :=
  [ RootDescriptorTable 1 0;
    RootConstantBufferView 0;
    RootConstantBufferView 1;
    RootConstantBufferView 2 ].

(** A command list uses the root signature correctly: every root argument
    it sets is of the kind of the parameter it names, and at every draw
    call all parameters have been set since the signature was.  [bound]
    lists the parameters set so far. *)
Fixpoint root_arguments_ok (signature : list RootParameter)
    (bound : list Z) (commands : list Command) : bool :=
  match commands with
  | [] => true
  | Reset _ :: rest => root_arguments_ok signature [] rest
  | SetGraphicsRootSignature :: rest => root_arguments_ok signature [] rest
  | SetGraphicsRootDescriptorTable i _ :: rest =>
      match at_index i signature with
      | Some (RootDescriptorTable _ _) =>
          root_arguments_ok signature (i :: bound) rest
      | _ => false
      end
  | SetGraphicsRootConstantBufferView i _ :: rest =>
      match at_index i signature with
      | Some (RootConstantBufferView _) =>
          root_arguments_ok signature (i :: bound) rest
      | _ => false
      end
  | DrawIndexedInstanced _ _ _ _ _ :: rest =>
      forallb (fun i => bool_decide (i ∈ bound))
              (seqZ 0 (Z.of_nat (length signature)))
      && root_arguments_ok signature bound rest
  | _ :: rest => root_arguments_ok signature bound rest
  end.

(** *** The geometry builders *)

(** What each geometry builder registers, in the order [Initialize] calls
    them: [geo->Name], the key of its one [DrawArgs] entry, and the key of
    [mGeometries] it is stored under. *)
Definition geometry_builders : list (string * string * string) :=
  [ ("landGeo", "grid", "landGeo");
    ("waterGeo", "grid", "waterGeo");
    ("boxGeo", "box", "boxGeo");
    ("wedgeGeo", "wedge", "wedgeGeo");
    ("sphereGeo", "sphere", "sphereGeo");
    ("cylinderGeo", "cylinder", "cylinderGeo");
    ("coneGeo", "cone", "coneGeo");
    ("pyramidGeo", "pyramid", "pyramidGeo");
    ("diamondGeo", "diamond", "diamondGeo");
    ("prismGeo", "prism", "prismGeo");
    ("grasswallGeo", "grasswall", "grasswallGeo");
    ("treeSpritesGeo", "points", "treeSpritesGeo") ].

(** The (geometry key, submesh key) pairs with a [DrawArgs] entry. *)
Definition registered_submeshes : list (string * string) :=
  (fun b => (b.2, b.1.2)) <$> geometry_builders.

(** ** A small scene *)

Module Demo.

(** A wave grid at rest: [rows] by [cols] vertices on the integer lattice,
    flat, with upward normals; disturbing and advancing leave it at rest. *)
Record StillWater := mkStillWater { rows : Z; cols : Z }.

Definition still_water : WavesSim := {|
  Waves := StillWater;
  Waves_new := fun m n _ _ _ _ => mkStillWater m n;
  RowCount := rows;
  ColumnCount := cols;
  VertexCount := fun w => rows w * cols w;
  Width := fun w => F32.of_Z (cols w);
  Depth := fun w => F32.of_Z (rows w);
  Position := fun w i =>
    XMFLOAT3.mk (F32.of_Z (i mod cols w)) f0 (F32.of_Z (i / cols w));
  Normal := fun _ _ => XMFLOAT3.mk f0 f1 f0;
  Disturb := fun _ _ _ w => w;
  Waves_Update := fun _ w => w |}.

(** [Rand(a, b) = a + rand() % ((b - a) + 1)]; [RandF(a, b)] at its lower
    end. *)
Definition low_random : MathHelperRandom := {|
  Rand := fun a b raw => a + raw mod (b - a + 1);
  RandF := fun a _ _ => a |}.

(** Every item at the origin, every submesh a box of 36 indices. *)
Definition plain_scene : SceneContent := {|
  placement := fun _ => Identity4x4;
  DrawArgs := fun _ _ => SubmeshGeometry.mk 36 0 0 |}.

(** As [plain_scene] under the registered keys, nothing under any other. *)
Definition sparse_scene : SceneContent := {|
  placement := fun _ => Identity4x4;
  DrawArgs := fun geo sub =>
    if bool_decide ((geo, sub) ∈ registered_submeshes)
    then SubmeshGeometry.mk 36 0 0
    else SubmeshGeometry.mk 0 0 0 |}.

Definition plain_device : Device := {|
  objCBByteSize := 256;
  matCBByteSize := 256;
  mCbvSrvDescriptorSize := 32;
  SrvHeapStart := 4096;
  UploadAddress := fun slot name =>
    1048576 * (slot + 1) + 65536 * Z.of_nat (String.length name) |}.

(** The timer reads [t] tenths of a second, the frame took a tenth, the
    camera sits at the origin, the device has retired one more signal. *)
Definition frame (t : Z) : FrameInput.t :=
  FrameInput.mk
    (GameTimer.mk (F32.div (F32.of_Z t) (F32.of_Z 10)) (F32.lit 1 1))
    Identity4x4 Identity4x4 (XMFLOAT3.mk f0 f0 f0) 1 7 11 13.

Definition frames (ts : list Z) : list FrameInput.t := frame <$> ts.

Definition ticks_1_3 : list FrameInput.t := frames [1; 2; 3].
Definition ticks_1_4 : list FrameInput.t := frames [1; 2; 3; 4].
Definition ticks_4_5 : list FrameInput.t := frames [4; 5].

(** A scene of two items, the water and one box, with their two materials,
    on a 9 by 9 wave grid, as [Initialize] would leave it. *)
Definition small_app : @App still_water :=
  let waves := @Waves_new still_water 9 9 f1 (F32.lit 3 2) (F32.lit 4 0)
                 (F32.lit 2 1) in
  let materials :=
    (foldl add_material (0, 0, ∅)
       [ ("water", "water", half_white, fresnel (F32.lit 1 1), f0);
         ("bricks", "bricks", opaque_white, fresnel (F32.lit 2 2),
          F32.lit 25 2) ]).2 in
  let items :=
    @add_box plain_scene
      (@add_ritem plain_scene Transparent (fun _ => Identity4x4)
         (XMMatrixScaling (F32.lit 5 0) (F32.lit 5 0) f1)
         "water" "waterGeo" "grid" TRIANGLELIST
         (mkRitemBuild 0 [] (fun _ => []))) in
  mkApp (@BuildFrameResources still_water plain_device (allRitems items)
           materials waves)
        0 BuildGeometries materials 0%nat (allRitems items)
        (ritemLayer items) waves f0 2%N (Gpu.mk 2%N []).

(** The two render items and the two materials of [small_app]. *)
Definition water_item : RenderItem.t :=
  RenderItem.mk Identity4x4 (XMMatrixScaling (F32.lit 5 0) (F32.lit 5 0) f1)
                3 0 "water" "waterGeo" TRIANGLELIST 36 0 0.

Definition box_item : RenderItem.t :=
  RenderItem.mk Identity4x4 Identity4x4 3 1 "bricks" "boxGeo" TRIANGLELIST
                36 0 0.

Definition water_material : Material.t :=
  Material.mk "water" 0 0 3 half_white (fresnel (F32.lit 1 1)) f0
              Identity4x4.

Definition bricks_material : Material.t :=
  Material.mk "bricks" 1 1 3 opaque_white (fresnel (F32.lit 2 2))
              (F32.lit 25 2) Identity4x4.

End Demo.

(** ** Properties *)

Section Loops.

Lemma copy_all_app {T} (c1 c2 : list (Z * T)) (b : UploadBuffer.t T) :
  copy_all (c1 ++ c2) b = copy_all c2 (copy_all c1 b).
Proof. unfold copy_all. apply foldl_app. Qed.

Lemma UpdateObjectCBs_body_eq cb visited calls e :
  UpdateObjectCBs_body (cb, visited, calls) e =
  (copy_all (ObjectCB_call e) cb, visited ++ [ritem_after e],
   calls ++ ObjectCB_call e).
Proof.
  unfold UpdateObjectCBs_body, ObjectCB_call, ritem_after.
  destruct (0 <? RenderItem.NumFramesDirty e); simpl;
    by rewrite ?app_nil_r.
Qed.

(** The loop of [UpdateObjectCBs], item by item. *)
Lemma UpdateObjectCBs_acc cb visited calls items :
  foldl UpdateObjectCBs_body (cb, visited, calls) items =
  (copy_all (items ≫= ObjectCB_call) cb,
   visited ++ (ritem_after <$> items),
   calls ++ (items ≫= ObjectCB_call)).
Proof.
  revert cb visited calls.
  induction items as [|e items IH]; intros cb visited calls.
  - simpl. by rewrite !app_nil_r.
  - cbn [foldl]. rewrite UpdateObjectCBs_body_eq, IH.
    rewrite fmap_cons, bind_cons, copy_all_app.
    by rewrite <- !app_assoc.
Qed.

Lemma UpdateObjectCBs_eq cb items :
  UpdateObjectCBs cb items =
  (copy_all (items ≫= ObjectCB_call) cb,
   ritem_after <$> items,
   items ≫= ObjectCB_call).
Proof. unfold UpdateObjectCBs. by rewrite UpdateObjectCBs_acc. Qed.

Lemma UpdateMaterialCBs_body_eq cb mats calls e :
  UpdateMaterialCBs_body (cb, mats, calls) e =
  (copy_all (MaterialCB_call e.2) cb, materials_step mats e,
   calls ++ MaterialCB_call e.2).
Proof.
  unfold UpdateMaterialCBs_body, MaterialCB_call, materials_step,
    material_after.
  destruct (0 <? Material.NumFramesDirty e.2); simpl;
    by rewrite ?app_nil_r.
Qed.

Lemma UpdateMaterialCBs_acc cb mats calls l :
  foldl UpdateMaterialCBs_body (cb, mats, calls) l =
  (copy_all (l ≫= fun e => MaterialCB_call e.2) cb,
   foldl materials_step mats l,
   calls ++ (l ≫= fun e => MaterialCB_call e.2)).
Proof.
  revert cb mats calls.
  induction l as [|e l IH]; intros cb mats calls.
  - simpl. by rewrite !app_nil_r.
  - cbn [foldl]. rewrite UpdateMaterialCBs_body_eq, IH.
    rewrite bind_cons, copy_all_app.
    by rewrite <- !app_assoc.
Qed.

Lemma materials_step_lookup l : forall (mats : gmap string Material.t) k,
  NoDup l.*1 ->
  (forall m, (k, m) ∈ l ->
     foldl materials_step mats l !! k =
     if 0 <? Material.NumFramesDirty m then Some (material_after m)
     else mats !! k) /\
  (k ∉ l.*1 -> foldl materials_step mats l !! k = mats !! k).
Proof.
  induction l as [|[k' m'] l IH]; intros mats k Hnd.
  - split; [intros m Hin; by apply elem_of_nil in Hin | done].
  - rewrite fmap_cons in Hnd. apply NoDup_cons in Hnd as [Hk' Hnd].
    cbn [foldl]. destruct (IH (materials_step mats (k', m')) k Hnd)
      as [IHin IHout].
    assert (Hstep : forall j, j <> k' ->
               materials_step mats (k', m') !! j = mats !! j).
    { intros j Hj. unfold materials_step. simpl.
      destruct (0 <? Material.NumFramesDirty m'); [|done].
      by rewrite lookup_insert_ne. }
    split.
    + intros m Hin. apply elem_of_cons in Hin as [Heq | Hin].
      * inversion Heq; subst k' m'. rewrite IHout by done.
        unfold materials_step. simpl.
        destruct (0 <? Material.NumFramesDirty m); [|done].
        by rewrite lookup_insert_eq.
      * assert (k <> k').
        { intros ->. apply Hk'. apply list_elem_of_fmap.
          by exists (k', m). }
        rewrite (IHin m Hin), Hstep by done. done.
    + intros Hout. rewrite fmap_cons in Hout.
      apply not_elem_of_cons in Hout as [Hne Hout].
      rewrite IHout, Hstep by done. done.
Qed.

(** The loop of [UpdateMaterialCBs]: every material is visited once, in the
    iteration order of the map, and updated under its own key. *)
Lemma UpdateMaterialCBs_eq cb (mats : gmap string Material.t) :
  UpdateMaterialCBs cb mats =
  (copy_all (map_to_list mats ≫= fun e => MaterialCB_call e.2) cb,
   material_after <$> mats,
   map_to_list mats ≫= fun e => MaterialCB_call e.2).
Proof.
  unfold UpdateMaterialCBs. rewrite UpdateMaterialCBs_acc. simpl.
  f_equal. f_equal. apply map_eq. intros k. rewrite lookup_fmap.
  destruct (materials_step_lookup (map_to_list mats) mats k
              (NoDup_fst_map_to_list mats)) as [Hin Hout].
  destruct (mats !! k) as [m|] eqn:Hk.
  - rewrite (Hin m) by by apply elem_of_map_to_list.
    simpl. unfold material_after.
    by destruct (0 <? Material.NumFramesDirty m).
  - rewrite Hout; [done|].
    intros Hel. apply list_elem_of_fmap in Hel as [[k' m] [-> Hel]].
    apply elem_of_map_to_list in Hel. simpl in Hk. congruence.
Qed.

Lemma bind_all_nil {A B} (f : A -> list B) (l : list A) :
  (forall y, y ∈ l -> f y = []) -> l ≫= f = [].
Proof.
  induction l as [|x l IH]; intros Hf; [done|].
  rewrite bind_cons, Hf, IH; [done| |apply elem_of_cons; by left].
  intros y Hy. apply Hf, elem_of_cons. by right.
Qed.

(** When only the element at position [k] contributes, the bind is that
    contribution. *)
Lemma bind_at {A B} (f : A -> list B) (l : list A) k x :
  l !! k = Some x ->
  (forall k' y, l !! k' = Some y -> k' <> k -> f y = []) ->
  l ≫= f = f x.
Proof.
  intros Hk Hother.
  rewrite <- (take_drop_middle l k x Hk), bind_app, bind_cons.
  rewrite !bind_all_nil, app_nil_r; [done| |].
  - intros y Hy. apply list_elem_of_lookup in Hy as [j Hj].
    apply (Hother (S k + j)%nat); [|lia]. by rewrite <- lookup_drop.
  - intros y Hy. apply list_elem_of_lookup in Hy as [j Hj].
    pose proof (lookup_lt_Some _ _ _ Hj) as Hlt.
    rewrite length_take in Hlt.
    apply (Hother j); [|lia]. rewrite lookup_take_lt in Hj by lia. done.
Qed.

Lemma object_stores_app s i l1 l2 :
  object_stores s i (l1 ++ l2) = object_stores s i l1 ++ object_stores s i l2.
Proof. unfold object_stores. apply bind_app. Qed.

Lemma material_stores_app s i l1 l2 :
  material_stores s i (l1 ++ l2) =
  material_stores s i l1 ++ material_stores s i l2.
Proof. unfold material_stores. apply bind_app. Qed.

Lemma object_stores_tag s i slot calls :
  object_stores s i (tag slot ToObjectCB calls) =
  if decide (s = slot) then calls_at i calls else [].
Proof.
  unfold object_stores, tag, calls_at.
  induction calls as [|c calls IH]; [by destruct (decide _)|].
  rewrite fmap_cons, !bind_cons, IH. simpl.
  destruct (decide (s = slot)) as [->|Hs].
  - destruct (decide (c.1 = i)).
    + by rewrite decide_True.
    + rewrite decide_False; [done | by intros []].
  - rewrite decide_False; [done | intros [? ?]; congruence].
Qed.

Lemma material_stores_tag s i slot calls :
  material_stores s i (tag slot ToMaterialCB calls) =
  if decide (s = slot) then calls_at i calls else [].
Proof.
  unfold material_stores, tag, calls_at.
  induction calls as [|c calls IH]; [by destruct (decide _)|].
  rewrite fmap_cons, !bind_cons, IH. simpl.
  destruct (decide (s = slot)) as [->|Hs].
  - destruct (decide (c.1 = i)).
    + by rewrite decide_True.
    + rewrite decide_False; [done | by intros []].
  - rewrite decide_False; [done | intros [? ?]; congruence].
Qed.

Lemma object_stores_none s i log :
  Forall (fun e => match e with
                   | EvCopyData _ _ (ToObjectCB _) => False
                   | _ => True
                   end) log ->
  object_stores s i log = [].
Proof.
  intros Hf. unfold object_stores. apply bind_all_nil. intros e He.
  rewrite Forall_forall in Hf. specialize (Hf e He).
  by destruct e as [| |? ? []|].
Qed.

Lemma material_stores_none s i log :
  Forall (fun e => match e with
                   | EvCopyData _ _ (ToMaterialCB _) => False
                   | _ => True
                   end) log ->
  material_stores s i log = [].
Proof.
  intros Hf. unfold material_stores. apply bind_all_nil. intros e He.
  rewrite Forall_forall in Hf. specialize (Hf e He).
  by destruct e as [| |? ? []|].
Qed.

Lemma calls_at_bind {A T} (i : Z) (f : A -> list (Z * T)) (l : list A) :
  calls_at i (l ≫= f) = l ≫= fun x => calls_at i (f x).
Proof.
  unfold calls_at. induction l as [|x l IH]; [done|].
  by rewrite !bind_cons, bind_app, IH.
Qed.

(** What the object loop stores at the index of the item at position [k],
    when no other item shares that index. *)
Lemma calls_at_ritem items k e :
  items !! k = Some e -> unique_ObjCBIndex items k ->
  calls_at (RenderItem.ObjCBIndex e) (items ≫= ObjectCB_call) =
  if 0 <? RenderItem.NumFramesDirty e then [object_constants e] else [].
Proof.
  intros Hk Hu. rewrite calls_at_bind.
  rewrite (bind_at _ items k e Hk).
  - unfold ObjectCB_call, calls_at.
    destruct (0 <? RenderItem.NumFramesDirty e); [|done].
    rewrite bind_cons. simpl. by rewrite decide_True.
  - intros k' e' Hk' Hne. unfold ObjectCB_call, calls_at.
    destruct (0 <? RenderItem.NumFramesDirty e'); [|done].
    rewrite bind_cons. simpl. rewrite decide_False; [done|].
    intros Heq. by apply Hne, (Hu e Hk k' e' Hk').
Qed.

(** The same for the material under [key]. *)
Lemma calls_at_material (mats : gmap string Material.t) key m :
  mats !! key = Some m -> unique_MatCBIndex mats key ->
  calls_at (Material.MatCBIndex m)
           (map_to_list mats ≫= fun e => MaterialCB_call e.2) =
  if 0 <? Material.NumFramesDirty m then [material_constants m] else [].
Proof.
  intros Hk Hu. rewrite calls_at_bind.
  assert (Hin : (key, m) ∈ map_to_list mats) by by apply elem_of_map_to_list.
  apply list_elem_of_lookup in Hin as [j Hj].
  rewrite (bind_at _ (map_to_list mats) j (key, m) Hj).
  - simpl. unfold MaterialCB_call, calls_at.
    destruct (0 <? Material.NumFramesDirty m); [|done].
    rewrite bind_cons. simpl. by rewrite decide_True.
  - intros j' [key' m'] Hj' Hne. simpl. unfold MaterialCB_call, calls_at.
    destruct (0 <? Material.NumFramesDirty m'); [|done].
    rewrite bind_cons. simpl. rewrite decide_False; [done|].
    intros Heq. apply Hne.
    assert (Hk' : mats !! key' = Some m').
    { apply elem_of_map_to_list. by eapply list_elem_of_lookup_2. }
    pose proof (Hu m Hk key' m' Hk' Heq) as ->.
    assert (m' = m) as -> by congruence.
    by eapply (NoDup_lookup (map_to_list mats)); [apply NoDup_map_to_list|..].
Qed.

Lemma CopyData_count {T} i (v : T) b :
  UploadBuffer.mElementCount (UploadBuffer.CopyData i v b)
  = UploadBuffer.mElementCount b.
Proof. unfold UploadBuffer.CopyData. by destruct (_ && _). Qed.

Lemma copy_all_count {T} (calls : list (Z * T)) : forall b,
  UploadBuffer.mElementCount (copy_all calls b) = UploadBuffer.mElementCount b.
Proof.
  induction calls as [|c calls IH]; intros b; [done|].
  change (copy_all (c :: calls) b)
    with (copy_all calls (UploadBuffer.CopyData c.1 c.2 b)).
  by rewrite IH, CopyData_count.
Qed.

Lemma CopyData_mapped {T} i (v : T) b :
  mapped b -> mapped (UploadBuffer.CopyData i v b).
Proof.
  unfold mapped, UploadBuffer.CopyData.
  destruct (_ && _); [|done]. simpl. by rewrite length_insert.
Qed.

Lemma read_CopyData {T} i j (v : T) b :
  mapped b -> UploadBuffer.in_bounds i b ->
  UploadBuffer.read i (UploadBuffer.CopyData j v b) =
  if decide (j = i) then Some v else UploadBuffer.read i b.
Proof.
  unfold mapped, UploadBuffer.in_bounds, UploadBuffer.read,
    UploadBuffer.CopyData.
  intros Hm [Hi0 Hi1].
  destruct (Z.leb_spec 0 i); [|lia].
  destruct (decide (j = i)) as [->|Hne].
  - destruct (Z.leb_spec 0 i); [|lia].
    destruct (Z.ltb_spec i (UploadBuffer.mElementCount b)); [|lia].
    simpl. rewrite list_lookup_insert_eq by lia. done.
  - destruct (_ && _) eqn:Hb; [|done]. simpl.
    apply andb_true_iff in Hb as [Hj0 Hj1].
    apply Z.leb_le in Hj0.
    rewrite list_lookup_insert_ne by lia. done.
Qed.

(** After a run of stores, element [i] holds the last record stored there,
    or what it held before when nothing was stored there. *)
Lemma read_copy_all {T} i (calls : list (Z * T)) : forall b,
  mapped b -> UploadBuffer.in_bounds i b ->
  UploadBuffer.read i (copy_all calls b) =
  match last (calls_at i calls) with
  | Some v => Some v
  | None => UploadBuffer.read i b
  end.
Proof.
  induction calls as [|[j v] calls IH] using rev_ind; intros b Hm Hi;
    [done|].
  rewrite copy_all_app. unfold calls_at. rewrite bind_app, bind_cons.
  simpl. rewrite app_nil_r.
  change (copy_all [(j, v)] (copy_all calls b))
    with (UploadBuffer.CopyData j v (copy_all calls b)).
  assert (Hm' : mapped (copy_all calls b)).
  { clear -Hm. revert b Hm. induction calls as [|c calls IH]; intros b Hm;
      [done|]. apply (IH (UploadBuffer.CopyData c.1 c.2 b)).
    by apply CopyData_mapped. }
  rewrite read_CopyData; [|done|].
  - destruct (decide (j = i)).
    + by rewrite last_snoc.
    + rewrite app_nil_r. by apply IH.
  - unfold UploadBuffer.in_bounds in *. by rewrite copy_all_count.
Qed.

(** Distinct object-constant indices, from a check on the list. *)
Lemma unique_ObjCBIndex_check (items : list RenderItem.t) k :
  NoDup (RenderItem.ObjCBIndex <$> items) -> unique_ObjCBIndex items k.
Proof.
  intros Hnd e Hk k' e' Hk' Heq.
  eapply (NoDup_lookup (RenderItem.ObjCBIndex <$> items)); [done| |].
  - by rewrite list_lookup_fmap, Hk'.
  - by rewrite list_lookup_fmap, Hk, Heq.
Qed.

End Loops.

Section Frames.

Context `{WS : WavesSim} `{RS : MathHelperRandom} `{SC : SceneContent}
        `{DV : Device}.

Lemma Update_eq inp app :
  Update inp app =
  let index := Z.rem (mCurrFrameResourceIndex app + 1) gNumFrameResources in
  fr ← at_index index (mFrameResources app);
  '(gpu, gate) ← FenceGate (FrameResource.Fence fr)
                    (FrameInput.gpu_progress inp) (mGpu app);
  mats ← AnimateMaterials (FrameInput.gt inp) (mMaterials app);
  '(tbase, waves, wavesVB, geometries, waveLog) ←
    UpdateWaves inp index (t_base app) (mWaves app)
                (FrameResource.WavesVB fr) (mWavesRitem app)
                (ritem_after <$> mAllRitems app) (mGeometries app);
  Some (Update_state inp app index fr gpu mats tbase waves wavesVB
                     geometries,
        Update_log inp app index gate mats waveLog).
Proof.
  unfold Update. cbv zeta.
  destruct (at_index _ (mFrameResources app)) as [fr|]; [|done]. simpl.
  destruct (FenceGate _ _ _) as [[gpu gate]|]; [|done]. simpl.
  destruct (AnimateMaterials _ _) as [mats|]; [|done]. simpl.
  rewrite UpdateObjectCBs_eq, UpdateMaterialCBs_eq. simpl.
  reflexivity.
Qed.

Lemma Update_inv inp app app' log :
  Update inp app = Some (app', log) ->
  let index := Z.rem (mCurrFrameResourceIndex app + 1) gNumFrameResources in
  exists fr gpu gate mats tbase waves wavesVB geometries waveLog,
    at_index index (mFrameResources app) = Some fr /\
    FenceGate (FrameResource.Fence fr) (FrameInput.gpu_progress inp)
      (mGpu app) = Some (gpu, gate) /\
    AnimateMaterials (FrameInput.gt inp) (mMaterials app) = Some mats /\
    UpdateWaves inp index (t_base app) (mWaves app)
      (FrameResource.WavesVB fr) (mWavesRitem app)
      (ritem_after <$> mAllRitems app) (mGeometries app)
    = Some (tbase, waves, wavesVB, geometries, waveLog) /\
    app' = Update_state inp app index fr gpu mats tbase waves wavesVB
             geometries /\
    log = Update_log inp app index gate mats waveLog.
Proof.
  rewrite Update_eq. cbv zeta. intros Hupd.
  apply bind_Some in Hupd as (fr & Hfr & Hupd).
  apply bind_Some in Hupd as ([gpu gate] & Hgate & Hupd).
  apply bind_Some in Hupd as (mats & Hmats & Hupd).
  apply bind_Some in Hupd
    as ([[[[tbase waves] wavesVB] geos] waveLog] & Hw & Hupd).
  injection Hupd as <- <-.
  by exists fr, gpu, gate, mats, tbase, waves, wavesVB, geos, waveLog.
Qed.

Lemma drain_until_reached v c pending g :
  Gpu.drain_until v c pending = Some g -> (v <= Gpu.Completed g)%N.
Proof.
  revert c. induction pending as [|p rest IH]; intros c; simpl.
  - destruct (N.leb_spec v c); [|done]. intros [= <-]. done.
  - destruct (N.leb_spec v c); [|by apply IH]. intros [= <-]. done.
Qed.

Lemma FenceGate_spec fence progress g g' gate :
  FenceGate fence progress g = Some (g', gate) ->
  (fence <= Gpu.Completed g')%N /\
  gate_outcome fence (Gpu.Completed (Gpu.advance progress g)) gate.
Proof.
  unfold FenceGate, gate_outcome.
  destruct (N.eqb_spec fence 0) as [->|Hne].
  - intros [= <- <-]. split; [lia | by left].
  - destruct (N.ltb_spec (Gpu.Completed (Gpu.advance progress g)) fence)
      as [Hlt|Hge].
    + destruct (Gpu.WaitForFence _ _) as [g2|] eqn:Hwait; [|done].
      simpl. intros [= <- <-]. split.
      * by apply drain_until_reached in Hwait.
      * right; right. done.
    + intros [= <- <-]. split; [done|]. right; left. done.
Qed.

Lemma tag_stores {T} slot (wrap : T -> Payload) calls :
  Forall (fun e => is_store e /\ store_slot e = Some slot)
         (tag slot wrap calls).
Proof.
  unfold tag. apply Forall_fmap, Forall_forall. intros c _. by split.
Qed.

Lemma random_disturb_log inp tbase waves tbase' waves' log :
  random_disturb inp tbase waves = (tbase', waves', log) ->
  Forall (fun e => ~ is_store e) log.
Proof.
  unfold random_disturb. destruct (F32.geb _ _); intros [= <- <- <-].
  - repeat constructor. by intros [].
  - constructor.
Qed.

Lemma UpdateWaves_log inp index tbase waves vb p items geos r log :
  UpdateWaves inp index tbase waves vb p items geos = Some (r, log) ->
  Forall (fun e => is_store e -> store_slot e = Some index) log.
Proof.
  unfold UpdateWaves.
  destruct (random_disturb inp tbase waves) as [[tb w] d] eqn:Hd.
  destruct (stream_waves _ w vb) as [[w2 vb2] calls].
  destruct (rebind_waves _ _ _ _); simpl; [|done].
  intros [= <- <-]. apply random_disturb_log in Hd.
  apply Forall_app; split.
  - eapply Forall_impl; [apply Hd|]. by intros e Hn Hs.
  - eapply Forall_impl; [apply tag_stores|]. by intros e [_ ?].
Qed.

(** C1.  In every tick, from any state: the log of [Update] splits into the
    fence test of the selected slot and the stores; nothing is stored during
    the test; the test saw the slot's stored fence to be zero, or not above
    the device's completed value, or else waited for that fence; every store
    goes to the selected slot; and when the stores are made the device has
    completed the slot's stored fence. *)
Theorem fence_gate_precedes_writes inp app app' log :
  Update inp app = Some (app', log) ->
  let slot := Z.rem (mCurrFrameResourceIndex app + 1) gNumFrameResources in
  exists fr gate stores,
    at_index slot (mFrameResources app) = Some fr /\
    log = gate ++ stores /\
    Forall (fun e => ~ is_store e) gate /\
    gate_outcome (FrameResource.Fence fr)
      (Gpu.Completed (Gpu.advance (FrameInput.gpu_progress inp) (mGpu app)))
      gate /\
    Forall (fun e => is_store e -> store_slot e = Some slot) stores /\
    (FrameResource.Fence fr <= Gpu.Completed (mGpu app'))%N.
Proof.
  intros Hupd slot.
  apply Update_inv in Hupd
    as (fr & gpu & gate & mats & tbase & waves & wavesVB & geos & waveLog
        & Hfr & Hgate & _ & Hw & -> & ->).
  apply FenceGate_spec in Hgate as [Hdone Hout].
  apply UpdateWaves_log in Hw.
  exists fr, gate,
    (tag slot ToObjectCB (mAllRitems app ≫= ObjectCB_call)
     ++ tag slot ToMaterialCB
          (map_to_list mats ≫= fun e => MaterialCB_call e.2)
     ++ tag slot ToPassCB [(0, MainPassCB inp)] ++ waveLog).
  split; [done|]. split; [done|]. split.
  { destruct Hout as [[_ ->]|[(_ & _ & ->)|(_ & _ & ->)]];
      repeat constructor; by intros []. }
  split; [done|]. split; [|done].
  repeat (apply Forall_app; split); try done;
    (eapply Forall_impl; [apply tag_stores|]); by intros e [_ ?].
Qed.

(** *** Well-formed states *)

Lemma gpu_ok_step current fences c v rest :
  gpu_ok current fences (Gpu.mk c (v :: rest)) ->
  gpu_ok current fences (Gpu.mk v rest).
Proof.
  intros [Hs Hb Hf]. unfold timeline in *. simpl in *.
  apply StronglySorted_inv in Hs as [Hs Hlt].
  apply Forall_cons in Hlt as [Hcv _].
  apply Forall_cons in Hb as [_ Hb].
  split; simpl; [done | done |].
  eapply Forall_impl; [apply Hf|]. intros f [Hle | Hin].
  - left. lia.
  - apply elem_of_cons in Hin as [-> | Hin]; [left; lia | by right].
Qed.

Lemma gpu_ok_advance current fences n : forall g,
  gpu_ok current fences g -> gpu_ok current fences (Gpu.advance n g).
Proof.
  induction n as [|n IH]; intros [c pending] Hok; [done|].
  destruct pending as [|v rest]; [done|].
  simpl. apply IH. by eapply gpu_ok_step.
Qed.

Lemma drain_until_advance v pending : forall c g,
  Gpu.drain_until v c pending = Some g ->
  exists n, g = Gpu.advance n (Gpu.mk c pending).
Proof.
  induction pending as [|p rest IH]; intros c g; simpl.
  - destruct (v <=? c)%N; [|done]. intros [= <-]. by exists 0%nat.
  - destruct (v <=? c)%N.
    + intros [= <-]. by exists 0%nat.
    + intros Hd. apply IH in Hd as [n ->]. by exists (S n).
Qed.

Lemma drain_until_total v pending : forall c,
  (v <= c)%N \/ v ∈ pending -> is_Some (Gpu.drain_until v c pending).
Proof.
  induction pending as [|p rest IH]; intros c Hv; simpl.
  - destruct (N.leb_spec v c); [done|].
    destruct Hv as [?|Hin]; [lia | by apply elem_of_nil in Hin].
  - destruct (N.leb_spec v c); [done|]. apply IH.
    destruct Hv as [?|Hin]; [lia|].
    apply elem_of_cons in Hin as [-> | Hin]; [left; lia | by right].
Qed.

(** On a consistent timeline the fence test of [Update] always returns, and
    leaves the timeline consistent. *)
Lemma FenceGate_total current fences fence progress g :
  gpu_ok current fences g -> fence ∈ fences ->
  exists g' gate,
    FenceGate fence progress g = Some (g', gate) /\
    gpu_ok current fences g'.
Proof.
  intros Hok Hin. unfold FenceGate.
  pose proof (gpu_ok_advance _ _ progress _ Hok) as Hok1.
  destruct (fence =? 0)%N; [by eauto|].
  destruct (_ <? fence)%N; [|by eauto].
  destruct (Gpu.WaitForFence fence (Gpu.advance progress g)) as [g2|] eqn:Hw.
  - simpl. do 2 eexists. split; [done|].
    apply drain_until_advance in Hw as [n ->].
    destruct (Gpu.advance progress g); by apply gpu_ok_advance.
  - exfalso. assert (is_Some (Gpu.WaitForFence fence
                                (Gpu.advance progress g))) as [? Hs].
    { apply drain_until_total.
      destruct Hok1 as [_ _ Hf]. rewrite Forall_forall in Hf. by apply Hf. }
    congruence.
Qed.

Lemma Draw_inv app app' commands :
  Draw app = Some (app', commands) ->
  exists fr opaque alphaTested treeSprites transparent,
    at_index (mCurrFrameResourceIndex app) (mFrameResources app) = Some fr /\
    DrawRenderItems app fr (mRitemLayer app Opaque) = Some opaque /\
    DrawRenderItems app fr (mRitemLayer app AlphaTested)
    = Some alphaTested /\
    DrawRenderItems app fr (mRitemLayer app AlphaTestedTreeSprites)
    = Some treeSprites /\
    DrawRenderItems app fr (mRitemLayer app Transparent)
    = Some transparent /\
    app' = Draw_state app fr /\
    commands = Draw_commands fr opaque alphaTested treeSprites transparent.
Proof.
  unfold Draw. cbv zeta. intros Hd.
  apply bind_Some in Hd as (fr & Hfr & Hd).
  apply bind_Some in Hd as (opaque & Ho & Hd).
  apply bind_Some in Hd as (alphaTested & Ha & Hd).
  apply bind_Some in Hd as (treeSprites & Ht & Hd).
  apply bind_Some in Hd as (transparent & Hp & Hd).
  injection Hd as <- <-.
  by exists fr, opaque, alphaTested, treeSprites, transparent.
Qed.

Lemma at_index_is_Some {A} (i : Z) (v : list A) :
  0 <= i < Z.of_nat (length v) -> is_Some (at_index i v).
Proof.
  intros Hi. unfold at_index. destruct (Z.leb_spec 0 i); [|lia].
  apply lookup_lt_is_Some. lia.
Qed.

Lemma at_index_lookup {A} (i : Z) (v : list A) x :
  at_index i v = Some x -> 0 <= i /\ v !! Z.to_nat i = Some x.
Proof.
  unfold at_index. destruct (Z.leb_spec 0 i); [done|done].
Qed.

Lemma DrawRenderItem_total app fr p :
  ritem_ok app p -> is_Some (DrawRenderItem app fr p).
Proof.
  intros (item & Hitem & [geo Hgeo] & [mat Hmat]).
  unfold DrawRenderItem. rewrite Hitem. simpl. rewrite Hgeo. simpl.
  rewrite Hmat. simpl. done.
Qed.

Lemma DrawRenderItems_total app fr ritems :
  Forall (ritem_ok app) ritems -> is_Some (DrawRenderItems app fr ritems).
Proof.
  intros Hok. unfold DrawRenderItems.
  apply fmap_is_Some, mapM_is_Some.
  eapply Forall_impl; [apply Hok|]. intros p. apply DrawRenderItem_total.
Qed.

Lemma Draw_eq app fr :
  at_index (mCurrFrameResourceIndex app) (mFrameResources app) = Some fr ->
  (forall layer, Forall (ritem_ok app) (mRitemLayer app layer)) ->
  exists opaque alphaTested treeSprites transparent,
    Draw app = Some (Draw_state app fr,
                     Draw_commands fr opaque alphaTested treeSprites
                                   transparent).
Proof.
  intros Hfr Hl. unfold Draw. cbv zeta. rewrite Hfr. simpl.
  destruct (DrawRenderItems_total app fr _ (Hl Opaque)) as [o ->].
  destruct (DrawRenderItems_total app fr _ (Hl AlphaTested)) as [a ->].
  destruct (DrawRenderItems_total app fr _ (Hl AlphaTestedTreeSprites))
    as [t ->].
  destruct (DrawRenderItems_total app fr _ (Hl Transparent)) as [r ->].
  simpl. by exists o, a, t, r.
Qed.

Lemma AnimateMaterials_inv gt (mats mats' : gmap string Material.t) :
  AnimateMaterials gt mats = Some mats' ->
  exists water,
    mats !! "water" = Some water /\
    mats' = <["water" := scroll_water gt water]> mats.
Proof.
  unfold AnimateMaterials. intros Ha.
  apply bind_Some in Ha as (water & Hw & Ha).
  injection Ha as <-. by exists water.
Qed.

Lemma scroll_water_fields gt water :
  Material.NumFramesDirty (scroll_water gt water) = gNumFrameResources /\
  Material.MatCBIndex (scroll_water gt water) = Material.MatCBIndex water /\
  Material.DiffuseSrvHeapIndex (scroll_water gt water)
  = Material.DiffuseSrvHeapIndex water /\
  Material.DiffuseAlbedo (scroll_water gt water)
  = Material.DiffuseAlbedo water /\
  Material.FresnelR0 (scroll_water gt water) = Material.FresnelR0 water /\
  Material.Roughness (scroll_water gt water) = Material.Roughness water.
Proof. done. Qed.

Lemma rebind_waves_inv slot p items (geos geos' : gmap string MeshGeometry.t) :
  rebind_waves slot p items geos = Some geos' ->
  exists ri geo,
    items !! p = Some ri /\
    geos !! RenderItem.Geo ri = Some geo /\
    geos' = <[RenderItem.Geo ri :=
                MeshGeometry.mk (WavesVBResource slot)
                                (MeshGeometry.IndexBufferGPU geo)]> geos.
Proof.
  unfold rebind_waves. intros Hr.
  apply bind_Some in Hr as (ri & Hri & Hr).
  apply bind_Some in Hr as (geo & Hgeo & Hr).
  injection Hr as <-. by exists ri, geo.
Qed.

Lemma UpdateWaves_inv inp index tbase waves vb p items geos
    tbase' waves' vb' geos' log :
  UpdateWaves inp index tbase waves vb p items geos
  = Some (tbase', waves', vb', geos', log) ->
  exists w1 disturb calls,
    random_disturb inp tbase waves = (tbase', w1, disturb) /\
    stream_waves (GameTimer.DeltaTime (FrameInput.gt inp)) w1 vb
    = (waves', vb', calls) /\
    rebind_waves index p items geos = Some geos' /\
    log = disturb ++ tag index ToWavesVB calls.
Proof.
  unfold UpdateWaves.
  destruct (random_disturb inp tbase waves) as [[tb w1] d].
  destruct (stream_waves _ w1 vb) as [[w2 vb2] calls] eqn:Hs.
  intros Hu. apply bind_Some in Hu as (g & Hg & Hu).
  simplify_eq. by exists w1, d, calls.
Qed.

Lemma ritem_after_fields e :
  RenderItem.Geo (ritem_after e) = RenderItem.Geo e /\
  RenderItem.Mat (ritem_after e) = RenderItem.Mat e /\
  RenderItem.ObjCBIndex (ritem_after e) = RenderItem.ObjCBIndex e /\
  object_constants (ritem_after e) = object_constants e.
Proof.
  unfold ritem_after. by destruct (0 <? RenderItem.NumFramesDirty e).
Qed.

Lemma material_after_fields m :
  Material.MatCBIndex (material_after m) = Material.MatCBIndex m /\
  Material.DiffuseSrvHeapIndex (material_after m)
  = Material.DiffuseSrvHeapIndex m /\
  material_constants (material_after m) = material_constants m.
Proof.
  unfold material_after. by destruct (0 <? Material.NumFramesDirty m).
Qed.

(** A pointer that is live stays live when the items are updated in place
    and no geometry or material key disappears. *)
Lemma ritem_ok_preserved app app' p :
  mAllRitems app' = ritem_after <$> mAllRitems app ->
  (forall k, is_Some (mGeometries app !! k) ->
             is_Some (mGeometries app' !! k)) ->
  (forall k, is_Some (mMaterials app !! k) ->
             is_Some (mMaterials app' !! k)) ->
  ritem_ok app p -> ritem_ok app' p.
Proof.
  intros Hitems Hg Hm (item & Hitem & Hgeo & Hmat).
  exists (ritem_after item).
  destruct (ritem_after_fields item) as (-> & -> & _).
  rewrite Hitems, list_lookup_fmap, Hitem. auto.
Qed.

Lemma rem_index_bounds i :
  0 <= i -> 0 <= Z.rem (i + 1) gNumFrameResources < gNumFrameResources.
Proof.
  intros Hi. unfold gNumFrameResources.
  rewrite Z.rem_mod_nonneg by lia. apply Z.mod_pos_bound. lia.
Qed.

Lemma Update_state_ritem_ok inp app index fr gpu mats tbase waves wavesVB
    geos p :
  (forall k, is_Some (mGeometries app !! k) -> is_Some (geos !! k)) ->
  (forall k, is_Some (mMaterials app !! k) -> is_Some (mats !! k)) ->
  ritem_ok app p ->
  ritem_ok (Update_state inp app index fr gpu mats tbase waves wavesVB geos)
           p.
Proof.
  intros Hg Hm. apply ritem_ok_preserved; simpl; [done|done|].
  intros k Hk. rewrite lookup_fmap. by apply fmap_is_Some, Hm.
Qed.

Lemma Update_wf inp app app' log :
  wf app -> Update inp app = Some (app', log) ->
  wf app' /\ mCurrentFence app' = mCurrentFence app.
Proof.
  intros Hwf Hupd.
  apply Update_inv in Hupd
    as (fr & gpu & gate & mats & tbase & waves & wavesVB & geos & waveLog
        & Hfr & Hgate & Hmats & Hw & -> & ->).
  split; [|done].
  apply AnimateMaterials_inv in Hmats as (water & Hwater & ->).
  apply UpdateWaves_inv in Hw as (w1 & d & calls & _ & _ & Hreb & _).
  apply rebind_waves_inv in Hreb as (ri & geo & Hri & Hgeo & ->).
  apply at_index_lookup in Hfr as [Hidx Hfr].
  destruct Hwf as [Hlen Hi Hwat Hwaves Hlayers Hgpu].
  split; simpl.
  - by rewrite length_insert.
  - apply rem_index_bounds. lia.
  - rewrite lookup_fmap, lookup_insert_eq. done.
  - apply Update_state_ritem_ok; [| |done]; intros k Hk;
      apply lookup_insert_is_Some'; by right.
  - intros layer. eapply Forall_impl; [apply Hlayers|]. intros p.
    apply Update_state_ritem_ok; intros k Hk;
      apply lookup_insert_is_Some'; by right.
  - rewrite list_fmap_insert. simpl.
    rewrite list_insert_id by (by rewrite list_lookup_fmap, Hfr).
    destruct (FenceGate_total _ _ (FrameResource.Fence fr)
                (FrameInput.gpu_progress inp) _ Hgpu) as (g' & gate' & Hg & ?).
    { apply list_elem_of_fmap. exists fr. split; [done|].
      by eapply list_elem_of_lookup_2. }
    congruence.
Qed.

Lemma Update_total inp app :
  wf app -> is_Some (Update inp app).
Proof.
  intros [Hlen Hi Hwat Hwaves Hlayers Hgpu].
  rewrite Update_eq. cbv zeta.
  destruct (at_index_is_Some
              (Z.rem (mCurrFrameResourceIndex app + 1) gNumFrameResources)
              (mFrameResources app)) as [fr Hfr].
  { rewrite Hlen. pose proof (rem_index_bounds _ (proj1 Hi)).
    unfold gNumFrameResources in *. lia. }
  rewrite Hfr. simpl.
  destruct (FenceGate_total _ _ (FrameResource.Fence fr)
              (FrameInput.gpu_progress inp) _ Hgpu) as (g' & gate & -> & _).
  { apply at_index_lookup in Hfr as [_ Hfr].
    apply list_elem_of_fmap. exists fr. split; [done|].
    by eapply list_elem_of_lookup_2. }
  simpl. destruct Hwat as [water Hwater].
  unfold AnimateMaterials. rewrite Hwater. simpl.
  unfold UpdateWaves.
  destruct (random_disturb _ _ _) as [[tb w1] d].
  destruct (stream_waves _ _ _) as [[w2 vb2] calls].
  destruct Hwaves as (item & Hitem & [geo Hgeo] & _).
  unfold rebind_waves. rewrite list_lookup_fmap, Hitem. simpl.
  destruct (ritem_after_fields item) as (-> & _).
  rewrite Hgeo. simpl. done.
Qed.

Lemma gpu_ok_signal current fences g i :
  gpu_ok current fences g ->
  gpu_ok (current + 1) (<[i := (current + 1)%N]> fences)
         (Gpu.Signal (current + 1) g).
Proof.
  intros [Hs Hb Hf]. unfold timeline in *.
  split; unfold timeline; simpl.
  - change (StronglySorted N.lt
              ((Gpu.Completed g :: Gpu.Pending g) ++ [(current + 1)%N])).
    apply StronglySorted_app_2; [|done|repeat constructor].
    intros x1 x2 Hx1 Hx2. apply list_elem_of_singleton in Hx2 as ->.
    rewrite Forall_forall in Hb. specialize (Hb _ Hx1). simpl in Hb. lia.
  - change (Forall (fun v => (v <= current + 1)%N)
              ((Gpu.Completed g :: Gpu.Pending g) ++ [(current + 1)%N])).
    apply Forall_app; split.
    + eapply Forall_impl; [apply Hb|]. simpl. intros; lia.
    + repeat constructor. lia.
  - apply Forall_insert.
    + eapply Forall_impl; [apply Hf|]. intros f [?|Hin]; [by left|right].
      apply elem_of_app. by left.
    + right. apply elem_of_app. right. by apply list_elem_of_singleton.
Qed.

Lemma next_fence_small app :
  (mCurrentFence app + 1 < 2 ^ 64)%N ->
  next_fence app = (mCurrentFence app + 1)%N.
Proof. intros Hb. unfold next_fence. by apply N.mod_small. Qed.

Lemma Draw_wf app app' commands :
  wf app -> (mCurrentFence app + 1 < 2 ^ 64)%N ->
  Draw app = Some (app', commands) ->
  wf app' /\ mCurrentFence app' = (mCurrentFence app + 1)%N.
Proof.
  intros [Hlen Hi Hwat Hwaves Hlayers Hgpu] Hb Hd.
  apply Draw_inv in Hd as (fr & o & a & t & r & Hfr & _ & _ & _ & _ & -> & _).
  unfold Draw_state. rewrite next_fence_small by done.
  split; [|done]. split; simpl; try done.
  - by rewrite length_insert.
  - rewrite list_fmap_insert. simpl. by apply gpu_ok_signal.
Qed.

Lemma Draw_total app :
  wf app -> is_Some (Draw app).
Proof.
  intros [Hlen Hi Hwat Hwaves Hlayers Hgpu].
  destruct (at_index_is_Some (mCurrFrameResourceIndex app)
              (mFrameResources app)) as [fr Hfr].
  { rewrite Hlen. unfold gNumFrameResources in Hi. lia. }
  destruct (Draw_eq app fr Hfr Hlayers) as (o & a & t & r & ->). done.
Qed.

(** A well-formed state can always run one more tick, as long as the 64-bit
    fence counter does not wrap, and the state it reaches is well-formed. *)
Lemma Tick_total inp app :
  wf app -> (mCurrentFence app + 1 < 2 ^ 64)%N ->
  exists app' events commands,
    Tick inp app = Some (app', events, commands) /\
    wf app' /\
    mCurrentFence app' = (mCurrentFence app + 1)%N.
Proof.
  intros Hwf Hb. unfold Tick.
  destruct (Update_total inp app Hwf) as [[app1 events] Hupd].
  rewrite Hupd. simpl.
  destruct (Update_wf _ _ _ _ Hwf Hupd) as [Hwf1 Hf1].
  destruct (Draw_total app1 Hwf1) as [[app2 commands] Hd].
  rewrite Hd. simpl.
  destruct (Draw_wf _ _ _ Hwf1 ltac:(by rewrite Hf1) Hd) as [Hwf2 Hf2].
  exists app2, events, commands. rewrite Hf2, Hf1. done.
Qed.

Lemma Run_total inputs : forall app,
  wf app -> (mCurrentFence app + N.of_nat (length inputs) < 2 ^ 64)%N ->
  exists app' outputs,
    Run inputs app = Some (app', outputs) /\
    wf app' /\
    mCurrentFence app' = (mCurrentFence app + N.of_nat (length inputs))%N.
Proof.
  induction inputs as [|inp rest IH]; intros app Hwf Hb; simpl in *.
  - exists app, []. split; [done|]. split; [done|]. lia.
  - destruct (Tick_total inp app Hwf ltac:(lia))
      as (app1 & events & commands & -> & Hwf1 & Hf1).
    simpl. destruct (IH app1 Hwf1 ltac:(lia))
      as (app2 & outputs & -> & Hwf2 & Hf2).
    simpl. do 2 eexists. split; [done|]. split; [done|]. lia.
Qed.

Lemma ritem_okb_spec app p : ritem_okb app p = true -> ritem_ok app p.
Proof.
  unfold ritem_okb, ritem_ok.
  destruct (mAllRitems app !! p) as [item|]; [|done].
  intros Hb. apply andb_true_iff in Hb as [Hg Hm].
  apply bool_decide_eq_true in Hg, Hm. by exists item.
Qed.

Lemma ritems_okb_spec app ps :
  forallb (ritem_okb app) ps = true -> Forall (ritem_ok app) ps.
Proof.
  intros Hb. apply Forall_forall. intros p Hp.
  apply ritem_okb_spec. rewrite forallb_forall in Hb.
  apply Hb. by apply list_elem_of_In.
Qed.

(** [Initialize] leaves a well-formed state. *)
Lemma Initialize_wf fence0 : wf (Initialize fence0).
Proof.
  split.
  - reflexivity.
  - unfold gNumFrameResources. simpl. lia.
  - eexists. vm_compute. reflexivity.
  - apply ritem_okb_spec. vm_compute. reflexivity.
  - intros layer. apply ritems_okb_spec.
    destruct layer; vm_compute; reflexivity.
  - split; unfold timeline; simpl.
    + repeat constructor.
    + repeat constructor. lia.
    + repeat (apply Forall_cons; split; [left; lia|]). constructor.
Qed.

Lemma Tick_inv inp app app' events commands :
  Tick inp app = Some (app', events, commands) ->
  exists app1,
    Update inp app = Some (app1, events) /\
    Draw app1 = Some (app', commands).
Proof.
  unfold Tick. intros Ht.
  apply bind_Some in Ht as ([app1 ev] & Hupd & Ht).
  apply bind_Some in Ht as ([app2 cmds] & Hd & Ht).
  simplify_eq. by exists app1.
Qed.

Lemma Update_index inp app app' log :
  Update inp app = Some (app', log) ->
  mCurrFrameResourceIndex app' =
  Z.rem (mCurrFrameResourceIndex app + 1) gNumFrameResources.
Proof.
  intros Hupd. apply Update_inv in Hupd
    as (fr & gpu & gate & mats & tbase & waves & wavesVB & geos & waveLog
        & _ & _ & _ & _ & -> & _).
  done.
Qed.

Lemma Draw_index app app' commands :
  Draw app = Some (app', commands) ->
  mCurrFrameResourceIndex app' = mCurrFrameResourceIndex app.
Proof.
  intros Hd.
  apply Draw_inv in Hd as (fr & o & a & t & r & _ & _ & _ & _ & _ & -> & _).
  done.
Qed.

Lemma Tick_index inp app app' events commands :
  0 <= mCurrFrameResourceIndex app ->
  Tick inp app = Some (app', events, commands) ->
  mCurrFrameResourceIndex app' =
  (mCurrFrameResourceIndex app + 1) mod gNumFrameResources.
Proof.
  intros Hi Ht. apply Tick_inv in Ht as (app1 & Hupd & Hd).
  rewrite (Draw_index _ _ _ Hd), (Update_index _ _ _ _ Hupd).
  apply Z.rem_mod_nonneg; unfold gNumFrameResources; lia.
Qed.

Lemma Run_cons_inv inp rest app app' outputs :
  Run (inp :: rest) app = Some (app', outputs) ->
  exists app1 events commands outputs',
    Tick inp app = Some (app1, events, commands) /\
    Run rest app1 = Some (app', outputs') /\
    outputs = (mCurrFrameResourceIndex app1, events, commands) :: outputs'.
Proof.
  simpl. intros Hr.
  apply bind_Some in Hr as ([[app1 ev] cmds] & Ht & Hr).
  apply bind_Some in Hr as ([app2 outs] & Hrest & Hr).
  simplify_eq. by exists app1, ev, cmds, outs.
Qed.

(** The slots of a run advance by one modulo the ring size from wherever
    the index stands. *)
Lemma Run_slots inputs : forall app app' outputs,
  0 <= mCurrFrameResourceIndex app ->
  Run inputs app = Some (app', outputs) ->
  selected_slots outputs =
  (fun k : nat => (mCurrFrameResourceIndex app + 1 + Z.of_nat k)
                  mod gNumFrameResources)
  <$> seq 0 (length inputs).
Proof.
  induction inputs as [|inp rest IH]; intros app app' outputs Hi Hr.
  - simpl in Hr. by simplify_eq.
  - apply Run_cons_inv in Hr
      as (app1 & events & commands & outputs' & Ht & Hrest & ->).
    pose proof (Tick_index _ _ _ _ _ Hi Ht) as Hidx.
    unfold selected_slots in *. rewrite fmap_cons. cbn [length seq].
    rewrite fmap_cons. f_equal.
    + simpl. rewrite Hidx. f_equal. lia.
    + rewrite (IH app1 app' outputs') by
        (try done; rewrite Hidx; apply Z.mod_pos_bound;
         unfold gNumFrameResources; lia).
      rewrite <- fmap_S_seq, <- list_fmap_compose.
      apply list_fmap_ext. intros _ k _. simpl. rewrite Hidx.
      unfold gNumFrameResources.
      rewrite <- Z.add_assoc, Z.add_mod_idemp_l by lia. f_equal. lia.
Qed.

(** C2, as amended.  Every tick selects slot [(current + 1) mod 3]; the
    index starts at 0 and is advanced before it is used, so a run selects
    the slots 1, 2, 0, 1, 2, 0, ...: tick [k] (counting from zero) selects
    [(k + 1) mod 3].  The run itself exists for as many ticks as the 64-bit
    fence counter allows. *)
Theorem slot_selection_cyclic :
  (forall inp app app' events commands,
     0 <= mCurrFrameResourceIndex app ->
     Tick inp app = Some (app', events, commands) ->
     mCurrFrameResourceIndex app' =
     (mCurrFrameResourceIndex app + 1) mod gNumFrameResources) /\
  (forall fence0 inputs,
     (fence0 + N.of_nat (length inputs) < 2 ^ 64)%N ->
     exists app' outputs,
       Run inputs (Initialize fence0) = Some (app', outputs) /\
       selected_slots outputs =
       (fun k : nat => (Z.of_nat k + 1) mod gNumFrameResources)
       <$> seq 0 (length inputs)).
Proof.
  split; [apply Tick_index|].
  intros fence0 inputs Hb.
  destruct (Run_total inputs (Initialize fence0) (Initialize_wf fence0) Hb)
    as (app' & outputs & Hr & _).
  exists app', outputs. split; [done|].
  rewrite (Run_slots inputs (Initialize fence0) app' outputs);
    [|simpl; lia|done].
  apply list_fmap_ext. intros _ k _. simpl. f_equal. lia.
Qed.

Lemma FenceGate_no_store fence progress g g' gate :
  FenceGate fence progress g = Some (g', gate) ->
  Forall (fun e => ~ is_store e) gate.
Proof.
  intros Hg. apply FenceGate_spec in Hg as [_ Hout].
  destruct Hout as [[_ ->]|[(_ & _ & ->)|(_ & _ & ->)]];
    repeat constructor; by intros [].
Qed.

Lemma FenceGate_events fence progress g g' gate :
  FenceGate fence progress g = Some (g', gate) ->
  Forall (fun e => match e with
                   | EvGetCompletedValue _ | EvWaitForFence _ => True
                   | _ => False
                   end) gate.
Proof.
  intros Hg. apply FenceGate_spec in Hg as [_ Hout].
  destruct Hout as [[_ ->]|[(_ & _ & ->)|(_ & _ & ->)]];
    by repeat constructor.
Qed.

Lemma UpdateWaves_only_vertices inp index tbase waves vb p items geos r log :
  UpdateWaves inp index tbase waves vb p items geos = Some (r, log) ->
  Forall (fun e => match e with
                   | EvCopyData _ _ (ToWavesVB _) | EvDisturb _ _ _ => True
                   | _ => False
                   end) log.
Proof.
  destruct r as [[[tbase' waves'] vb'] geos']. intros Hw.
  apply UpdateWaves_inv in Hw as (w1 & d & calls & Hd & _ & _ & ->).
  apply Forall_app; split.
  - unfold random_disturb in Hd. destruct (F32.geb _ _); simplify_eq;
      by repeat constructor.
  - unfold tag. apply Forall_fmap, Forall_forall. by intros c _.
Qed.

(** The object and material stores in the log of one [Update]. *)
Lemma Update_stores inp app app' log :
  Update inp app = Some (app', log) ->
  exists mats,
    AnimateMaterials (FrameInput.gt inp) (mMaterials app) = Some mats /\
    mAllRitems app' = ritem_after <$> mAllRitems app /\
    mMaterials app' = material_after <$> mats /\
    (forall s i,
       object_stores s i log =
       if decide (s = mCurrFrameResourceIndex app')
       then calls_at i (mAllRitems app ≫= ObjectCB_call) else []) /\
    (forall s i,
       material_stores s i log =
       if decide (s = mCurrFrameResourceIndex app')
       then calls_at i (map_to_list mats ≫= fun e => MaterialCB_call e.2)
       else []).
Proof.
  intros Hupd. apply Update_inv in Hupd
    as (fr & gpu & gate & mats & tbase & waves & wavesVB & geos & waveLog
        & _ & Hgate & Hmats & Hw & -> & ->).
  apply FenceGate_no_store in Hgate. apply UpdateWaves_only_vertices in Hw.
  exists mats. split; [done|]. split; [done|]. split; [done|].
  unfold Update_log. split; intros s i.
  - rewrite !object_stores_app, object_stores_tag.
    rewrite (object_stores_none s i gate).
    2:{ eapply Forall_impl; [apply Hgate|]. by intros [| |? ? []|]. }
    rewrite (object_stores_none s i (tag _ ToMaterialCB _)).
    2:{ unfold tag. apply Forall_fmap, Forall_forall. by intros c _. }
    rewrite (object_stores_none s i (tag _ ToPassCB _)).
    2:{ unfold tag. apply Forall_fmap, Forall_forall. by intros c _. }
    rewrite (object_stores_none s i waveLog).
    2:{ eapply Forall_impl; [apply Hw|]. by intros [| |? ? []|]. }
    by rewrite app_nil_r.
  - rewrite !material_stores_app, material_stores_tag.
    rewrite (material_stores_none s i gate).
    2:{ eapply Forall_impl; [apply Hgate|]. by intros [| |? ? []|]. }
    rewrite (material_stores_none s i (tag _ ToObjectCB _)).
    2:{ unfold tag. apply Forall_fmap, Forall_forall. by intros c _. }
    rewrite (material_stores_none s i (tag _ ToPassCB _)).
    2:{ unfold tag. apply Forall_fmap, Forall_forall. by intros c _. }
    rewrite (material_stores_none s i waveLog).
    2:{ eapply Forall_impl; [apply Hw|]. by intros [| |? ? []|]. }
    by rewrite app_nil_r.
Qed.

Lemma Draw_entities app app' commands :
  Draw app = Some (app', commands) ->
  mAllRitems app' = mAllRitems app /\ mMaterials app' = mMaterials app /\
  mGeometries app' = mGeometries app /\
  mRitemLayer app' = mRitemLayer app.
Proof.
  intros Hd.
  apply Draw_inv in Hd as (fr & o & a & t & r & _ & _ & _ & _ & _ & -> & _).
  done.
Qed.

(** One tick, seen from the entities. *)
Lemma Tick_stores inp app app' events commands :
  Tick inp app = Some (app', events, commands) ->
  exists mats,
    AnimateMaterials (FrameInput.gt inp) (mMaterials app) = Some mats /\
    mAllRitems app' = ritem_after <$> mAllRitems app /\
    mMaterials app' = material_after <$> mats /\
    (forall s i,
       object_stores s i events =
       if decide (s = mCurrFrameResourceIndex app')
       then calls_at i (mAllRitems app ≫= ObjectCB_call) else []) /\
    (forall s i,
       material_stores s i events =
       if decide (s = mCurrFrameResourceIndex app')
       then calls_at i (map_to_list mats ≫= fun e => MaterialCB_call e.2)
       else []).
Proof.
  intros Ht. apply Tick_inv in Ht as (app1 & Hupd & Hd).
  destruct (Update_stores _ _ _ _ Hupd) as (mats & ? & ? & ? & Ho & Hm).
  destruct (Draw_entities _ _ _ Hd) as (-> & -> & _).
  rewrite (Draw_index _ _ _ Hd). by exists mats.
Qed.

Lemma unique_ObjCBIndex_after items k :
  unique_ObjCBIndex items k -> unique_ObjCBIndex (ritem_after <$> items) k.
Proof.
  intros Hu e Hk k' e' Hk' Heq.
  rewrite list_lookup_fmap in Hk, Hk'.
  apply fmap_Some in Hk as (e0 & Hk & ->).
  apply fmap_Some in Hk' as (e0' & Hk' & ->).
  destruct (ritem_after_fields e0) as (_ & _ & He0 & _).
  destruct (ritem_after_fields e0') as (_ & _ & He0' & _).
  rewrite He0, He0' in Heq. by eapply Hu.
Qed.

(** One tick, seen from the render item at position [k]. *)
Lemma Tick_ritem inp app app' events commands k e :
  Tick inp app = Some (app', events, commands) ->
  mAllRitems app !! k = Some e ->
  unique_ObjCBIndex (mAllRitems app) k ->
  mAllRitems app' !! k = Some (ritem_after e) /\
  unique_ObjCBIndex (mAllRitems app') k /\
  forall s,
    object_stores s (RenderItem.ObjCBIndex e) events =
    if decide (s = mCurrFrameResourceIndex app')
    then if 0 <? RenderItem.NumFramesDirty e then [object_constants e] else []
    else [].
Proof.
  intros Ht Hk Hu.
  destruct (Tick_stores _ _ _ _ _ Ht) as (mats & _ & -> & _ & Ho & _).
  split; [by rewrite list_lookup_fmap, Hk|].
  split; [by apply unique_ObjCBIndex_after|].
  intros s. by rewrite Ho, (calls_at_ritem _ k e).
Qed.

Lemma unique_MatCBIndex_after (mats : gmap string Material.t) key :
  unique_MatCBIndex mats key ->
  unique_MatCBIndex (material_after <$> mats) key.
Proof.
  intros Hu m Hk key' m' Hk' Heq.
  rewrite lookup_fmap in Hk, Hk'.
  apply fmap_Some in Hk as (m0 & Hk & ->).
  apply fmap_Some in Hk' as (m0' & Hk' & ->).
  destruct (material_after_fields m0) as (Hm0 & _).
  destruct (material_after_fields m0') as (Hm0' & _).
  rewrite Hm0, Hm0' in Heq. by eapply Hu.
Qed.

Lemma unique_MatCBIndex_scroll gt (mats : gmap string Material.t) water key :
  mats !! "water" = Some water ->
  unique_MatCBIndex mats key ->
  unique_MatCBIndex (<["water" := scroll_water gt water]> mats) key.
Proof.
  intros Hw Hu m Hk key' m' Hk' Heq.
  assert (Hget : forall j x,
            <["water" := scroll_water gt water]> mats !! j = Some x ->
            exists x0, mats !! j = Some x0 /\
                       Material.MatCBIndex x = Material.MatCBIndex x0).
  { intros j x Hj. destruct (decide (j = "water")) as [->|Hne].
    - rewrite lookup_insert_eq in Hj. injection Hj as <-. by exists water.
    - rewrite lookup_insert_ne in Hj by done. by exists x. }
  apply Hget in Hk as (m0 & Hk & Hm0).
  apply Hget in Hk' as (m0' & Hk' & Hm0').
  rewrite Hm0, Hm0' in Heq. by eapply Hu.
Qed.

(** One tick, seen from a material other than the water. *)
Lemma Tick_material inp app app' events commands key m :
  Tick inp app = Some (app', events, commands) ->
  key <> "water" ->
  mMaterials app !! key = Some m ->
  unique_MatCBIndex (mMaterials app) key ->
  mMaterials app' !! key = Some (material_after m) /\
  unique_MatCBIndex (mMaterials app') key /\
  forall s,
    material_stores s (Material.MatCBIndex m) events =
    if decide (s = mCurrFrameResourceIndex app')
    then if 0 <? Material.NumFramesDirty m then [material_constants m] else []
    else [].
Proof.
  intros Ht Hne Hk Hu.
  destruct (Tick_stores _ _ _ _ _ Ht) as (mats & Ha & _ & -> & _ & Hm).
  apply AnimateMaterials_inv in Ha as (water & Hw & ->).
  assert (Hk1 : <["water" := scroll_water (FrameInput.gt inp) water]>
                  (mMaterials app) !! key = Some m)
    by by rewrite lookup_insert_ne.
  pose proof (unique_MatCBIndex_scroll (FrameInput.gt inp) _ _ _ Hw Hu) as Hu1.
  split; [by rewrite lookup_fmap, Hk1|].
  split; [by apply unique_MatCBIndex_after|].
  intros s. by rewrite Hm, (calls_at_material _ key m).
Qed.

(** One tick, seen from the water material. *)
Lemma Tick_water inp app app' events commands water :
  Tick inp app = Some (app', events, commands) ->
  mMaterials app !! "water" = Some water ->
  unique_MatCBIndex (mMaterials app) "water" ->
  let scrolled := scroll_water (FrameInput.gt inp) water in
  mMaterials app' !! "water"
  = Some (Material.set_NumFramesDirty (gNumFrameResources - 1) scrolled) /\
  unique_MatCBIndex (mMaterials app') "water" /\
  forall s,
    material_stores s (Material.MatCBIndex water) events =
    if decide (s = mCurrFrameResourceIndex app')
    then [material_constants scrolled]
    else [].
Proof.
  intros Ht Hk Hu scrolled.
  destruct (Tick_stores _ _ _ _ _ Ht) as (mats & Ha & _ & -> & _ & Hm).
  apply AnimateMaterials_inv in Ha as (water0 & Hw & ->).
  assert (water0 = water) as -> by congruence.
  pose proof (unique_MatCBIndex_scroll (FrameInput.gt inp) _ _ _ Hw Hu) as Hu1.
  split; [by rewrite lookup_fmap, lookup_insert_eq|].
  split; [by apply unique_MatCBIndex_after|].
  intros s. rewrite Hm.
  change (Material.MatCBIndex water) with (Material.MatCBIndex scrolled).
  rewrite (calls_at_material _ "water" scrolled);
    [done | by rewrite lookup_insert_eq | done].
Qed.



Lemma run_events_cons slot events commands outputs :
  run_events ((slot, events, commands) :: outputs)
  = events ++ run_events outputs.
Proof. done. Qed.

(** Three consecutive slots of the ring are the three slots. *)
Lemma three_slots {A} (x : A) i a b c s :
  0 <= i < gNumFrameResources ->
  a = (i + 1) mod gNumFrameResources ->
  b = (a + 1) mod gNumFrameResources ->
  c = (b + 1) mod gNumFrameResources ->
  0 <= s < gNumFrameResources ->
  (if decide (s = a) then [x] else [])
  ++ (if decide (s = b) then [x] else [])
  ++ (if decide (s = c) then [x] else []) = [x].
Proof.
  unfold gNumFrameResources. intros Hi -> -> -> Hs.
  assert (i = 0 \/ i = 1 \/ i = 2) as [-> | [-> | ->]] by lia;
    assert (s = 0 \/ s = 1 \/ s = 2) as [-> | [-> | ->]] by lia;
    reflexivity.
Qed.

Lemma ritem_after_dirty e :
  0 < RenderItem.NumFramesDirty e ->
  ritem_after e
  = RenderItem.set_NumFramesDirty (RenderItem.NumFramesDirty e - 1) e.
Proof.
  intros Hpos. unfold ritem_after.
  by destruct (Z.ltb_spec 0 (RenderItem.NumFramesDirty e)); [|lia].
Qed.

Lemma ritem_after_clean e :
  RenderItem.NumFramesDirty e <= 0 -> ritem_after e = e.
Proof.
  intros Hz. unfold ritem_after.
  by destruct (Z.ltb_spec 0 (RenderItem.NumFramesDirty e)); [lia|].
Qed.

Lemma material_after_dirty m :
  0 < Material.NumFramesDirty m ->
  material_after m
  = Material.set_NumFramesDirty (Material.NumFramesDirty m - 1) m.
Proof.
  intros Hpos. unfold material_after.
  by destruct (Z.ltb_spec 0 (Material.NumFramesDirty m)); [|lia].
Qed.

Lemma material_after_clean m :
  Material.NumFramesDirty m <= 0 -> material_after m = m.
Proof.
  intros Hz. unfold material_after.
  by destruct (Z.ltb_spec 0 (Material.NumFramesDirty m)); [lia|].
Qed.

(** A render item whose counter is zero is left alone by every later
    tick. *)
Lemma Run_ritem_idle inputs : forall app app' outputs k e,
  Run inputs app = Some (app', outputs) ->
  mAllRitems app !! k = Some e ->
  RenderItem.NumFramesDirty e <= 0 ->
  unique_ObjCBIndex (mAllRitems app) k ->
  mAllRitems app' !! k = Some e /\
  forall s, object_stores s (RenderItem.ObjCBIndex e) (run_events outputs)
            = [].
Proof.
  induction inputs as [|inp rest IH]; intros app app' outputs k e Hr Hk Hz Hu.
  - simpl in Hr. by simplify_eq.
  - apply Run_cons_inv in Hr
      as (app1 & events & commands & outputs' & Ht & Hrest & ->).
    destruct (Tick_ritem _ _ _ _ _ k e Ht Hk Hu) as (Hk1 & Hu1 & Hst).
    rewrite ritem_after_clean in Hk1 by done.
    destruct (IH _ _ _ k e Hrest Hk1 Hz Hu1) as [Hk' Hst'].
    split; [done|]. intros s.
    rewrite run_events_cons, object_stores_app, Hst, Hst'.
    destruct (Z.ltb_spec 0 (RenderItem.NumFramesDirty e)); [lia|].
    by destruct (decide _).
Qed.

(** The same for a material other than the water. *)
Lemma Run_material_idle inputs : forall app app' outputs key m,
  Run inputs app = Some (app', outputs) ->
  key <> "water" ->
  mMaterials app !! key = Some m ->
  Material.NumFramesDirty m <= 0 ->
  unique_MatCBIndex (mMaterials app) key ->
  mMaterials app' !! key = Some m /\
  forall s, material_stores s (Material.MatCBIndex m) (run_events outputs)
            = [].
Proof.
  induction inputs as [|inp rest IH];
    intros app app' outputs key m Hr Hne Hk Hz Hu.
  - simpl in Hr. by simplify_eq.
  - apply Run_cons_inv in Hr
      as (app1 & events & commands & outputs' & Ht & Hrest & ->).
    destruct (Tick_material _ _ _ _ _ key m Ht Hne Hk Hu) as (Hk1 & Hu1 & Hst).
    rewrite material_after_clean in Hk1 by done.
    destruct (IH _ _ _ key m Hrest Hne Hk1 Hz Hu1) as [Hk' Hst'].
    split; [done|]. intros s.
    rewrite run_events_cons, material_stores_app, Hst, Hst'.
    destruct (Z.ltb_spec 0 (Material.NumFramesDirty m)); [lia|].
    by destruct (decide _).
Qed.

Lemma Tick_index_bounds inp app app' events commands :
  0 <= mCurrFrameResourceIndex app ->
  Tick inp app = Some (app', events, commands) ->
  0 <= mCurrFrameResourceIndex app' < gNumFrameResources.
Proof.
  intros Hi Ht. rewrite (Tick_index _ _ _ _ _ Hi Ht).
  apply Z.mod_pos_bound. unfold gNumFrameResources. lia.
Qed.

(** Three ticks, seen from a render item whose counter has just been set to
    the ring size: one store per tick, each slot once, counter zero. *)
Lemma three_ticks_ritem i1 i2 i3 app app3 outputs k e :
  0 <= mCurrFrameResourceIndex app < gNumFrameResources ->
  Run [i1; i2; i3] app = Some (app3, outputs) ->
  mAllRitems app !! k = Some e ->
  RenderItem.NumFramesDirty e = gNumFrameResources ->
  unique_ObjCBIndex (mAllRitems app) k ->
  mAllRitems app3 !! k = Some (RenderItem.set_NumFramesDirty 0 e) /\
  unique_ObjCBIndex (mAllRitems app3) k /\
  Forall (fun o => object_stores o.1.1 (RenderItem.ObjCBIndex e) o.1.2
                   = [object_constants e]) outputs /\
  forall s, 0 <= s < gNumFrameResources ->
    object_stores s (RenderItem.ObjCBIndex e) (run_events outputs)
    = [object_constants e].
Proof.
  intros Hi Hr Hk Hn Hu.
  apply Run_cons_inv in Hr as (app1 & ev1 & c1 & o1 & Ht1 & Hr & ->).
  apply Run_cons_inv in Hr as (app2 & ev2 & c2 & o2 & Ht2 & Hr & ->).
  apply Run_cons_inv in Hr as (app3' & ev3 & c3 & o3 & Ht3 & Hr & ->).
  simpl in Hr. simplify_eq.
  pose proof (Tick_index _ _ _ _ _ (proj1 Hi) Ht1) as Hs1.
  pose proof (Tick_index_bounds _ _ _ _ _ (proj1 Hi) Ht1) as Hb1.
  pose proof (Tick_index _ _ _ _ _ (proj1 Hb1) Ht2) as Hs2.
  pose proof (Tick_index_bounds _ _ _ _ _ (proj1 Hb1) Ht2) as Hb2.
  pose proof (Tick_index _ _ _ _ _ (proj1 Hb2) Ht3) as Hs3.
  unfold gNumFrameResources in Hn.
  destruct (Tick_ritem _ _ _ _ _ k e Ht1 Hk Hu) as (Hk1 & Hu1 & Hst1).
  rewrite ritem_after_dirty, Hn in Hk1 by lia.
  destruct (Tick_ritem _ _ _ _ _ k _ Ht2 Hk1 Hu1) as (Hk2 & Hu2 & Hst2).
  rewrite ritem_after_dirty in Hk2 by (simpl; lia).
  destruct (Tick_ritem _ _ _ _ _ k _ Ht3 Hk2 Hu2) as (Hk3 & Hu3 & Hst3).
  rewrite ritem_after_dirty in Hk3 by (simpl; lia).
  simpl in Hst1, Hst2, Hst3, Hk3. rewrite Hn in Hst1.
  split; [done|]. split; [done|]. split.
  - repeat constructor; simpl.
    + by rewrite Hst1, decide_True.
    + by rewrite Hst2, decide_True.
    + by rewrite Hst3, decide_True.
  - intros s Hs. rewrite !run_events_cons, !object_stores_app, app_nil_r.
    rewrite Hst1, Hst2, Hst3.
    by apply (three_slots _ (mCurrFrameResourceIndex app)).
Qed.

(** The same for a material other than the water. *)
Lemma three_ticks_material i1 i2 i3 app app3 outputs key m :
  0 <= mCurrFrameResourceIndex app < gNumFrameResources ->
  Run [i1; i2; i3] app = Some (app3, outputs) ->
  key <> "water" ->
  mMaterials app !! key = Some m ->
  Material.NumFramesDirty m = gNumFrameResources ->
  unique_MatCBIndex (mMaterials app) key ->
  mMaterials app3 !! key = Some (Material.set_NumFramesDirty 0 m) /\
  unique_MatCBIndex (mMaterials app3) key /\
  Forall (fun o => material_stores o.1.1 (Material.MatCBIndex m) o.1.2
                   = [material_constants m]) outputs /\
  forall s, 0 <= s < gNumFrameResources ->
    material_stores s (Material.MatCBIndex m) (run_events outputs)
    = [material_constants m].
Proof.
  intros Hi Hr Hne Hk Hn Hu.
  apply Run_cons_inv in Hr as (app1 & ev1 & c1 & o1 & Ht1 & Hr & ->).
  apply Run_cons_inv in Hr as (app2 & ev2 & c2 & o2 & Ht2 & Hr & ->).
  apply Run_cons_inv in Hr as (app3' & ev3 & c3 & o3 & Ht3 & Hr & ->).
  simpl in Hr. simplify_eq.
  pose proof (Tick_index _ _ _ _ _ (proj1 Hi) Ht1) as Hs1.
  pose proof (Tick_index_bounds _ _ _ _ _ (proj1 Hi) Ht1) as Hb1.
  pose proof (Tick_index _ _ _ _ _ (proj1 Hb1) Ht2) as Hs2.
  pose proof (Tick_index_bounds _ _ _ _ _ (proj1 Hb1) Ht2) as Hb2.
  pose proof (Tick_index _ _ _ _ _ (proj1 Hb2) Ht3) as Hs3.
  unfold gNumFrameResources in Hn.
  destruct (Tick_material _ _ _ _ _ key m Ht1 Hne Hk Hu) as (Hk1 & Hu1 & Hst1).
  rewrite material_after_dirty, Hn in Hk1 by lia.
  destruct (Tick_material _ _ _ _ _ key _ Ht2 Hne Hk1 Hu1)
    as (Hk2 & Hu2 & Hst2).
  rewrite material_after_dirty in Hk2 by (simpl; lia).
  destruct (Tick_material _ _ _ _ _ key _ Ht3 Hne Hk2 Hu2)
    as (Hk3 & Hu3 & Hst3).
  rewrite material_after_dirty in Hk3 by (simpl; lia).
  simpl in Hst1, Hst2, Hst3, Hk3. rewrite Hn in Hst1.
  split; [done|]. split; [done|]. split.
  - repeat constructor; simpl.
    + by rewrite Hst1, decide_True.
    + by rewrite Hst2, decide_True.
    + by rewrite Hst3, decide_True.
  - intros s Hs. rewrite !run_events_cons, !material_stores_app, app_nil_r.
    rewrite Hst1, Hst2, Hst3.
    by apply (three_slots _ (mCurrFrameResourceIndex app)).
Qed.

(** C3.  From a well-formed state, the next three ticks and any ticks
    after them run (as long as the 64-bit fence counter does not wrap), and
    for every render item, and every material other than the water (which
    [AnimateMaterials] edits again on every tick), whose counter stands at
    [gNumFrameResources] and whose constant-buffer index is its own: each of
    the three ticks stores the entity's record exactly once, into the slot
    the tick selected; over the three ticks each of the three slots
    receives the record exactly once; afterwards the counter is 0; and no
    later tick stores anything for the entity. *)
Theorem dirty_edit_reaches_each_slot_once app first later :
  wf app ->
  length first = 3%nat ->
  (mCurrentFence app + 3 + N.of_nat (length later) < 2 ^ 64)%N ->
  exists app3 outputs3 app' outputs',
    Run first app = Some (app3, outputs3) /\
    Run later app3 = Some (app', outputs') /\
    (forall k e,
       mAllRitems app !! k = Some e ->
       RenderItem.NumFramesDirty e = gNumFrameResources ->
       unique_ObjCBIndex (mAllRitems app) k ->
       Forall (fun o => object_stores o.1.1 (RenderItem.ObjCBIndex e) o.1.2
                        = [object_constants e]) outputs3 /\
       (forall s, 0 <= s < gNumFrameResources ->
          object_stores s (RenderItem.ObjCBIndex e) (run_events outputs3)
          = [object_constants e]) /\
       mAllRitems app3 !! k = Some (RenderItem.set_NumFramesDirty 0 e) /\
       (forall s, object_stores s (RenderItem.ObjCBIndex e)
                    (run_events outputs') = [])) /\
    (forall key m,
       key <> "water" ->
       mMaterials app !! key = Some m ->
       Material.NumFramesDirty m = gNumFrameResources ->
       unique_MatCBIndex (mMaterials app) key ->
       Forall (fun o => material_stores o.1.1 (Material.MatCBIndex m) o.1.2
                        = [material_constants m]) outputs3 /\
       (forall s, 0 <= s < gNumFrameResources ->
          material_stores s (Material.MatCBIndex m) (run_events outputs3)
          = [material_constants m]) /\
       mMaterials app3 !! key = Some (Material.set_NumFramesDirty 0 m) /\
       (forall s, material_stores s (Material.MatCBIndex m)
                    (run_events outputs') = [])).
Proof.
  intros Hwf Hlen Hb.
  destruct first as [|i1 [|i2 [|i3 [|]]]]; try done.
  destruct (Run_total [i1; i2; i3] app Hwf ltac:(simpl; lia))
    as (app3 & outputs3 & Hr3 & Hwf3 & Hf3).
  destruct (Run_total later app3 Hwf3 ltac:(simpl in Hf3; lia))
    as (app' & outputs' & Hr' & _ & _).
  exists app3, outputs3, app', outputs'.
  split; [done|]. split; [done|].
  pose proof (wf_index _ Hwf) as Hi. split.
  - intros k e Hk Hn Hu.
    destruct (three_ticks_ritem _ _ _ _ _ _ k e Hi Hr3 Hk Hn Hu)
      as (Hk3 & Hu3 & Hper & Hall).
    destruct (Run_ritem_idle _ _ _ _ k _ Hr' Hk3 ltac:(done) Hu3)
      as [_ Hidle].
    done.
  - intros key m Hne Hk Hn Hu.
    destruct (three_ticks_material _ _ _ _ _ _ key m Hi Hr3 Hne Hk Hn Hu)
      as (Hk3 & Hu3 & Hper & Hall).
    destruct (Run_material_idle _ _ _ _ key _ Hr' Hne Hk3 ltac:(done) Hu3)
      as [_ Hidle].
    done.
Qed.

(** The counter of a material other than the water over a run: it goes
    down by one per tick until it is zero. *)
Lemma Run_material_counter inputs : forall app app' outputs key m,
  Run inputs app = Some (app', outputs) ->
  key <> "water" ->
  mMaterials app !! key = Some m ->
  0 <= Material.NumFramesDirty m ->
  exists m',
    mMaterials app' !! key = Some m' /\
    Material.NumFramesDirty m' =
    Z.max 0 (Material.NumFramesDirty m - Z.of_nat (length inputs)).
Proof.
  induction inputs as [|inp rest IH]; intros app app' outputs key m Hr Hne Hk H0.
  - simpl in Hr. simplify_eq. exists m. split; [done|]. simpl. lia.
  - apply Run_cons_inv in Hr
      as (app1 & events & commands & outputs' & Ht & Hrest & ->).
    destruct (Tick_stores _ _ _ _ _ Ht) as (mats & Ha & _ & Hm & _).
    apply AnimateMaterials_inv in Ha as (water & Hw & ->).
    assert (Hk1 : mMaterials app1 !! key = Some (material_after m)).
    { by rewrite Hm, lookup_fmap, lookup_insert_ne, Hk. }
    assert (Hc : Material.NumFramesDirty (material_after m) =
                 Z.max 0 (Material.NumFramesDirty m - 1)).
    { unfold material_after.
      destruct (Z.ltb_spec 0 (Material.NumFramesDirty m)); simpl; lia. }
    destruct (IH _ _ _ key _ Hrest Hne Hk1 ltac:(lia)) as (m' & Hk' & Hc').
    exists m'. split; [done|]. rewrite Hc', Hc. cbn [length]. lia.
Qed.

(** The water material over a run: stored once per tick into the slot of
    the tick, and its counter is 2 after every tick. *)
Lemma Run_water inputs : forall app app' outputs water,
  Run inputs app = Some (app', outputs) ->
  mMaterials app !! "water" = Some water ->
  unique_MatCBIndex (mMaterials app) "water" ->
  Forall (fun o => exists d,
            material_stores o.1.1 (Material.MatCBIndex water) o.1.2 = [d])
         outputs /\
  exists water',
    mMaterials app' !! "water" = Some water' /\
    Material.NumFramesDirty water' =
    match inputs with
    | [] => Material.NumFramesDirty water
    | _ => gNumFrameResources - 1
    end.
Proof.
  induction inputs as [|inp rest IH]; intros app app' outputs water Hr Hk Hu.
  - simpl in Hr. simplify_eq. split; [constructor|]. by exists water.
  - apply Run_cons_inv in Hr
      as (app1 & events & commands & outputs' & Ht & Hrest & ->).
    destruct (Tick_water _ _ _ _ _ water Ht Hk Hu) as (Hk1 & Hu1 & Hst).
    destruct (IH _ _ _ _ Hrest Hk1 Hu1) as (Hper & water' & Hk' & Hc').
    split.
    + constructor; [|done]. simpl. rewrite Hst, decide_True by done.
      by eexists.
    + exists water'. split; [done|]. rewrite Hc'. by destruct rest.
Qed.

Lemma NoDup_fmap_elem_eq {A B} (f : A -> B) (l : list A) x y :
  NoDup (f <$> l) -> x ∈ l -> y ∈ l -> f x = f y -> x = y.
Proof.
  intros Hnd Hx Hy Heq.
  apply list_elem_of_lookup in Hx as [i Hi].
  apply list_elem_of_lookup in Hy as [j Hj].
  assert (i = j) as ->.
  { eapply (NoDup_lookup (f <$> l)); [done| |].
    - by rewrite list_lookup_fmap, Hi.
    - by rewrite list_lookup_fmap, Hj, Heq. }
  congruence.
Qed.

(** Distinct material-constant indices, from a check on the listed map. *)
Lemma unique_MatCBIndex_check (mats : gmap string Material.t) key :
  NoDup ((fun e => Material.MatCBIndex e.2) <$> map_to_list mats) ->
  unique_MatCBIndex mats key.
Proof.
  intros Hnd m Hk key' m' Hk' Heq.
  apply elem_of_map_to_list in Hk, Hk'.
  assert ((key', m') = (key, m)) as [= -> _]; [|done].
  by eapply (NoDup_fmap_elem_eq (fun e => Material.MatCBIndex e.2)).
Qed.

Lemma BuildMaterials_indices :
  NoDup ((fun e => Material.MatCBIndex e.2) <$> map_to_list BuildMaterials).
Proof. apply (bool_decide_unpack _). by vm_compute. Qed.

Lemma BuildMaterials_dirty :
  map_Forall (fun _ m => Material.NumFramesDirty m = gNumFrameResources)
             BuildMaterials.
Proof. apply (bool_decide_unpack _). by vm_compute. Qed.

Lemma BuildMaterials_water :
  exists water,
    BuildMaterials !! "water" = Some water /\
    Material.MatCBIndex water = 2 /\
    Material.NumFramesDirty water = gNumFrameResources.
Proof. eexists. split; [by vm_compute|]. by vm_compute. Qed.

(** C9.  In every tick [AnimateMaterials] leaves the water material with
    its counter at 3, the material loop then stores its record once into
    the slot of the tick, and the counter is 2 after the tick.  Over a run
    from [Initialize]: the water's record (element 2 of the material
    buffer) is stored in every tick, its counter is 3 before the first tick
    and 2 after every tick, so never 0; every other material's counter is
    [max 0 (3 - n)] after [n] ticks, so 0 from the third tick on. *)
Theorem water_material_rewritten_every_tick :
  (forall inp app app' events commands water,
     Tick inp app = Some (app', events, commands) ->
     mMaterials app !! "water" = Some water ->
     unique_MatCBIndex (mMaterials app) "water" ->
     let scrolled := scroll_water (FrameInput.gt inp) water in
     Material.NumFramesDirty scrolled = gNumFrameResources /\
     material_stores (mCurrFrameResourceIndex app')
       (Material.MatCBIndex water) events = [material_constants scrolled] /\
     mMaterials app' !! "water" =
     Some (Material.set_NumFramesDirty (gNumFrameResources - 1) scrolled)) /\
  (forall fence0 inputs,
     (fence0 + N.of_nat (length inputs) < 2 ^ 64)%N ->
     exists app' outputs,
       Run inputs (Initialize fence0) = Some (app', outputs) /\
       Forall (fun o => exists d, material_stores o.1.1 2 o.1.2 = [d])
              outputs /\
       (exists water',
          mMaterials app' !! "water" = Some water' /\
          Material.NumFramesDirty water' =
          match inputs with [] => 3 | _ => 2 end) /\
       (forall key m,
          key <> "water" ->
          BuildMaterials !! key = Some m ->
          exists m',
            mMaterials app' !! key = Some m' /\
            Material.NumFramesDirty m' =
            Z.max 0 (gNumFrameResources - Z.of_nat (length inputs)))).
Proof.
  split.
  - intros inp app app' events commands water Ht Hk Hu scrolled.
    destruct (Tick_water _ _ _ _ _ water Ht Hk Hu) as (Hk1 & _ & Hst).
    split; [done|]. split; [|done].
    by rewrite Hst, decide_True.
  - intros fence0 inputs Hb.
    destruct (Run_total inputs (Initialize fence0) (Initialize_wf fence0) Hb)
      as (app' & outputs & Hr & _).
    exists app', outputs. split; [done|].
    destruct BuildMaterials_water as (water & Hw & Hidx & Hn).
    destruct (Run_water _ _ _ _ water Hr Hw
                (unique_MatCBIndex_check _ _ BuildMaterials_indices))
      as (Hper & water' & Hk' & Hc').
    rewrite Hidx in Hper. split; [done|]. split.
    + exists water'. split; [done|]. rewrite Hc', Hn. by destruct inputs.
    + intros key m Hne Hk.
      pose proof (BuildMaterials_dirty key m Hk) as Hm. simpl in Hm.
      destruct (Run_material_counter _ _ _ _ key m Hr Hne Hk ltac:(by rewrite Hm))
        as (m' & Hm' & Hc).
      exists m'. split; [done|]. by rewrite Hc, Hm.
Qed.

Lemma wave_stores_app l1 l2 :
  wave_stores (l1 ++ l2) = wave_stores l1 ++ wave_stores l2.
Proof. unfold wave_stores. apply bind_app. Qed.

Lemma wave_stores_none log :
  Forall (fun e => match e with
                   | EvCopyData _ _ (ToWavesVB _) => False
                   | _ => True
                   end) log ->
  wave_stores log = [].
Proof.
  intros Hf. unfold wave_stores. apply bind_all_nil. intros e He.
  rewrite Forall_forall in Hf. specialize (Hf e He).
  by destruct e as [| |? ? []|].
Qed.

Lemma wave_stores_tag slot calls :
  wave_stores (tag slot ToWavesVB calls)
  = (fun c => (slot, c.1, c.2)) <$> calls.
Proof.
  unfold wave_stores, tag. induction calls as [|c calls IH]; [done|].
  by rewrite !fmap_cons, bind_cons, IH.
Qed.

(** C5.  In every [Update], with [slot] the slot it selects and [waves] the
    simulator after it has advanced by the frame's delta time: the vertex
    stores of the tick are exactly one per vertex index in
    [0, VertexCount), in increasing order, all into [slot]'s wave vertex
    buffer; the vertex at [i] carries the simulator's position and normal
    for [i] and the texture coordinates [0.5 + Pos.x / Width] and
    [0.5 - Pos.z / Depth]; and afterwards the geometry of the water render
    item has [slot]'s wave vertex buffer as its vertex buffer, which is
    what the draw of that item then binds. *)
Theorem waves_streamed_every_tick inp app app' log :
  Update inp app = Some (app', log) ->
  let slot := Z.rem (mCurrFrameResourceIndex app + 1) gNumFrameResources in
  let waves := mWaves app' in
  (exists before,
     waves = Waves_Update (GameTimer.DeltaTime (FrameInput.gt inp)) before)
  /\
  wave_stores log =
  (fun i =>
     (slot, i,
      Vertex.mk (Position waves i) (Normal waves i)
        (XMFLOAT2.mk
           (F32.add (F32.lit 5 1)
              (F32.div (XMFLOAT3.x (Position waves i)) (Width waves)))
           (F32.sub (F32.lit 5 1)
              (F32.div (XMFLOAT3.z (Position waves i)) (Depth waves))))))
  <$> seqZ 0 (VertexCount waves) /\
  (exists ritem geo,
     mAllRitems app' !! mWavesRitem app' = Some ritem /\
     mGeometries app' !! RenderItem.Geo ritem = Some geo /\
     MeshGeometry.VertexBufferGPU geo = WavesVBResource slot /\
     forall fr commands,
       DrawRenderItem app' fr (mWavesRitem app') = Some commands ->
       head commands = Some (IASetVertexBuffers (WavesVBResource slot))).
Proof.
  intros Hupd slot waves. subst waves. apply Update_inv in Hupd
    as (fr & gpu & gate & mats & tbase & waves & wavesVB & geos & waveLog
        & _ & Hgate & _ & Hw & -> & ->).
  fold slot in Hw |- *.
  apply FenceGate_no_store in Hgate.
  apply UpdateWaves_inv in Hw as (w1 & d & calls & Hd & Hs & Hreb & ->).
  unfold stream_waves in Hs. simplify_eq.
  apply rebind_waves_inv in Hreb as (ri & geo & Hri & Hgeo & ->).
  cbn [mWaves Update_state]. split; [by eexists|]. split.
  - unfold Update_log. rewrite !wave_stores_app.
    rewrite (wave_stores_none gate).
    2:{ eapply Forall_impl; [apply Hgate|]. by intros [| |? ? []|]. }
    rewrite (wave_stores_none (tag _ ToObjectCB _)).
    2:{ unfold tag. apply Forall_fmap, Forall_forall. by intros c _. }
    rewrite (wave_stores_none (tag _ ToMaterialCB _)).
    2:{ unfold tag. apply Forall_fmap, Forall_forall. by intros c _. }
    rewrite (wave_stores_none (tag _ ToPassCB _)).
    2:{ unfold tag. apply Forall_fmap, Forall_forall. by intros c _. }
    rewrite (wave_stores_none d).
    2:{ unfold random_disturb in Hd. destruct (F32.geb _ _); simplify_eq;
        by repeat constructor. }
    simpl. rewrite wave_stores_tag, <- list_fmap_compose. done.
  - exists ri, (MeshGeometry.mk (WavesVBResource slot)
                  (MeshGeometry.IndexBufferGPU geo)).
    cbn [mAllRitems mWavesRitem mGeometries Update_state].
    split; [done|]. split; [by rewrite lookup_insert_eq|]. split; [done|].
    intros fr' commands. unfold DrawRenderItem.
    cbn [mAllRitems mWavesRitem mGeometries Update_state].
    rewrite Hri. simpl. rewrite lookup_insert_eq. simpl.
    destruct (_ !! RenderItem.Mat ri); simpl; [|done].
    by intros [= <-].
Qed.



Lemma DrawRenderItems_inv app fr ritems commands :
  DrawRenderItems app fr ritems = Some commands ->
  exists chunks,
    commands = mjoin chunks /\
    Forall2 (fun ri chunk => DrawRenderItem app fr ri = Some chunk)
            ritems chunks.
Proof.
  unfold DrawRenderItems. intros Hd.
  apply fmap_Some in Hd as (chunks & Hm & ->).
  exists chunks. split; [done|]. by apply mapM_Some.
Qed.

Lemma DrawRenderItem_inv app fr ri chunk :
  DrawRenderItem app fr ri = Some chunk ->
  exists item geo mat,
    mAllRitems app !! ri = Some item /\
    mGeometries app !! RenderItem.Geo item = Some geo /\
    mMaterials app !! RenderItem.Mat item = Some mat /\
    chunk =
    [ IASetVertexBuffers (MeshGeometry.VertexBufferGPU geo);
      IASetIndexBuffer (MeshGeometry.IndexBufferGPU geo);
      IASetPrimitiveTopology (RenderItem.PrimitiveType item);
      SetGraphicsRootDescriptorTable 0
        (descriptor_handle SrvHeapStart (Material.DiffuseSrvHeapIndex mat)
           mCbvSrvDescriptorSize);
      SetGraphicsRootConstantBufferView 1
        (cb_address
           (UploadBuffer.GPUVirtualAddress (FrameResource.ObjectCB fr))
           (RenderItem.ObjCBIndex item) objCBByteSize);
      SetGraphicsRootConstantBufferView 3
        (cb_address
           (UploadBuffer.GPUVirtualAddress (FrameResource.MaterialCB fr))
           (Material.MatCBIndex mat) matCBByteSize);
      DrawIndexedInstanced (RenderItem.IndexCount item) 1
        (RenderItem.StartIndexLocation item)
        (RenderItem.BaseVertexLocation item) 0 ].
Proof.
  unfold DrawRenderItem. intros Hd.
  apply bind_Some in Hd as (item & Hitem & Hd).
  apply bind_Some in Hd as (geo & Hgeo & Hd).
  apply bind_Some in Hd as (mat & Hmat & Hd).
  injection Hd as <-. by exists item, geo, mat.
Qed.



Lemma final_pso_app pso l1 l2 :
  final_pso pso (l1 ++ l2) = final_pso (final_pso pso l1) l2.
Proof.
  revert pso. induction l1 as [|c l1 IH]; intros pso; [done|].
  destruct c; simpl; rewrite ?IH; done.
Qed.







(** *** Indices and capacities *)

Lemma ritem_after_indices (items : list RenderItem.t) :
  RenderItem.ObjCBIndex <$> (ritem_after <$> items)
  = RenderItem.ObjCBIndex <$> items.
Proof.
  rewrite <- list_fmap_compose. apply list_fmap_ext. intros _ e _. simpl.
  by destruct (ritem_after_fields e) as (_ & _ & -> & _).
Qed.

Lemma Update_indices_ok inp app app' log :
  indices_ok app -> Update inp app = Some (app', log) ->
  indices_ok app' /\
  length (mAllRitems app') = length (mAllRitems app) /\
  size (mMaterials app') = size (mMaterials app) /\
  Forall (store_in_bounds (Z.of_nat (length (mAllRitems app)))
                          (Z.of_nat (size (mMaterials app)))) log.
Proof.
  intros [Hitems Hunique Hmats Hcap] Hupd. apply Update_inv in Hupd
    as (fr & gpu & gate & mats & tbase & waves & wavesVB & geos & waveLog
        & Hfr & Hgate & Ha & Hw & -> & ->).
  apply AnimateMaterials_inv in Ha as (water & Hwater & ->).
  apply FenceGate_events in Hgate. apply UpdateWaves_only_vertices in Hw.
  apply at_index_lookup in Hfr as [_ Hfr].
  assert (Hsize : size (material_after <$>
                          <["water" := scroll_water (FrameInput.gt inp) water]>
                            (mMaterials app)) = size (mMaterials app)).
  { rewrite map_size_fmap. by apply map_size_insert_Some. }
  assert (Hmats1 : map_Forall
            (fun _ m => 0 <= Material.MatCBIndex m
                        < Z.of_nat (size (mMaterials app)))
            (<["water" := scroll_water (FrameInput.gt inp) water]>
               (mMaterials app))).
  { apply map_Forall_insert_2; [|done]. by apply (Hmats "water" water). }
  split; [split|]; cbn [mAllRitems mMaterials mFrameResources Update_state].
  - by rewrite ritem_after_indices, length_fmap.
  - intros key. by apply unique_MatCBIndex_after, unique_MatCBIndex_scroll.
  - rewrite Hsize. intros key m Hk. rewrite lookup_fmap in Hk.
    apply fmap_Some in Hk as (m0 & Hk & ->).
    destruct (material_after_fields m0) as (-> & _). by eapply Hmats1.
  - rewrite Hsize, length_fmap. apply Forall_insert; [done|]. simpl.
    rewrite !copy_all_count.
    by apply (Forall_lookup_1 _ _ _ _ Hcap Hfr).
  - split; [by rewrite length_fmap|]. split; [done|].
    unfold Update_log. repeat (apply Forall_app; split).
    + eapply Forall_impl; [apply Hgate|]. by intros [].
    + unfold tag. apply Forall_fmap, Forall_forall. intros [i d] Hin.
      simpl. apply list_elem_of_bind in Hin as (e & Hin & He).
      unfold ObjectCB_call in Hin.
      destruct (0 <? RenderItem.NumFramesDirty e);
        [|by apply elem_of_nil in Hin].
      apply list_elem_of_singleton in Hin as [= -> _].
      assert (Hidx : RenderItem.ObjCBIndex e
                     ∈ RenderItem.ObjCBIndex <$> mAllRitems app)
        by (apply list_elem_of_fmap; by exists e).
      rewrite Hitems in Hidx. apply elem_of_seqZ in Hidx. lia.
    + unfold tag. apply Forall_fmap, Forall_forall. intros [i d] Hin.
      simpl. apply list_elem_of_bind in Hin as ([key m] & Hin & He).
      simpl in Hin. unfold MaterialCB_call in Hin.
      destruct (0 <? Material.NumFramesDirty m);
        [|by apply elem_of_nil in Hin].
      apply list_elem_of_singleton in Hin as [= -> _].
      apply elem_of_map_to_list in He. by eapply Hmats1.
    + unfold tag. apply Forall_fmap, Forall_forall. by intros c _.
    + eapply Forall_impl; [apply Hw|]. by intros [| |? ? []|].
Qed.

Lemma Draw_indices_ok app app' commands :
  indices_ok app -> Draw app = Some (app', commands) -> indices_ok app'.
Proof.
  intros [Hitems Hunique Hmats Hcap] Hd.
  apply Draw_inv in Hd as (fr & o & a & t & r & Hfr & _ & _ & _ & _ & -> & _).
  apply at_index_lookup in Hfr as [_ Hfr].
  split; cbn [mAllRitems mMaterials mFrameResources Draw_state]; try done.
  apply Forall_insert; [done|]. simpl.
  by apply (Forall_lookup_1 _ _ _ _ Hcap Hfr).
Qed.

Lemma Run_indices_ok inputs : forall app app' outputs,
  indices_ok app -> Run inputs app = Some (app', outputs) ->
  indices_ok app' /\
  length (mAllRitems app') = length (mAllRitems app) /\
  size (mMaterials app') = size (mMaterials app) /\
  Forall (store_in_bounds (Z.of_nat (length (mAllRitems app)))
                          (Z.of_nat (size (mMaterials app))))
         (run_events outputs).
Proof.
  induction inputs as [|inp rest IH]; intros app app' outputs Hok Hr.
  - simpl in Hr. simplify_eq.
    split; [done|]. split; [done|]. split; [done|]. constructor.
  - apply Run_cons_inv in Hr
      as (app1 & events & commands & outputs' & Ht & Hrest & ->).
    apply Tick_inv in Ht as (app0 & Hupd & Hd).
    destruct (Update_indices_ok _ _ _ _ Hok Hupd) as (Hok0 & Hl0 & Hs0 & Hev).
    pose proof (Draw_indices_ok _ _ _ Hok0 Hd) as Hok1.
    destruct (Draw_entities _ _ _ Hd) as (Hi1 & Hm1 & _).
    destruct (IH _ _ _ Hok1 Hrest) as (Hok' & Hl' & Hs' & Hev').
    rewrite Hi1, Hm1, Hl0, Hs0 in *.
    split; [done|]. split; [done|]. split; [done|].
    rewrite run_events_cons. by apply Forall_app.
Qed.

Lemma Initialize_counts fence0 :
  length (mAllRitems (Initialize fence0)) = 143%nat /\
  size (mMaterials (Initialize fence0)) = 12%nat.
Proof. split; by vm_compute. Qed.

Lemma Initialize_indices_ok fence0 : indices_ok (Initialize fence0).
Proof.
  destruct (Initialize_counts fence0) as [Hn Hm].
  split.
  - rewrite Hn. by vm_compute.
  - intros key. apply unique_MatCBIndex_check, BuildMaterials_indices.
  - rewrite Hm. apply (bool_decide_unpack _). by vm_compute.
  - rewrite Hn, Hm. cbn [mFrameResources Initialize].
    unfold BuildFrameResources. apply Forall_fmap, Forall_forall.
    intros i _. split; by vm_compute.
Qed.

(** C10.  After [Initialize] the object-constant indices of the render
    items are 0, 1, ..., size - 1 in the order of [mAllRitems], hence
    pairwise distinct; there are twelve materials, with pairwise distinct
    indices from 0 to 11; and every frame resource has an object buffer of
    one element per item and a material buffer of one element per material.
    In every run from there (which exists as long as the fence counter does
    not wrap) every object and material store has its element index within
    the buffer's capacity, the capacities stay what they were, and every
    item a layer points to has its own index, and its material's index,
    within the capacity of the corresponding buffer of every frame
    resource: the indices the draw-time address arithmetic uses. *)
Theorem constant_indices_within_bounds fence0 inputs :
  (fence0 + N.of_nat (length inputs) < 2 ^ 64)%N ->
  let app := Initialize fence0 in
  let nobj := Z.of_nat (length (mAllRitems app)) in
  let nmat := Z.of_nat (size (mMaterials app)) in
  RenderItem.ObjCBIndex <$> mAllRitems app = seqZ 0 nobj /\
  NoDup (RenderItem.ObjCBIndex <$> mAllRitems app) /\
  nmat = 12 /\
  NoDup ((fun e => Material.MatCBIndex e.2) <$> map_to_list (mMaterials app))
  /\
  map_Forall (fun _ m => 0 <= Material.MatCBIndex m < 12) (mMaterials app) /\
  Forall (fun fr =>
            UploadBuffer.mElementCount (FrameResource.ObjectCB fr) = nobj /\
            UploadBuffer.mElementCount (FrameResource.MaterialCB fr) = nmat)
         (mFrameResources app) /\
  exists app' outputs,
    Run inputs app = Some (app', outputs) /\
    Forall (store_in_bounds nobj nmat) (run_events outputs) /\
    Forall (fun fr =>
              UploadBuffer.mElementCount (FrameResource.ObjectCB fr) = nobj /\
              UploadBuffer.mElementCount (FrameResource.MaterialCB fr) = nmat)
           (mFrameResources app') /\
    forall layer ri item mat fr,
      ri ∈ mRitemLayer app' layer ->
      mAllRitems app' !! ri = Some item ->
      mMaterials app' !! RenderItem.Mat item = Some mat ->
      fr ∈ mFrameResources app' ->
      UploadBuffer.in_bounds (RenderItem.ObjCBIndex item)
                             (FrameResource.ObjectCB fr) /\
      UploadBuffer.in_bounds (Material.MatCBIndex mat)
                             (FrameResource.MaterialCB fr).
Proof.
  intros Hb app nobj nmat. subst app nobj nmat.
  pose proof (Initialize_indices_ok fence0) as Hok.
  destruct (Initialize_counts fence0) as [Hn Hm].
  destruct Hok as [Hitems Hunique Hmats Hcap].
  split; [done|]. split; [rewrite Hitems; apply NoDup_seqZ|].
  split; [by rewrite Hm|].
  split; [apply BuildMaterials_indices|].
  split; [by rewrite Hm in Hmats|]. split; [done|].
  destruct (Run_total inputs _ (Initialize_wf fence0) Hb)
    as (app' & outputs & Hr & _).
  destruct (Run_indices_ok _ _ _ _ (Initialize_indices_ok fence0) Hr)
    as ([Hitems' Hunique' Hmats' Hcap'] & Hl & Hs & Hev).
  exists app', outputs. split; [done|]. split; [done|].
  rewrite Hl, Hs in *. split; [done|].
  intros layer ri item mat fr _ Hitem Hmat Hfr.
  rewrite Forall_forall in Hcap'. destruct (Hcap' fr Hfr) as [Ho Hm'].
  unfold UploadBuffer.in_bounds. rewrite Ho, Hm'. split.
  - assert (Hidx : RenderItem.ObjCBIndex item
                   ∈ RenderItem.ObjCBIndex <$> mAllRitems app').
    { apply list_elem_of_fmap. exists item. split; [done|].
      by eapply list_elem_of_lookup_2. }
    rewrite Hitems' in Hidx. apply elem_of_seqZ in Hidx. lia.
  - by apply (Hmats' _ _ Hmat).
Qed.

End Frames.

(** ** Further properties of the frame loop and of start-up *)

Section RunInvariants.

Context `{WS : WavesSim} `{RS : MathHelperRandom} `{SC : SceneContent}
        `{DV : Device}.

Lemma ritem_after_n_0 e : ritem_after_n 0 e = e.
Proof.
  unfold ritem_after_n. destruct (0 <? _) eqn:Hd; [|done].
  apply Z.ltb_lt in Hd. rewrite Z.sub_0_r, Z.max_r by lia. by destruct e.
Qed.

Lemma ritem_after_n_S n e :
  ritem_after_n (S n) e = ritem_after (ritem_after_n n e).
Proof.
  unfold ritem_after_n, ritem_after.
  destruct (0 <? RenderItem.NumFramesDirty e) eqn:Hd; [|by rewrite Hd].
  apply Z.ltb_lt in Hd. destruct e as [w t d i m g p ic si bv].
  simpl in *.
  destruct (0 <? Z.max 0 (d - Z.of_nat n)) eqn:Hn.
  - apply Z.ltb_lt in Hn. unfold RenderItem.set_NumFramesDirty. simpl.
    f_equal. lia.
  - apply Z.ltb_ge in Hn. unfold RenderItem.set_NumFramesDirty. simpl.
    f_equal. lia.
Qed.

Lemma material_static_after m :
  material_static (material_after m) = material_static m.
Proof. unfold material_after. by destruct (0 <? _). Qed.

Lemma Update_scene inp app app' log :
  Update inp app = Some (app', log) ->
  mAllRitems app' = ritem_after <$> mAllRitems app /\
  mRitemLayer app' = mRitemLayer app /\
  mWavesRitem app' = mWavesRitem app /\
  material_static <$> mMaterials app' = material_static <$> mMaterials app /\
  MeshGeometry.IndexBufferGPU <$> mGeometries app'
  = MeshGeometry.IndexBufferGPU <$> mGeometries app /\
  FrameResource.Fence <$> mFrameResources app'
  = FrameResource.Fence <$> mFrameResources app /\
  mCurrentFence app' = mCurrentFence app.
Proof.
  intros Hupd. apply Update_inv in Hupd
    as (fr & gpu & gate & mats & tbase & waves & wavesVB & geos & waveLog
        & Hfr & _ & Hmats & Hw & -> & _).
  apply AnimateMaterials_inv in Hmats as (water & Hwater & ->).
  apply UpdateWaves_inv in Hw as (w1 & disturb & calls & _ & _ & Hreb & _).
  apply rebind_waves_inv in Hreb as (ri & geo & _ & Hgeo & ->).
  apply at_index_lookup in Hfr as [_ Hfr].
  unfold Update_state. simpl. repeat split.
  - rewrite <- map_fmap_compose.
    rewrite (map_fmap_ext _ material_static); [|intros; apply material_static_after].
    rewrite fmap_insert.
    apply insert_id. by rewrite lookup_fmap, Hwater.
  - rewrite fmap_insert. apply insert_id. by rewrite lookup_fmap, Hgeo.
  - rewrite list_fmap_insert. apply list_insert_id.
    by rewrite list_lookup_fmap, Hfr.
Qed.


Lemma ritem_after_n_S' n e :
  ritem_after_n (S n) e = ritem_after_n n (ritem_after e).
Proof.
  unfold ritem_after_n, ritem_after.
  destruct (0 <? RenderItem.NumFramesDirty e) eqn:Hd; [|by rewrite Hd].
  apply Z.ltb_lt in Hd. destruct e as [w t d i m g p ic si bv].
  simpl in *.
  destruct (0 <? d - 1) eqn:Hn.
  - unfold RenderItem.set_NumFramesDirty. simpl. f_equal. lia.
  - apply Z.ltb_ge in Hn. unfold RenderItem.set_NumFramesDirty. simpl.
    f_equal. lia.
Qed.

Lemma Tick_scene inp app app' events commands :
  Tick inp app = Some (app', events, commands) ->
  mAllRitems app' = ritem_after <$> mAllRitems app /\
  mRitemLayer app' = mRitemLayer app /\
  mWavesRitem app' = mWavesRitem app /\
  material_static <$> mMaterials app' = material_static <$> mMaterials app /\
  MeshGeometry.IndexBufferGPU <$> mGeometries app'
  = MeshGeometry.IndexBufferGPU <$> mGeometries app.
Proof.
  intros Ht. apply Tick_inv in Ht as (app1 & Hupd & Hd).
  apply Update_scene in Hupd as (Hi & Hl & Hw & Hm & Hg & _ & _).
  pose proof (Draw_entities _ _ _ Hd) as (Hi' & Hm' & Hg' & Hl').
  apply Draw_inv in Hd
    as (fr & o & a & t & tr & _ & _ & _ & _ & _ & Happ & _).
  rewrite Hi', Hm', Hg', Hl'. repeat split; try done.
  by rewrite Happ.
Qed.

(** X1 helper *)
Lemma Run_scene inputs : forall app app' outputs,
  Run inputs app = Some (app', outputs) ->
  mAllRitems app' = ritem_after_n (length inputs) <$> mAllRitems app /\
  mRitemLayer app' = mRitemLayer app /\
  mWavesRitem app' = mWavesRitem app /\
  material_static <$> mMaterials app' = material_static <$> mMaterials app /\
  MeshGeometry.IndexBufferGPU <$> mGeometries app'
  = MeshGeometry.IndexBufferGPU <$> mGeometries app.
Proof.
  induction inputs as [|inp rest IH]; intros app app' outputs Hr.
  - simpl in Hr. simplify_eq. repeat split; try done.
    rewrite <- (list_fmap_id (mAllRitems app')) at 1.
    apply list_fmap_ext. intros _ e _. simpl. by rewrite ritem_after_n_0.
  - apply Run_cons_inv in Hr
      as (app1 & events & commands & outputs' & Ht & Hrest & ->).
    apply Tick_scene in Ht as (Hi & Hl & Hw & Hm & Hg).
    apply IH in Hrest as (Hi' & Hl' & Hw' & Hm' & Hg').
    rewrite Hi', Hl', Hw', Hm', Hg', Hi, Hl, Hw, Hm, Hg.
    repeat split; try done.
    rewrite <- list_fmap_compose. apply list_fmap_ext.
    intros _ e _. simpl. by rewrite ritem_after_n_S'.
Qed.


Lemma advance_Completed_le n : forall g,
  StronglySorted N.lt (timeline g) ->
  (Gpu.Completed g <= Gpu.Completed (Gpu.advance n g))%N.
Proof.
  induction n as [|n IH]; intros [c pending] Hs; [simpl; lia|].
  destruct pending as [|v rest]; [simpl; lia|].
  simpl. unfold timeline in Hs. simpl in Hs.
  apply StronglySorted_inv in Hs as [Hs Hall].
  apply Forall_cons in Hall as [Hcv _].
  specialize (IH (Gpu.mk v rest) Hs). simpl in IH. lia.
Qed.

Lemma FenceGate_Completed_le current fences fence progress g g' gate :
  gpu_ok current fences g ->
  FenceGate fence progress g = Some (g', gate) ->
  (Gpu.Completed g <= Gpu.Completed g')%N.
Proof.
  intros Hok Hg.
  pose proof (advance_Completed_le progress g (gpu_sorted _ _ _ Hok)) as H1.
  pose proof (gpu_ok_advance _ _ progress _ Hok) as Hok1.
  unfold FenceGate in Hg.
  destruct (fence =? 0)%N; [by simplify_eq|].
  destruct (_ <? fence)%N; [|by simplify_eq].
  destruct (Gpu.WaitForFence _ _) as [g2|] eqn:Hw; [|done].
  simpl in Hg. simplify_eq.
  apply drain_until_advance in Hw as [n ->].
  pose proof (advance_Completed_le n (Gpu.advance progress g)) as H2.
  destruct (Gpu.advance progress g) as [c p] eqn:Ha.
  specialize (H2 (gpu_sorted _ _ _ Hok1)). simpl in *. lia.
Qed.

Lemma ring_index_shift i j :
  0 <= i ->
  (Z.rem (i + 1) gNumFrameResources + j) mod gNumFrameResources
  = (i + (j + 1)) mod gNumFrameResources.
Proof.
  intros Hi. unfold gNumFrameResources.
  rewrite Z.rem_mod_nonneg by lia.
  rewrite Z.add_mod_idemp_l by lia. f_equal. lia.
Qed.

Lemma Update_ring inp app app1 log :
  wf app -> ring_ok app -> Update inp app = Some (app1, log) ->
  ring_mid app1.
Proof.
  intros Hwf [H0 H1 H2 _] Hupd.
  pose proof (wf_index _ Hwf) as Hi.
  pose proof (Update_scene _ _ _ _ Hupd) as (_ & _ & _ & _ & _ & Hf & Hc).
  pose proof (Update_index _ _ _ _ Hupd) as Hidx.
  assert (forall j, slot_fence app1 j = slot_fence app (j + 1)) as Hshift.
  { intros j. unfold slot_fence. rewrite Hf, Hidx.
    by rewrite ring_index_shift by lia. }
  apply Update_inv in Hupd
    as (fr & gpu & gate & mats & tbase & waves & wavesVB & geos & waveLog
        & Hfr & Hgate & _ & _ & Happ & _).
  assert (Gpu.Completed (mGpu app1) = Gpu.Completed gpu) as HC
    by (by rewrite Happ).
  pose proof (FenceGate_Completed_le _ _ _ _ _ _ _ (wf_gpu _ Hwf) Hgate)
    as Hmono.
  apply FenceGate_spec in Hgate as [Hdone _].
  assert (slot_fence app 1 = FrameResource.Fence fr) as Hnext.
  { unfold slot_fence. apply at_index_lookup in Hfr as [_ Hfr].
    rewrite Z.rem_mod_nonneg in Hfr by (unfold gNumFrameResources; lia).
    by rewrite list_lookup_fmap, Hfr. }
  assert (slot_fence app 3 = slot_fence app 0) as Hwrap.
  { unfold slot_fence. do 2 f_equal. f_equal. unfold gNumFrameResources.
    rewrite Z.add_0_r. replace (mCurrFrameResourceIndex app + 3)
      with (mCurrFrameResourceIndex app + 1 * 3) by lia.
    by rewrite Z.mod_add by lia. }
  split; rewrite ?Hshift, Hc, HC; simpl;
    change (2 + 1) with 3; change (1 + 1) with 2.
  - rewrite Hnext in H2. lia.
  - rewrite Hwrap. lia.
  - lia.
Qed.

Lemma Draw_ring app1 app' commands :
  wf app1 -> ring_mid app1 -> (mCurrentFence app1 + 1 < 2 ^ 64)%N ->
  Draw app1 = Some (app', commands) ->
  ring_ok app'.
Proof.
  intros Hwf [H0 H1 H2] Hb Hd.
  pose proof (wf_index _ Hwf) as Hi.
  pose proof (wf_frames _ Hwf) as Hlen.
  apply Draw_inv in Hd
    as (fr & o & a & t & tr & Hfr & _ & _ & _ & _ & -> & _).
  apply at_index_lookup in Hfr as [_ Hfr].
  assert (forall j, slot_fence (Draw_state app1 fr) j =
                    if decide ((mCurrFrameResourceIndex app1 + j)
                               mod gNumFrameResources
                               = mCurrFrameResourceIndex app1)
                    then next_fence app1 else slot_fence app1 j) as Hsf.
  { intros j. unfold slot_fence, Draw_state. simpl.
    rewrite list_fmap_insert. simpl.
    assert (0 <= (mCurrFrameResourceIndex app1 + j) mod gNumFrameResources
            < gNumFrameResources) as Hm
      by (apply Z.mod_pos_bound; unfold gNumFrameResources; lia).
    destruct (decide _) as [He|Hne].
    - rewrite He, list_lookup_insert_eq; [done|].
      rewrite length_fmap, Hlen. unfold gNumFrameResources in Hi. lia.
    - rewrite list_lookup_insert_ne; [done|]. lia. }
  rewrite next_fence_small in Hsf by done.
  unfold gNumFrameResources in *.
  split; rewrite ?Hsf; simpl; rewrite ?next_fence_small by done.
  - rewrite Z.add_0_r, Z.mod_small, decide_True by lia. lia.
  - destruct (decide _) as [He|_]; [|lia].
    exfalso. revert He. clear -Hi.
    pose proof (Z.mod_pos_bound (mCurrFrameResourceIndex app1 + 2) 3).
    intros He.
    assert (mCurrFrameResourceIndex app1 = 0 \/
            mCurrFrameResourceIndex app1 = 1 \/
            mCurrFrameResourceIndex app1 = 2) as [E|[E|E]] by lia;
      rewrite E in He; by vm_compute in He.
  - destruct (decide _) as [He|_]; [|lia].
    exfalso. revert He. clear -Hi. intros He.
    assert (mCurrFrameResourceIndex app1 = 0 \/
            mCurrFrameResourceIndex app1 = 1 \/
            mCurrFrameResourceIndex app1 = 2) as [E|[E|E]] by lia;
      rewrite E in He; by vm_compute in He.
  - lia.
Qed.


Lemma Tick_ring inp app app' events commands :
  wf app -> ring_ok app -> (mCurrentFence app + 1 < 2 ^ 64)%N ->
  Tick inp app = Some (app', events, commands) ->
  ring_ok app'.
Proof.
  intros Hwf Hring Hb Ht. apply Tick_inv in Ht as (app1 & Hupd & Hd).
  destruct (Update_wf _ _ _ _ Hwf Hupd) as [Hwf1 Hc].
  apply (Draw_ring app1 app' commands); [done| |by rewrite Hc|done].
  by apply (Update_ring inp app app1 events).
Qed.

Lemma Run_ring inputs : forall app app' outputs,
  wf app -> ring_ok app ->
  (mCurrentFence app + N.of_nat (length inputs) < 2 ^ 64)%N ->
  Run inputs app = Some (app', outputs) ->
  wf app' /\ ring_ok app'.
Proof.
  induction inputs as [|inp rest IH]; intros app app' outputs Hwf Hring Hb Hr.
  - simpl in Hr. by simplify_eq.
  - apply Run_cons_inv in Hr
      as (app1 & events & commands & outputs' & Ht & Hrest & ->).
    simpl in Hb.
    destruct (Tick_total inp app Hwf ltac:(lia))
      as (app1' & events' & commands' & Ht' & Hwf1 & Hc1).
    rewrite Ht in Ht'. simplify_eq.
    apply (IH app1' app' outputs'); [done| |lia|done].
    apply (Tick_ring inp app app1' events' commands'); [done|done|lia|done].
Qed.

Lemma Initialize_ring fence0 : ring_ok (Initialize fence0).
Proof.
  assert (forall j, slot_fence (Initialize fence0) j = 0%N) as Hz.
  { intros j. unfold slot_fence.
    change (FrameResource.Fence <$> mFrameResources (Initialize fence0))
      with [0%N; 0%N; 0%N].
    destruct (Z.to_nat _) as [|[|[|]]]; done. }
  split; rewrite ?Hz; simpl; lia.
Qed.

(** X2.  The CPU never runs more than three frames ahead of the device:
    in every state a run from [Initialize] reaches, the device's completed
    fence value is at most [mCurrentFence] and at least [mCurrentFence - 3];
    and once the next [Update] has passed its fence test, while it writes
    the slot, at most two submitted frames are still in flight. *)
Theorem frames_in_flight_bounded fence0 inputs app outputs :
  (fence0 + N.of_nat (length inputs) < 2 ^ 64)%N ->
  Run inputs (Initialize fence0) = Some (app, outputs) ->
  (Gpu.Completed (mGpu app) <= mCurrentFence app)%N /\
  (mCurrentFence app <= Gpu.Completed (mGpu app) + 3)%N /\
  forall inp app1 log,
    Update inp app = Some (app1, log) ->
    (Gpu.Completed (mGpu app1) <= mCurrentFence app1)%N /\
    (mCurrentFence app1 <= Gpu.Completed (mGpu app1) + 2)%N.
Proof.
  intros Hb Hr.
  destruct (Run_ring inputs (Initialize fence0) app outputs
              (Initialize_wf fence0) (Initialize_ring fence0) Hb Hr)
    as [Hwf Hring].
  assert (forall a, wf a -> (Gpu.Completed (mGpu a) <= mCurrentFence a)%N)
    as Hle.
  { intros a Ha. pose proof (gpu_bound _ _ _ (wf_gpu _ Ha)) as Hbd.
    unfold timeline in Hbd. by apply Forall_cons in Hbd as [? _]. }
  split; [by apply Hle|]. split; [apply (ring_3 _ Hring)|].
  intros inp app1 log Hupd.
  destruct (Update_wf _ _ _ _ Hwf Hupd) as [Hwf1 _].
  split; [by apply Hle|].
  apply (mid_0 app1). by apply (Update_ring inp app app1 log).
Qed.


Lemma draw_calls_app l1 l2 :
  draw_calls (l1 ++ l2) = draw_calls l1 ++ draw_calls l2.
Proof.
  induction l1 as [|c l1 IH]; [done|]. destruct c; simpl; by rewrite ?IH.
Qed.

Lemma DrawRenderItems_draws app fr ritems commands :
  DrawRenderItems app fr ritems = Some commands ->
  draws_of app ritems commands.
Proof.
  intros Hd. apply DrawRenderItems_inv in Hd as (chunks & -> & Hall).
  unfold draws_of. induction Hall as [|ri chunk ritems chunks Hri _ IH].
  - constructor.
  - apply DrawRenderItem_inv in Hri as (item & geo & mat & Hi & _ & _ & ->).
    simpl. constructor; [|done]. by exists item.
Qed.

Lemma draws_of_app app r1 r2 c1 c2 :
  draws_of app r1 c1 -> draws_of app r2 c2 ->
  draws_of app (r1 ++ r2) (c1 ++ c2).
Proof.
  unfold draws_of. intros H1 H2. rewrite draw_calls_app.
  by apply Forall2_app.
Qed.

Lemma draws_of_skip_l app r c1 c2 :
  draw_calls c1 = [] -> draws_of app r c2 -> draws_of app r (c1 ++ c2).
Proof. unfold draws_of. intros H1. by rewrite draw_calls_app, H1. Qed.

Lemma draws_of_skip_r app r c1 c2 :
  draws_of app r c1 -> draw_calls c2 = [] -> draws_of app r (c1 ++ c2).
Proof.
  unfold draws_of. intros H1 H2. by rewrite draw_calls_app, H2, app_nil_r.
Qed.

Lemma Draw_draws app app' commands :
  Draw app = Some (app', commands) ->
  draws_of app (draw_order app) commands.
Proof.
  intros Hd. apply Draw_inv in Hd
    as (fr & o & a & t & tr & _ & Ho & Ha & Ht & Htr & _ & ->).
  apply DrawRenderItems_draws in Ho, Ha, Ht, Htr.
  unfold Draw_commands, draw_order.
  apply draws_of_skip_l; [done|].
  apply draws_of_app; [done|].
  apply draws_of_skip_l; [done|].
  apply draws_of_app; [done|].
  apply draws_of_skip_l; [done|].
  apply draws_of_app; [done|].
  apply draws_of_skip_l; [done|].
  by apply draws_of_skip_r.
Qed.

Lemma item_draw_after e : item_draw (ritem_after e) = item_draw e.
Proof. unfold ritem_after. by destruct (0 <? _). Qed.

Lemma draws_of_after app app1 ritems commands :
  mAllRitems app1 = ritem_after <$> mAllRitems app ->
  draws_of app1 ritems commands -> draws_of app ritems commands.
Proof.
  intros Hi. unfold draws_of. intros Hd.
  eapply Forall2_impl; [exact Hd|].
  intros ri c (item & Hri & ->). rewrite Hi, list_lookup_fmap in Hri.
  destruct (mAllRitems app !! ri) as [e|] eqn:He; [|done].
  simpl in Hri. simplify_eq. exists e. by rewrite item_draw_after.
Qed.

Lemma Run_draws inputs : forall app app' outputs,
  Run inputs app = Some (app', outputs) ->
  Forall (fun o => draws_of app (draw_order app) o.2) outputs.
Proof.
  induction inputs as [|inp rest IH]; intros app app' outputs Hr.
  - simpl in Hr. simplify_eq. constructor.
  - apply Run_cons_inv in Hr
      as (app2 & events & commands & outputs' & Ht & Hrest & ->).
    pose proof (Tick_scene _ _ _ _ _ Ht) as (Hi & Hl & _).
    apply Tick_inv in Ht as (app1 & Hupd & Hd).
    pose proof (Update_scene _ _ _ _ Hupd) as (Hi1 & Hl1 & _).
    assert (draw_order app1 = draw_order app) as Ho1
      by (unfold draw_order; by rewrite Hl1).
    assert (draw_order app2 = draw_order app) as Ho2
      by (unfold draw_order; by rewrite Hl).
    constructor.
    + simpl. apply (draws_of_after app app1); [done|].
      rewrite <- Ho1. by apply (Draw_draws app1 app2).
    + apply IH in Hrest. eapply Forall_impl; [exact Hrest|].
      intros o Ho. simpl in Ho. rewrite Ho2 in Ho.
      by apply (draws_of_after app app2).
Qed.

Lemma Initialize_draw_order fence0 :
  draw_order (Initialize fence0)
  ≡ₚ seq 0 (length (mAllRitems (Initialize fence0))).
Proof. apply (bool_decide_unpack _). by vm_compute. Qed.

(** X3.  Every frame draws every render item exactly once: the layer
    lists, in the order [Draw] submits them, are a rearrangement of the
    positions of [mAllRitems], and in every tick of a run from [Initialize]
    the draw calls recorded are, in that order, one per position, each with
    the index count and start locations of the item at that position. *)
Theorem every_item_drawn_once fence0 inputs app' outputs :
  Run inputs (Initialize fence0) = Some (app', outputs) ->
  let app := Initialize fence0 in
  draw_order app ≡ₚ seq 0 (length (mAllRitems app)) /\
  length (mAllRitems app) = 143%nat /\
  Forall (fun o => draws_of app (draw_order app) o.2) outputs.
Proof.
  intros Hr app. split; [apply Initialize_draw_order|].
  split; [apply Initialize_counts|]. by apply (Run_draws inputs app app').
Qed.


(** X1.  A run changes nothing about the scene but the dirty counters and
    what [AnimateMaterials] and [UpdateWaves] animate: after [n] ticks every
    render item is the item it was with its counter lowered [n] times
    (never below zero), in the same order; the layer lists and
    [mWavesRitem] are the same; every material has the name, buffer index,
    texture index, albedo, Fresnel term and roughness it had; and every
    geometry has the index buffer it had. *)
Theorem run_changes_only_counters inputs app app' outputs :
  Run inputs app = Some (app', outputs) ->
  mAllRitems app' = ritem_after_n (length inputs) <$> mAllRitems app /\
  mRitemLayer app' = mRitemLayer app /\
  mWavesRitem app' = mWavesRitem app /\
  material_static <$> mMaterials app' = material_static <$> mMaterials app /\
  MeshGeometry.IndexBufferGPU <$> mGeometries app'
  = MeshGeometry.IndexBufferGPU <$> mGeometries app.
Proof. apply Run_scene. Qed.

Lemma store_events_app l1 l2 :
  store_events (l1 ++ l2) = store_events l1 ++ store_events l2.
Proof. unfold store_events. apply bind_app. Qed.

Lemma store_events_tag {T} slot (wrap : T -> Payload) calls :
  store_events (tag slot wrap calls) = tag slot wrap calls.
Proof.
  unfold store_events, tag. induction calls as [|c calls IH]; [done|].
  simpl. f_equal. exact IH.
Qed.

Lemma store_events_none log :
  Forall (fun e => ~ is_store e) log -> store_events log = [].
Proof.
  intros Hall. unfold store_events. apply bind_all_nil.
  intros e He. rewrite Forall_forall in Hall. specialize (Hall e He).
  destruct e; try done; by destruct Hall.
Qed.

Lemma materials_only_water gt (mats : gmap string Material.t) water :
  mats !! "water" = Some water ->
  (forall key m, key <> "water" -> mats !! key = Some m ->
     Material.NumFramesDirty m <= 0) ->
  map_to_list (<["water" := scroll_water gt water]> mats)
  ≫= (fun e => MaterialCB_call e.2)
  = [(Material.MatCBIndex water, material_constants (scroll_water gt water))].
Proof.
  intros Hw Hclean.
  set (mats' := <["water" := scroll_water gt water]> mats).
  assert (("water", scroll_water gt water) ∈ map_to_list mats') as Hin.
  { apply elem_of_map_to_list. unfold mats'. by rewrite lookup_insert_eq. }
  apply list_elem_of_lookup in Hin as [k Hk].
  rewrite (bind_at _ _ k _ Hk); [done|].
  intros k' [key m] Hk' Hne. simpl.
  assert (mats' !! key = Some m) as Hm.
  { apply elem_of_map_to_list. by apply list_elem_of_lookup; exists k'. }
  destruct (decide (key = "water")) as [->|Hkey].
  - unfold mats' in Hm. rewrite lookup_insert_eq in Hm. simplify_eq.
    destruct Hne.
    by apply (NoDup_lookup _ _ _ _ (NoDup_map_to_list mats') Hk' Hk).
  - unfold mats' in Hm. rewrite lookup_insert_ne in Hm by done.
    unfold MaterialCB_call.
    pose proof (Hclean key m Hkey Hm) as Hd.
    destruct (0 <? _) eqn:E; [|done]. apply Z.ltb_lt in E. lia.
Qed.

Lemma Update_steady inp app app1 log water :
  Update inp app = Some (app1, log) ->
  Forall (fun e => RenderItem.NumFramesDirty e <= 0) (mAllRitems app) ->
  (forall key m, key <> "water" -> mMaterials app !! key = Some m ->
     Material.NumFramesDirty m <= 0) ->
  mMaterials app !! "water" = Some water ->
  let slot := mCurrFrameResourceIndex app1 in
  store_events log =
  EvCopyData slot (Material.MatCBIndex water)
    (ToMaterialCB
       (material_constants (scroll_water (FrameInput.gt inp) water)))
  :: EvCopyData slot 0 (ToPassCB (MainPassCB inp))
  :: ((fun i => EvCopyData slot i (ToWavesVB (wave_vertex (mWaves app1) i)))
      <$> seqZ 0 (VertexCount (mWaves app1))).
Proof.
  intros Hupd Hitems Hmats Hwater slot.
  pose proof (Update_index _ _ _ _ Hupd) as Hidx.
  apply Update_inv in Hupd
    as (fr & gpu & gate & mats & tbase & waves & wavesVB & geos & waveLog
        & _ & Hgate & Ha & Hw & Happ & ->).
  apply AnimateMaterials_inv in Ha as (water' & Hwater' & ->).
  rewrite Hwater in Hwater'. injection Hwater' as <-.
  apply UpdateWaves_inv in Hw as (w1 & disturb & calls & Hrd & Hs & _ & ->).
  assert (mWaves app1 = waves) as Hwaves by (by rewrite Happ).
  unfold stream_waves in Hs. injection Hs as Hw1 _ Hcalls.
  unfold slot. rewrite Hidx. clear slot Hidx.
  unfold Update_log.
  rewrite !store_events_app, !store_events_tag.
  rewrite (store_events_none gate)
    by (by apply (FenceGate_no_store _ _ _ _ _ Hgate)).
  rewrite (store_events_none disturb)
    by (by apply (random_disturb_log _ _ _ _ _ _ Hrd)).
  rewrite (bind_all_nil ObjectCB_call).
  2:{ intros e He. rewrite Forall_forall in Hitems.
      specialize (Hitems e He). unfold ObjectCB_call.
      destruct (0 <? _) eqn:E; [|done]. apply Z.ltb_lt in E. lia. }
  rewrite (materials_only_water _ _ water Hwater Hmats).
  simpl. do 2 f_equal. unfold tag. rewrite <- Hcalls, <- list_fmap_compose.
  by rewrite Hwaves, <- Hw1.
Qed.


Lemma Initialize_items_dirty fence0 :
  Forall (fun e => RenderItem.NumFramesDirty e = gNumFrameResources)
         (mAllRitems (Initialize fence0)).
Proof. apply (bool_decide_unpack _). by vm_compute. Qed.

Lemma static_lookup (mats mats' : gmap string Material.t) key m' :
  material_static <$> mats' = material_static <$> mats ->
  mats' !! key = Some m' ->
  exists m, mats !! key = Some m /\ material_static m = material_static m'.
Proof.
  intros Hs Hk.
  assert ((material_static <$> mats') !! key
          = (material_static <$> mats) !! key) as He by (by rewrite Hs).
  rewrite !lookup_fmap, Hk in He.
  destruct (mats !! key) as [m|]; [|done].
  exists m. split; [done|].
  unfold fmap, option_fmap, option_map in He. congruence.
Qed.

(** X4.  From the fourth tick of a run on, nothing is dirty but the water:
    the stores of an [Update] are then exactly the water material's record
    at element 2 of the material buffer, the pass constants at element 0 of
    the pass buffer, and one vertex per grid point, in this order and all
    into the slot the tick selected.  No object constants are stored. *)
Theorem steady_state_stores fence0 inputs app outputs inp app1 log :
  (3 <= length inputs)%nat ->
  Run inputs (Initialize fence0) = Some (app, outputs) ->
  Update inp app = Some (app1, log) ->
  exists water,
    mMaterials app !! "water" = Some water /\
    let slot := mCurrFrameResourceIndex app1 in
    store_events log =
    EvCopyData slot 2
      (ToMaterialCB
         (material_constants (scroll_water (FrameInput.gt inp) water)))
    :: EvCopyData slot 0 (ToPassCB (MainPassCB inp))
    :: ((fun i => EvCopyData slot i
                    (ToWavesVB (wave_vertex (mWaves app1) i)))
        <$> seqZ 0 (VertexCount (mWaves app1))).
Proof.
  intros Hn Hr Hupd.
  pose proof (Run_scene _ _ _ _ Hr) as (Hi & _ & _ & Hs & _).
  pose proof (Update_stores _ _ _ _ Hupd) as (mats & Ha & _).
  apply AnimateMaterials_inv in Ha as (water & Hwater & _).
  exists water. split; [done|].
  destruct (static_lookup _ _ _ _ Hs Hwater) as (w0 & Hw0 & Hst).
  destruct BuildMaterials_water as (w0' & Hw0' & Hidx & _).
  change (mMaterials (Initialize fence0)) with BuildMaterials in Hw0.
  rewrite Hw0' in Hw0. injection Hw0 as ->.
  assert (Material.MatCBIndex water = 2) as <-.
  { rewrite <- Hidx. unfold material_static in Hst. by simplify_eq. }
  apply (Update_steady inp app app1 log water Hupd); [| |done].
  - rewrite Hi. apply Forall_fmap.
    eapply Forall_impl; [apply Initialize_items_dirty|].
    intros e He. simpl. unfold ritem_after_n. rewrite He.
    unfold gNumFrameResources. simpl. lia.
  - intros key m Hkey Hk.
    destruct (static_lookup _ _ _ _ Hs Hk) as (m0 & Hm0 & _).
    pose proof (BuildMaterials_dirty key m0 Hm0) as Hd. simpl in Hd.
    destruct (Run_material_counter _ _ _ _ key m0 Hr Hkey Hm0
                ltac:(rewrite Hd; unfold gNumFrameResources; lia))
      as (m' & Hm' & Hc).
    rewrite Hk in Hm'. injection Hm' as <-.
    rewrite Hc, Hd. unfold gNumFrameResources. lia.
Qed.


End RunInvariants.

Section StreamBounds.

Context `{WS : WavesSim} `{RS : MathHelperRandom} `{SC : SceneContent}
        `{DV : Device}.

Hypothesis Disturb_VertexCount :
  forall i j r w, VertexCount (Disturb i j r w) = VertexCount w.
Hypothesis Update_VertexCount :
  forall dt w, VertexCount (Waves_Update dt w) = VertexCount w.

Lemma Update_streams nvert inp app app' log :
  streams_ok nvert app -> Update inp app = Some (app', log) ->
  streams_ok nvert app' /\ Forall (stream_in_bounds nvert) log.
Proof.
  intros [Hv Hcap] Hupd.
  apply Update_inv in Hupd
    as (fr & gpu & gate & mats & tbase & waves & wavesVB & geos & waveLog
        & Hfr & Hgate & _ & Hw & -> & ->).
  apply UpdateWaves_inv in Hw as (w1 & disturb & calls & Hrd & Hs & _ & ->).
  unfold stream_waves in Hs. injection Hs as <- <- <-.
  assert (VertexCount w1 = nvert) as Hv1.
  { unfold random_disturb in Hrd. destruct (F32.geb _ _).
    - injection Hrd as _ <- _. by rewrite Disturb_VertexCount.
    - by injection Hrd as _ <- _. }
  apply at_index_lookup in Hfr as [_ Hfr].
  pose proof (Forall_lookup_1 _ _ _ _ Hcap Hfr) as [Hp Hwv].
  split; [split|].
  - simpl. by rewrite Update_VertexCount.
  - unfold Update_state. simpl. apply Forall_insert; [done|]. simpl.
    by rewrite CopyData_count, copy_all_count.
  - unfold Update_log. repeat (apply Forall_app; split).
    + eapply Forall_impl; [apply (FenceGate_events _ _ _ _ _ Hgate)|].
      by intros [].
    + unfold tag. apply Forall_fmap. by apply Forall_true.
    + unfold tag. apply Forall_fmap. by apply Forall_true.
    + repeat constructor. simpl. lia.
    + unfold random_disturb in Hrd. destruct (F32.geb _ _).
      * injection Hrd as _ _ <-. by repeat constructor.
      * injection Hrd as _ _ <-. constructor.
    + unfold tag. rewrite <- list_fmap_compose. apply Forall_fmap.
      apply Forall_forall. intros i Hi. simpl.
      apply elem_of_seqZ in Hi. rewrite Update_VertexCount, Hv1 in Hi. lia.
Qed.

Lemma Draw_streams nvert app app' commands :
  streams_ok nvert app -> Draw app = Some (app', commands) ->
  streams_ok nvert app'.
Proof.
  intros [Hv Hcap] Hd. apply Draw_inv in Hd
    as (fr & o & a & t & tr & Hfr & _ & _ & _ & _ & -> & _).
  apply at_index_lookup in Hfr as [_ Hfr].
  split; [done|]. unfold Draw_state. simpl.
  apply Forall_insert; [done|]. simpl.
  apply (Forall_lookup_1 _ _ _ _ Hcap Hfr).
Qed.

Lemma Run_streams nvert inputs : forall app app' outputs,
  streams_ok nvert app -> Run inputs app = Some (app', outputs) ->
  streams_ok nvert app' /\
  Forall (stream_in_bounds nvert) (run_events outputs).
Proof.
  induction inputs as [|inp rest IH]; intros app app' outputs Hok Hr.
  - simpl in Hr. simplify_eq. split; [done|constructor].
  - apply Run_cons_inv in Hr
      as (app2 & events & commands & outputs' & Ht & Hrest & ->).
    apply Tick_inv in Ht as (app1 & Hupd & Hd).
    destruct (Update_streams _ _ _ _ _ Hok Hupd) as [Hok1 Hlog].
    pose proof (Draw_streams _ _ _ _ Hok1 Hd) as Hok2.
    destruct (IH _ _ _ Hok2 Hrest) as [Hok' Hlog'].
    split; [done|]. rewrite run_events_cons. by apply Forall_app.
Qed.

Lemma Initialize_streams fence0 :
  streams_ok (VertexCount (mWaves (Initialize fence0))) (Initialize fence0).
Proof. split; [done|]. by repeat constructor. Qed.

(** X5.  Provided disturbing and advancing the simulator leave its vertex
    count alone: in every run from [Initialize], the pass constants are
    stored at element 0 only, every wave vertex is stored at an element
    below the grid's vertex count, and every frame resource keeps a pass
    buffer of one element and a wave vertex buffer of one element per grid
    vertex; so no pass or vertex store leaves its buffer. *)
Theorem pass_and_vertex_stores_within_bounds fence0 inputs app' outputs :
  Run inputs (Initialize fence0) = Some (app', outputs) ->
  let nvert := VertexCount (mWaves (Initialize fence0)) in
  Forall (stream_in_bounds nvert) (run_events outputs) /\
  VertexCount (mWaves app') = nvert /\
  Forall (fun fr =>
            UploadBuffer.mElementCount (FrameResource.PassCB fr) = 1 /\
            UploadBuffer.mElementCount (FrameResource.WavesVB fr) = nvert)
         (mFrameResources app').
Proof.
  intros Hr nvert.
  destruct (Run_streams nvert inputs _ _ _ (Initialize_streams fence0) Hr)
    as [[Hv Hcap] Hlog].
  done.
Qed.

End StreamBounds.

Section WaveIndices.

Lemma set_index_at (written rest : list Z) x v :
  0 <= v < UINT16_MOD ->
  set_index (Z.of_nat (length written)) v (written ++ x :: rest)
  = Some ((written ++ [v]) ++ rest).
Proof.
  intros Hv. unfold set_index.
  rewrite length_app. simpl.
  destruct (_ && _) eqn:Hb.
  2:{ apply andb_false_iff in Hb as [Hb|Hb];
        [apply Z.leb_gt in Hb|apply Z.ltb_ge in Hb]; lia. }
  rewrite Nat2Z.id, Z.mod_small by done.
  f_equal. rewrite insert_app_r_alt by lia.
  rewrite Nat.sub_diag. simpl. by rewrite <- app_assoc.
Qed.

Lemma int_small v : - 2 ^ 31 <= v < 2 ^ 31 -> int v = Some v.
Proof.
  intros Hv. unfold int. destruct (_ && _) eqn:Hb; [done|].
  apply andb_false_iff in Hb as [Hb|Hb];
    [apply Z.leb_gt in Hb|apply Z.ltb_ge in Hb]; lia.
Qed.

Lemma waves_quad_at n i j (written rest : list Z) :
  0 <= i -> 0 <= j -> 0 <= n -> (i + 1) * n + j + 1 < UINT16_MOD ->
  Z.of_nat (length written) + 6 < 2 ^ 31 ->
  (6 <= length rest)%nat ->
  waves_quad n i j (written ++ rest, Z.of_nat (length written))
  = Some ((written ++ quad_triangles n i j) ++ drop 6 rest,
          Z.of_nat (length (written ++ quad_triangles n i j))).
Proof.
  intros Hi Hj Hn Hmax Hk Hlen. unfold UINT16_MOD in Hmax.
  destruct rest as [|r0 [|r1 [|r2 [|r3 [|r4 [|r5 rest]]]]]];
    simpl in Hlen; try lia.
  unfold waves_quad.
  rewrite !int_small by nia. simpl.
  rewrite set_index_at by (unfold UINT16_MOD; nia). simpl.
  replace (Z.of_nat (length written) + 1)
    with (Z.of_nat (length (written ++ [i * n + j])))
    by (rewrite length_app; simpl; lia).
  rewrite set_index_at by (unfold UINT16_MOD; nia). simpl.
  replace (Z.of_nat (length written) + 2)
    with (Z.of_nat (length ((written ++ [i * n + j]) ++ [i * n + j + 1])))
    by (rewrite !length_app; simpl; lia).
  rewrite set_index_at by (unfold UINT16_MOD; nia). simpl.
  replace (Z.of_nat (length written) + 3)
    with (Z.of_nat (length (((written ++ [i * n + j]) ++ [i * n + j + 1])
                            ++ [(i + 1) * n + j])))
    by (rewrite !length_app; simpl; lia).
  rewrite set_index_at by (unfold UINT16_MOD; nia). simpl.
  replace (Z.of_nat (length written) + 4)
    with (Z.of_nat (length ((((written ++ [i * n + j]) ++ [i * n + j + 1])
                             ++ [(i + 1) * n + j]) ++ [(i + 1) * n + j])))
    by (rewrite !length_app; simpl; lia).
  rewrite set_index_at by (unfold UINT16_MOD; nia). simpl.
  replace (Z.of_nat (length written) + 5)
    with (Z.of_nat (length (((((written ++ [i * n + j]) ++ [i * n + j + 1])
                              ++ [(i + 1) * n + j]) ++ [(i + 1) * n + j])
                            ++ [i * n + j + 1])))
    by (rewrite !length_app; simpl; lia).
  rewrite set_index_at by (unfold UINT16_MOD; nia). simpl.
  unfold quad_triangles. rewrite <- !app_assoc. simpl.
  do 2 f_equal. rewrite !length_app. simpl. lia.
Qed.


Lemma for_each_cons {A S} (x : A) l (body : A -> S -> option S) st :
  for_each (x :: l) body st = body x st ≫= for_each l body.
Proof. done. Qed.

Lemma length_quads n i (js : list Z) :
  length (js ≫= quad_triangles n i) = (6 * length js)%nat.
Proof.
  induction js as [|j js IH]; [done|].
  rewrite bind_cons, length_app, IH. simpl. lia.
Qed.

Lemma waves_row_at n i : forall (js written rest : list Z),
  0 <= i -> 0 <= n ->
  Forall (fun j => 0 <= j /\ (i + 1) * n + j + 1 < UINT16_MOD) js ->
  Z.of_nat (length written) + 6 * Z.of_nat (length js) < 2 ^ 31 ->
  (6 * length js <= length rest)%nat ->
  for_each js (waves_quad n i) (written ++ rest, Z.of_nat (length written))
  = Some ((written ++ (js ≫= quad_triangles n i))
          ++ drop (6 * length js) rest,
          Z.of_nat (length (written ++ (js ≫= quad_triangles n i)))).
Proof.
  induction js as [|j js IH]; intros written rest Hi Hn Hjs Hk Hlen.
  - simpl. by rewrite app_nil_r.
  - apply Forall_cons in Hjs as [[Hj Hmax] Hjs].
    rewrite length_cons in Hk, Hlen. rewrite for_each_cons.
    rewrite waves_quad_at by (try done; lia). cbn [mbind option_bind].
    rewrite IH; [|done|done|done| |].
    + rewrite bind_cons, drop_drop, length_cons, !app_assoc.
      by replace (6 * S (length js))%nat with (6 + 6 * length js)%nat by lia.
    + rewrite length_app. simpl. lia.
    + rewrite length_drop. lia.
Qed.

Lemma length_rows n (js rws : list Z) :
  length (rws ≫= fun i => js ≫= quad_triangles n i)
  = (6 * length js * length rws)%nat.
Proof.
  induction rws as [|i rws IH]; [simpl; lia|].
  rewrite bind_cons, length_app, IH, length_quads, length_cons. nia.
Qed.

Lemma waves_rows_at n (js : list Z) : forall (rws written rest : list Z),
  0 <= n ->
  Forall (fun i => 0 <= i /\
            Forall (fun j => 0 <= j /\ (i + 1) * n + j + 1 < UINT16_MOD) js)
         rws ->
  Z.of_nat (length written)
  + 6 * Z.of_nat (length js) * Z.of_nat (length rws) < 2 ^ 31 ->
  (6 * length js * length rws <= length rest)%nat ->
  for_each rws (fun i => for_each js (waves_quad n i))
    (written ++ rest, Z.of_nat (length written))
  = Some ((written ++ (rws ≫= fun i => js ≫= quad_triangles n i))
          ++ drop (6 * length js * length rws) rest,
          Z.of_nat
            (length (written
                     ++ (rws ≫= fun i => js ≫= quad_triangles n i)))).
Proof.
  induction rws as [|i rws IH]; intros written rest Hn Hrws Hk Hlen.
  - simpl. rewrite app_nil_r, Nat.mul_0_r. done.
  - apply Forall_cons in Hrws as [[Hi Hjs] Hrws].
    rewrite length_cons in Hk, Hlen. rewrite for_each_cons.
    rewrite waves_row_at by (try done; nia). cbn [mbind option_bind].
    rewrite IH; [|done|done| |].
    + rewrite bind_cons, drop_drop, length_cons, !app_assoc.
      by replace (6 * length js * S (length rws))%nat
        with (6 * length js + 6 * length js * length rws)%nat by lia.
    + rewrite length_app, length_quads. nia.
    + rewrite length_drop. nia.
Qed.

Lemma grid_triangles_bounds m n :
  1 <= m -> 1 <= n ->
  Forall (fun v => 0 <= v < m * n) (grid_triangles m n).
Proof.
  intros Hm Hn. unfold grid_triangles. apply Forall_forall. intros v Hv.
  apply list_elem_of_bind in Hv as (i & Hv & Hi).
  apply list_elem_of_bind in Hv as (j & Hv & Hj).
  apply elem_of_seqZ in Hi, Hj. unfold quad_triangles in Hv.
  repeat (apply elem_of_cons in Hv as [->|Hv]; [nia|]).
  by apply elem_of_nil in Hv.
Qed.

(** X6.  For a grid of [m] rows and [n] columns with fewer than 65535
    vertices (the assertion at the top of [BuildWavesGeometry]) and a
    triangle count that covers its quads and whose triple is an [int]: the
    index list is the six
    corners of the two triangles of every quad, row by row, followed by
    the zeros the vector was created with; no index is cut by the
    conversion to 16 bits, and every index is that of a grid vertex. *)
Theorem wave_index_buffer_valid triangleCount m n :
  1 <= m -> 1 <= n -> m * n < 65535 ->
  2 * ((m - 1) * (n - 1)) <= triangleCount -> 3 * triangleCount < 2 ^ 31 ->
  BuildWavesGeometry_indices triangleCount m n
  = Some (grid_triangles m n
          ++ replicate
               (Z.to_nat (3 * triangleCount - 6 * ((m - 1) * (n - 1)))) 0) /\
  length (grid_triangles m n) = Z.to_nat (6 * ((m - 1) * (n - 1))) /\
  Forall (fun v => 0 <= v < m * n) (grid_triangles m n).
Proof.
  intros Hm Hn Hv Htc Hint.
  assert (length (grid_triangles m n) = Z.to_nat (6 * ((m - 1) * (n - 1))))
    as Hlen.
  { unfold grid_triangles. rewrite length_rows, !length_seqZ. nia. }
  split; [|split; [done|by apply grid_triangles_bounds]].
  unfold BuildWavesGeometry_indices.
  rewrite int_small by nia. cbn [mbind option_bind].
  pose proof (waves_rows_at n (seqZ 0 (n - 1)) (seqZ 0 (m - 1)) []
                (replicate (Z.to_nat (3 * triangleCount)) 0)) as Hrows.
  change (Z.of_nat (length (@nil Z))) with 0 in Hrows.
  change ([] ++ ?l) with l in Hrows. rewrite Hrows; clear Hrows.
  - simpl. f_equal. unfold grid_triangles. f_equal.
    rewrite drop_replicate, !length_seqZ. f_equal. nia.
  - lia.
  - apply Forall_forall. intros i Hi. apply elem_of_seqZ in Hi.
    split; [lia|]. apply Forall_forall. intros j Hj.
    apply elem_of_seqZ in Hj. unfold UINT16_MOD. nia.
  - rewrite !length_seqZ. nia.
  - rewrite length_replicate, !length_seqZ. nia.
Qed.

End WaveIndices.

Section StartUp.

(** X7.  The tree-sprite buffers: each of the 24 vertices gets a position
    (the chain of [if]s covers every [i] below [treeCount]); the index
    array has 24 entries, each the index of one of the 24 vertices; but the
    initialiser lists only 23 values and skips 10, so vertex 10 is never
    referenced (it has the position of vertex 11), and the last entry, left
    zero, refers to vertex 0 a second time. *)
Theorem tree_sprite_buffers :
  length BuildTreeSprites_vertices = 24%nat /\
  Forall (fun v => is_Some v.1) BuildTreeSprites_vertices /\
  length BuildTreeSprites_indices = 24%nat /\
  Forall (fun i => 0 <= i < treeCount) BuildTreeSprites_indices /\
  (10 ∉ BuildTreeSprites_indices) /\
  BuildTreeSprites_vertices !! 10%nat = BuildTreeSprites_vertices !! 11%nat /\
  BuildTreeSprites_indices !! 0%nat = Some 0 /\
  BuildTreeSprites_indices !! 23%nat = Some 0 /\
  (forall i, 0 <= i < treeCount -> i <> 10 -> i ∈ BuildTreeSprites_indices).
Proof.
  split; [done|]. split.
  { apply (bool_decide_unpack _). by vm_compute. }
  split; [done|]. split.
  { apply (bool_decide_unpack _). by vm_compute. }
  split.
  { apply (bool_decide_unpack _). by vm_compute. }
  split; [by vm_compute|].
  split; [done|]. split; [done|].
  intros i Hi Hne. unfold treeCount in Hi.
  assert (Forall (fun i => i = 10 \/ i ∈ BuildTreeSprites_indices)
                 (seqZ 0 24)) as Hall.
  { apply (bool_decide_unpack _). by vm_compute. }
  rewrite Forall_forall in Hall.
  destruct (Hall i) as [?|?]; [apply elem_of_seqZ; lia|done|done].
Qed.


End StartUp.

Section Resources.

Context `{WS : WavesSim} `{RS : MathHelperRandom} `{SC : SceneContent}
        `{DV : Device}.

Lemma BuildDescriptorHeaps_missing size (textures : gmap string Texture.t)
    name :
  name ∈ srv_textures -> textures !! name = None ->
  BuildDescriptorHeaps size textures = None.
Proof.
  intros Hin Hnone. unfold BuildDescriptorHeaps, srv_textures in *.
  repeat (apply elem_of_cons in Hin as [->|Hin];
          [rewrite Hnone;
           repeat (destruct (textures !! _); simpl; try done)|]).
  by apply elem_of_nil in Hin.
Qed.

Lemma BuildMaterials_textures :
  map_Forall
    (fun key m =>
       0 <= Material.DiffuseSrvHeapIndex m < 12 /\
       (Material.DiffuseSrvHeapIndex m = 11 <-> key = "treeSprites"))
    BuildMaterials.
Proof. apply (bool_decide_unpack _). by vm_compute. Qed.

(** X8.  The texture descriptors: [BuildDescriptorHeaps] finds every
    texture it looks up among those [LoadTextures] stored (a missing one
    would leave it without a defined result); it fills the heap of 12
    descriptors exactly, the view of position [k] at [k] descriptor sizes
    from the start, and only the last one is a 2D array view; and in every
    state of a run the texture index of every material is the position of
    one of these views, the array view for the tree sprites' material and
    for no other. *)
Theorem material_textures_in_heap fence0 inputs app outputs :
  Run inputs (Initialize fence0) = Some (app, outputs) ->
  exists heap,
    BuildDescriptorHeaps mCbvSrvDescriptorSize LoadTextures = Some heap /\
    Z.of_nat (length (SrvHeap.Views heap)) = SrvHeap.NumDescriptors heap /\
    (forall k view,
       SrvHeap.Views heap !! k = Some view ->
       ShaderResourceView.Offset view = Z.of_nat k * mCbvSrvDescriptorSize /\
       (ShaderResourceView.ViewDimension view = SRV_DIMENSION_TEXTURE2DARRAY
        <-> k = 11%nat)) /\
    map_Forall
      (fun key m =>
         0 <= Material.DiffuseSrvHeapIndex m < SrvHeap.NumDescriptors heap /\
         (Material.DiffuseSrvHeapIndex m = 11 <-> key = "treeSprites"))
      (mMaterials app) /\
    (forall (textures : gmap string Texture.t) name,
       name ∈ srv_textures -> textures !! name = None ->
       BuildDescriptorHeaps mCbvSrvDescriptorSize textures = None).
Proof.
  intros Hr. eexists. split.
  { unfold BuildDescriptorHeaps.
    repeat match goal with
    | |- context [LoadTextures !! ?n] =>
        let v := eval vm_compute in (LoadTextures !! n) in
        let H := fresh in
        assert (LoadTextures !! n = v) as H by (vm_compute; reflexivity);
        rewrite H; clear H
    end.
    cbn [mbind option_bind foldl add_view fst snd Datatypes.app Texture.Name].
    reflexivity. }
  split; [reflexivity|]. split; [|split].
  - intros k view Hk.
    do 12 (destruct k as [|k];
           [injection Hk as <-;
            cbn [ShaderResourceView.Offset ShaderResourceView.ViewDimension];
            split; [lia|done]|]).
    done.
  - intros key m Hk.
    pose proof (Run_scene _ _ _ _ Hr) as (_ & _ & _ & Hs & _).
    destruct (static_lookup _ _ _ _ Hs Hk) as (m0 & Hm0 & Hst).
    pose proof (BuildMaterials_textures key m0 Hm0) as Hm. simpl in Hm.
    assert (Material.DiffuseSrvHeapIndex m = Material.DiffuseSrvHeapIndex m0)
      as -> by (unfold material_static in Hst; by simplify_eq).
    done.
  - intros textures name. apply BuildDescriptorHeaps_missing.
Qed.


Lemma draw_contexts_app pso t l1 l2 :
  draw_contexts pso t (l1 ++ l2)
  = draw_contexts pso t l1
    ++ draw_contexts (final_context pso t l1).1 (final_context pso t l1).2 l2.
Proof.
  revert pso t. induction l1 as [|c l1 IH]; intros pso t; [done|].
  destruct c; simpl; by rewrite ?IH.
Qed.

Lemma final_context_app pso t l1 l2 :
  final_context pso t (l1 ++ l2)
  = final_context (final_context pso t l1).1 (final_context pso t l1).2 l2.
Proof.
  revert pso t. induction l1 as [|c l1 IH]; intros pso t; [done|].
  destruct c; simpl; by rewrite ?IH.
Qed.

Lemma DrawRenderItems_contexts app fr ritems commands T :
  DrawRenderItems app fr ritems = Some commands ->
  Forall (fun ri => RenderItem.PrimitiveType <$> mAllRitems app !! ri
                    = Some T) ritems ->
  forall pso t,
    Forall (fun c => c = (pso, Some T)) (draw_contexts pso t commands) /\
    (final_context pso t commands).1 = pso.
Proof.
  intros Hd Htyped. apply DrawRenderItems_inv in Hd as (chunks & -> & Hall).
  induction Hall as [|ri chunk ritems chunks Hri _ IH]; intros pso t.
  - split; [constructor|done].
  - apply Forall_cons in Htyped as [Hty Htyped].
    apply DrawRenderItem_inv in Hri as (item & geo & mat & Hi & _ & _ & ->).
    rewrite Hi in Hty. simpl in Hty. injection Hty as Hty.
    destruct (IH Htyped pso (Some T)) as [IH1 IH2].
    simpl. rewrite Hty. split; [|done]. by constructor.
Qed.

Lemma BuildPSOs_layers :
  exists psos,
    BuildPSOs BuildShaders = Some psos /\
    forall layer pso,
      (layer, pso) ∈ layer_psos ->
      context_ok psos (pso, Some (layer_topology layer)).
Proof.
  unfold BuildPSOs.
  repeat match goal with
  | |- context [BuildShaders !! ?n] =>
      let v := eval vm_compute in (BuildShaders !! n) in
      let H := fresh in
      assert (BuildShaders !! n = v) as H by (vm_compute; reflexivity);
      rewrite H; clear H
  end.
  cbn [mbind option_bind]. eexists. split; [reflexivity|].
  intros layer pso Hin. unfold layer_psos in Hin.
  repeat (apply elem_of_cons in Hin as [Hin|Hin];
          [injection Hin as -> ->; unfold context_ok; cbn [fst snd];
           eexists _, _;
           split; [by rewrite ?lookup_insert_eq,
                      ?(lookup_insert_ne _ _ _ _ ltac:(done)),
                      ?lookup_insert_eq
                  |done]|]).
  by apply elem_of_nil in Hin.
Qed.

Lemma Draw_contexts (psos : gmap string PsoDesc.t) app app' commands :
  (forall layer pso,
     (layer, pso) ∈ layer_psos ->
     context_ok psos (pso, Some (layer_topology layer))) ->
  layers_typed app -> Draw app = Some (app', commands) ->
  Forall (context_ok psos) (draw_contexts no_pso None commands).
Proof.
  intros Hok Htyped Hd.
  apply Draw_inv in Hd
    as (fr & o & a & t & tr & _ & Ho & Ha & Ht & Htr & _ & ->).
  pose proof (DrawRenderItems_contexts _ _ _ _ _ Ho (Htyped Opaque)) as Co.
  pose proof (DrawRenderItems_contexts _ _ _ _ _ Ha (Htyped AlphaTested))
    as Ca.
  pose proof (DrawRenderItems_contexts _ _ _ _ _ Ht
                (Htyped AlphaTestedTreeSprites)) as Ct.
  pose proof (DrawRenderItems_contexts _ _ _ _ _ Htr (Htyped Transparent))
    as Ctr.
  unfold Draw_commands.
  rewrite draw_contexts_app.
  change (draw_contexts no_pso None (Draw_prologue fr)) with
    (@nil (string * option D3D_PRIMITIVE_TOPOLOGY)).
  change (final_context no_pso None (Draw_prologue fr))
    with ("opaque", @None D3D_PRIMITIVE_TOPOLOGY).
  cbn [fst snd Datatypes.app].
  rewrite draw_contexts_app. apply Forall_app. split.
  { eapply Forall_impl; [apply (Co "opaque" None)|].
    intros c ->. apply (Hok Opaque). unfold layer_psos; repeat first [apply list_elem_of_here | apply list_elem_of_further]. }
  destruct (final_context "opaque" None o) as [p1 t1] eqn:E1.
  pose proof (proj2 (Co "opaque" None)) as Hp1. rewrite E1 in Hp1.
  simpl in Hp1. subst p1. cbn [fst snd].
  cbn [draw_contexts Datatypes.app].
  rewrite draw_contexts_app. apply Forall_app. split.
  { eapply Forall_impl; [apply (Ca "alphaTested" t1)|].
    intros c ->. apply (Hok AlphaTested). unfold layer_psos; repeat first [apply list_elem_of_here | apply list_elem_of_further]. }
  destruct (final_context "alphaTested" t1 a) as [p2 t2] eqn:E2.
  cbn [fst snd].
  cbn [draw_contexts Datatypes.app].
  rewrite draw_contexts_app. apply Forall_app. split.
  { eapply Forall_impl; [apply (Ct "treeSprites" t2)|].
    intros c ->. apply (Hok AlphaTestedTreeSprites). unfold layer_psos; repeat first [apply list_elem_of_here | apply list_elem_of_further]. }
  destruct (final_context "treeSprites" t2 t) as [p3 t3] eqn:E3.
  cbn [fst snd].
  cbn [draw_contexts Datatypes.app].
  rewrite draw_contexts_app. apply Forall_app. split.
  { eapply Forall_impl; [apply (Ctr "transparent" t3)|].
    intros c ->. apply (Hok Transparent). unfold layer_psos; repeat first [apply list_elem_of_here | apply list_elem_of_further]. }
  destruct (final_context "transparent" t3 tr) as [p4 t4].
  cbn [fst snd draw_contexts]. constructor.
Qed.


Lemma layers_typed_after (f : RenderItem.t -> RenderItem.t) app app' :
  (forall e, RenderItem.PrimitiveType (f e) = RenderItem.PrimitiveType e) ->
  mAllRitems app' = f <$> mAllRitems app ->
  mRitemLayer app' = mRitemLayer app ->
  layers_typed app -> layers_typed app'.
Proof.
  intros Hf Hi Hl Htyped layer. rewrite Hl.
  eapply Forall_impl; [apply (Htyped layer)|].
  intros ri Hri. simpl in *. rewrite Hi, list_lookup_fmap.
  destruct (mAllRitems app !! ri) as [e|]; [|done].
  simpl in *. by rewrite Hf.
Qed.

Lemma PrimitiveType_after e :
  RenderItem.PrimitiveType (ritem_after e) = RenderItem.PrimitiveType e.
Proof. unfold ritem_after. by destruct (0 <? _). Qed.

Lemma Initialize_layers_typed fence0 : layers_typed (Initialize fence0).
Proof.
  intros layer. apply (bool_decide_unpack _). by destruct layer; vm_compute.
Qed.

Lemma Run_contexts (psos : gmap string PsoDesc.t) inputs :
  forall app app' outputs,
  (forall layer pso,
     (layer, pso) ∈ layer_psos ->
     context_ok psos (pso, Some (layer_topology layer))) ->
  layers_typed app ->
  Run inputs app = Some (app', outputs) ->
  Forall (fun o => Forall (context_ok psos) (draw_contexts no_pso None o.2))
         outputs.
Proof.
  induction inputs as [|inp rest IH]; intros app app' outputs Hok Hty Hr.
  - simpl in Hr. simplify_eq. constructor.
  - apply Run_cons_inv in Hr
      as (app2 & events & commands & outputs' & Ht & Hrest & ->).
    apply Tick_inv in Ht as (app1 & Hupd & Hd).
    pose proof (Update_scene _ _ _ _ Hupd) as (Hi1 & Hl1 & _).
    pose proof (Draw_entities _ _ _ Hd) as (Hi2 & _ & _ & Hl2).
    assert (layers_typed app1) as Hty1
      by (by apply (layers_typed_after ritem_after app);
          [apply PrimitiveType_after|..]).
    assert (layers_typed app2) as Hty2
      by (by apply (layers_typed_after id app1);
          [|rewrite list_fmap_id|..]).
    constructor; [by apply (Draw_contexts psos app1 app2)|].
    by apply (IH app2 app').
Qed.

(** X9.  Every draw call is recorded under a pipeline state that
    [BuildPSOs] created, and whose primitive topology type is that of the
    topology set for the call: [BuildPSOs] finds every shader it looks up
    among those [BuildShadersAndInputLayouts] compiled, and in every tick
    of a run from [Initialize] the tree sprites, which are point lists, are
    drawn under "treeSprites", the only state of point type, and all
    triangle lists under the states of triangle type. *)
Theorem draws_match_pipeline_state fence0 inputs app' outputs :
  Run inputs (Initialize fence0) = Some (app', outputs) ->
  exists psos,
    BuildPSOs BuildShaders = Some psos /\
    Forall (fun o =>
              Forall (context_ok psos) (draw_contexts no_pso None o.2))
           outputs.
Proof.
  intros Hr. destruct BuildPSOs_layers as (psos & Hpsos & Hok).
  exists psos. split; [done|].
  by apply (Run_contexts psos inputs (Initialize fence0) app' outputs Hok
              (Initialize_layers_typed fence0)).
Qed.

Lemma root_chunk_ok bound vb ib topo tex objCB matCB a b c d e rest :
  2 ∈ bound ->
  root_arguments_ok BuildRootSignature bound
    ([ IASetVertexBuffers vb; IASetIndexBuffer ib;
       IASetPrimitiveTopology topo;
       SetGraphicsRootDescriptorTable 0 tex;
       SetGraphicsRootConstantBufferView 1 objCB;
       SetGraphicsRootConstantBufferView 3 matCB;
       DrawIndexedInstanced a b c d e ] ++ rest)
  = root_arguments_ok BuildRootSignature (3 :: 1 :: 0 :: bound) rest.
Proof.
  intros H2. cbn [Datatypes.app root_arguments_ok at_index].
  change (at_index 0 BuildRootSignature)
    with (Some (RootDescriptorTable 1 0)).
  change (at_index 1 BuildRootSignature)
    with (Some (RootConstantBufferView 0)).
  change (at_index 3 BuildRootSignature)
    with (Some (RootConstantBufferView 2)).
  cbn iota.
  change (seqZ 0 (Z.of_nat (length BuildRootSignature))) with [0; 1; 2; 3].
  cbn [forallb]. rewrite !bool_decide_true; [done|..]; set_solver.
Qed.

Lemma root_items_ok app fr ritems commands :
  DrawRenderItems app fr ritems = Some commands ->
  forall bound, 2 ∈ bound ->
  exists bound', 2 ∈ bound' /\
    forall rest,
      root_arguments_ok BuildRootSignature bound (commands ++ rest)
      = root_arguments_ok BuildRootSignature bound' rest.
Proof.
  intros Hd. apply DrawRenderItems_inv in Hd as (chunks & -> & Hall).
  induction Hall as [|ri chunk ritems chunks Hri _ IH]; intros bound H2.
  - by exists bound.
  - apply DrawRenderItem_inv in Hri as (item & geo & mat & _ & _ & _ & ->).
    destruct (IH (3 :: 1 :: 0 :: bound) ltac:(set_solver))
      as (bound' & H2' & Hrest).
    exists bound'. split; [done|]. intros rest.
    change (mjoin (?c :: ?cs)) with (c ++ mjoin cs).
    rewrite <- app_assoc, root_chunk_ok by done. apply Hrest.
Qed.

(** X10.  [Draw] uses the root signature of [BuildRootSignature] as it is
    declared: the descriptor table is set into parameter 0 and constant
    buffers into parameters 1, 2 and 3, never the other way round, and at
    every draw call all four parameters have been set since the
    signature was: the pass constants once per frame, the texture, object
    and material arguments once per item. *)
Theorem draw_binds_every_root_parameter app app' commands :
  Draw app = Some (app', commands) ->
  root_arguments_ok BuildRootSignature [] commands = true.
Proof.
  intros Hd. apply Draw_inv in Hd
    as (fr & o & a & t & tr & _ & Ho & Ha & Ht & Htr & _ & ->).
  unfold Draw_commands, Draw_prologue.
  cbn [Datatypes.app root_arguments_ok].
  change (at_index 2 BuildRootSignature)
    with (Some (RootConstantBufferView 1)).
  cbn iota.
  destruct (root_items_ok _ _ _ _ Ho [2] ltac:(set_solver))
    as (b1 & H1 & ->).
  cbn [Datatypes.app root_arguments_ok].
  destruct (root_items_ok _ _ _ _ Ha b1 H1) as (b2 & H2 & ->).
  cbn [Datatypes.app root_arguments_ok].
  destruct (root_items_ok _ _ _ _ Ht b2 H2) as (b3 & H3 & ->).
  cbn [Datatypes.app root_arguments_ok].
  destruct (root_items_ok _ _ _ _ Htr b3 H3) as (b4 & H4 & ->).
  done.
Qed.

End Resources.

Section RenderItemLookups.

Lemma add_ritem_ext (SC1 SC2 : SceneContent) layer w1 w2 tex mat geo sub
    topo st1 st2 :
  (forall i, w1 i = w2 i) ->
  @DrawArgs SC1 geo sub = @DrawArgs SC2 geo sub ->
  st1 = st2 ->
  @add_ritem SC1 layer w1 tex mat geo sub topo st1
  = @add_ritem SC2 layer w2 tex mat geo sub topo st2.
Proof. intros Hw Hd ->. unfold add_ritem. by rewrite Hw, Hd. Qed.

Lemma loop_ext n (b1 b2 : RitemBuild -> RitemBuild) st1 st2 :
  (forall s1 s2, s1 = s2 -> b1 s1 = b2 s2) ->
  st1 = st2 -> loop n b1 st1 = loop n b2 st2.
Proof.
  intros Hb ->. unfold loop. induction n as [|n IH]; [done|].
  simpl. by apply Hb.
Qed.

(** X11.  [BuildRenderItems] reads draw arguments only under keys that a
    geometry builder registered: two scenes that place the items alike and
    agree on the draw arguments of the twelve registered (geometry,
    submesh) pairs get the same render items and layers, whatever either
    holds under any other key. *)
Theorem render_items_read_registered_submeshes (SC1 SC2 : SceneContent) :
  (forall i, @placement SC1 i = @placement SC2 i) ->
  (forall geo sub, (geo, sub) ∈ registered_submeshes ->
     @DrawArgs SC1 geo sub = @DrawArgs SC2 geo sub) ->
  @BuildRenderItems SC1 = @BuildRenderItems SC2.
Proof.
  intros Hp Hd. unfold BuildRenderItems. cbv zeta.
  repeat lazymatch goal with
  | H : ?a = ?b |- ?a = ?b => exact H
  | |- mkRitemBuild _ _ _ = mkRitemBuild _ _ _ => reflexivity
  | |- loop _ _ _ = loop _ _ _ => apply loop_ext; [intros ? ? ?|]
  | |- add_ritem _ _ _ _ _ _ _ _ = add_ritem _ _ _ _ _ _ _ _ =>
      apply add_ritem_ext;
        [ first [exact Hp | intros; reflexivity]
        | apply Hd; apply (bool_decide_unpack _); by vm_compute
        | ]
  | |- _ => progress unfold add_box, add_wedge, add_grasswall, add_prism,
        wedge_pair, corner_tower, gate, add_placed
  end.
Qed.

End RenderItemLookups.

Section FenceTests.

Context `{WS : WavesSim} `{RS : MathHelperRandom} `{SC : SceneContent}
        `{DV : Device}.

Lemma fence_events_app l1 l2 :
  fence_events (l1 ++ l2) = fence_events l1 ++ fence_events l2.
Proof. unfold fence_events. apply bind_app. Qed.

Lemma fence_events_none log :
  Forall (fun e => match e with
                   | EvGetCompletedValue _ | EvWaitForFence _ => False
                   | _ => True
                   end) log ->
  fence_events log = [].
Proof.
  intros Hall. unfold fence_events. apply bind_all_nil.
  intros e He. rewrite Forall_forall in Hall. specialize (Hall e He).
  by destruct e.
Qed.

Lemma fence_events_gate fence completed gate :
  gate_outcome fence completed gate -> fence_events gate = gate.
Proof. by intros [[_ ->]|[(_ & _ & ->)|(_ & _ & ->)]]. Qed.

(** [Update] selects the next slot and leaves the fences alone. *)
Lemma Update_slot_fence inp app app1 log j :
  wf app -> Update inp app = Some (app1, log) ->
  slot_fence app1 j = slot_fence app (j + 1).
Proof.
  intros Hwf Hupd. pose proof (wf_index _ Hwf) as Hi.
  pose proof (Update_scene _ _ _ _ Hupd) as (_ & _ & _ & _ & _ & Hf & _).
  pose proof (Update_index _ _ _ _ Hupd) as Hidx.
  unfold slot_fence. rewrite Hf, Hidx.
  by rewrite ring_index_shift by lia.
Qed.

Lemma ring_back i j :
  0 <= i < gNumFrameResources -> 1 <= j <= 3 ->
  (i + j) mod gNumFrameResources = i <-> j = 3.
Proof.
  unfold gNumFrameResources. intros Hi Hj.
  assert (i = 0 \/ i = 1 \/ i = 2) as [-> | [-> | ->]] by lia;
    assert (j = 1 \/ j = 2 \/ j = 3) as [-> | [-> | ->]] by lia;
    by vm_compute.
Qed.

(** [Draw] stamps the current slot with the new fence value. *)
Lemma Draw_slot_fence app1 app' commands j :
  wf app1 -> Draw app1 = Some (app', commands) -> 1 <= j <= 3 ->
  mCurrentFence app' = next_fence app1 /\
  slot_fence app' j
  = if decide (j = 3) then next_fence app1 else slot_fence app1 j.
Proof.
  intros Hwf Hd Hj.
  pose proof (wf_index _ Hwf) as Hi. pose proof (wf_frames _ Hwf) as Hlen.
  apply Draw_inv in Hd
    as (fr & o & a & t & tr & Hfr & _ & _ & _ & _ & -> & _).
  split; [done|].
  pose proof (ring_back _ j Hi Hj) as Hback.
  assert (0 <= (mCurrFrameResourceIndex app1 + j) mod gNumFrameResources
          < gNumFrameResources) as Hm
    by (apply Z.mod_pos_bound; unfold gNumFrameResources; lia).
  unfold slot_fence, Draw_state. simpl. rewrite list_fmap_insert. simpl.
  destruct (decide (j = 3)) as [Hj3|Hj3].
  - apply Hback in Hj3. rewrite Hj3, list_lookup_insert_eq; [done|].
    rewrite length_fmap, Hlen. unfold gNumFrameResources in Hi. lia.
  - rewrite list_lookup_insert_ne; [done|].
    intros He. apply Hj3, Hback. lia.
Qed.

Lemma Tick_stamped fence0 t inp app app' events commands :
  wf app -> slots_stamped fence0 t app ->
  (mCurrentFence app + 1 < 2 ^ 64)%N ->
  Tick inp app = Some (app', events, commands) ->
  slots_stamped fence0 (S t) app'.
Proof.
  intros Hwf [Hc Hs] Hb Ht. apply Tick_inv in Ht as (app1 & Hupd & Hd).
  destruct (Update_wf _ _ _ _ Hwf Hupd) as [Hwf1 Hc1].
  assert (next_fence app1 = (fence0 + N.of_nat (S t))%N) as Hnext.
  { rewrite next_fence_small by (by rewrite Hc1). rewrite Hc1, Hc. lia. }
  split.
  - by destruct (Draw_slot_fence _ _ _ 1 Hwf1 Hd ltac:(lia)) as [-> _].
  - intros j Hj.
    destruct (Draw_slot_fence _ _ _ j Hwf1 Hd Hj) as [_ ->].
    destruct (decide (j = 3)) as [->|Hj3].
    + rewrite Hnext, decide_False by lia. lia.
    + rewrite (Update_slot_fence _ _ _ _ j Hwf Hupd), Hs by lia.
      repeat destruct (decide _); lia.
Qed.

(** The fence events of an [Update] are those of its fence test, on the
    fence of the slot one place ahead. *)
Lemma Update_fence_events inp app app1 log :
  wf app -> Update inp app = Some (app1, log) ->
  exists completed,
    gate_outcome (slot_fence app 1) completed (fence_events log).
Proof.
  intros Hwf Hupd. pose proof (wf_index _ Hwf) as Hi.
  apply Update_inv in Hupd
    as (fr & gpu & gate & mats & tbase & waves & wavesVB & geos & waveLog
        & Hfr & Hgate & _ & Hw & _ & ->).
  assert (slot_fence app 1 = FrameResource.Fence fr) as ->.
  { unfold slot_fence. apply at_index_lookup in Hfr as [_ Hfr].
    rewrite Z.rem_mod_nonneg in Hfr by (unfold gNumFrameResources; lia).
    by rewrite list_lookup_fmap, Hfr. }
  apply UpdateWaves_only_vertices in Hw.
  apply FenceGate_spec in Hgate as [_ Hout].
  exists (Gpu.Completed (Gpu.advance (FrameInput.gpu_progress inp)
                           (mGpu app))).
  unfold Update_log. rewrite !fence_events_app.
  rewrite (fence_events_gate _ _ _ Hout).
  rewrite !(fence_events_none (tag _ _ _))
    by (unfold tag; apply Forall_fmap, Forall_forall; by intros c _).
  rewrite (fence_events_none waveLog), app_nil_r; [done|].
  eapply Forall_impl; [exact Hw|]. by intros [| |? ? []|].
Qed.

Lemma Run_fence_tests fence0 inputs : forall t app app' outputs,
  wf app -> slots_stamped fence0 t app ->
  (mCurrentFence app + N.of_nat (length inputs) < 2 ^ 64)%N ->
  Run inputs app = Some (app', outputs) ->
  forall k o, outputs !! k = Some o ->
    exists completed,
      gate_outcome
        (if decide (t + k < 3)%nat then 0%N
         else (fence0 + N.of_nat (t + k) - 2)%N)
        completed (fence_events o.1.2).
Proof.
  induction inputs as [|inp rest IH];
    intros t app app' outputs Hwf Hst Hb Hr k o Hk.
  - simpl in Hr. by simplify_eq.
  - apply Run_cons_inv in Hr
      as (app1 & events & commands & outputs' & Ht & Hrest & ->).
    simpl in Hb.
    destruct (Tick_total inp app Hwf ltac:(lia))
      as (app1' & events' & commands' & Ht' & Hwf1 & Hc1).
    rewrite Ht in Ht'. simplify_eq.
    destruct k as [|k]; simpl in Hk.
    + simplify_eq. simpl.
      pose proof Ht as Htick. apply Tick_inv in Ht as (app1 & Hupd & _).
      destruct (Update_fence_events _ _ _ _ Hwf Hupd) as [completed Hout].
      exists completed. destruct Hst as [_ Hs].
      rewrite Hs in Hout by lia. rewrite Nat.add_0_r.
      destruct (decide (Z.of_nat t + 1 <= 3)), (decide (t < 3)%nat);
        try lia; [done|].
      by replace (fence0 + N.of_nat t - 2)%N
        with (fence0 + N.of_nat t + Z.to_N 1 - 3)%N by lia.
    + replace (t + S k)%nat with (S t + k)%nat by lia.
      apply (IH (S t) app1' app' outputs'); [done| |lia|done|done].
      apply (Tick_stamped fence0 t inp app app1' events' commands');
        [done|done|lia|done].
Qed.

Lemma Initialize_stamped fence0 : slots_stamped fence0 0 (Initialize fence0).
Proof.
  split; [simpl; lia|]. intros j Hj.
  rewrite decide_True by lia. unfold slot_fence.
  change (FrameResource.Fence <$> mFrameResources (Initialize fence0))
    with [0%N; 0%N; 0%N].
  destruct (Z.to_nat _) as [|[|[|]]]; done.
Qed.

(** X12.  The fence test of [Update] is skipped while the slots are new:
    in a run from [Initialize] (while the 64-bit fence counter does not
    wrap) the first three ticks select a slot whose fence is still zero, and
    neither query nor wait for the device; every later tick queries the
    completed value exactly once, for the fence its slot was stamped with
    three ticks before, and waits for that fence exactly when the device
    has not yet reached it. *)
Theorem fence_test_skipped_until_slots_reused fence0 inputs app outputs :
  (fence0 + N.of_nat (length inputs) < 2 ^ 64)%N ->
  Run inputs (Initialize fence0) = Some (app, outputs) ->
  forall k o, outputs !! k = Some o ->
    if decide (k < 3)%nat then fence_events o.1.2 = []
    else
      let fence := (fence0 + N.of_nat k - 2)%N in
      exists completed,
        ((fence <= completed)%N /\
         fence_events o.1.2 = [EvGetCompletedValue completed]) \/
        ((completed < fence)%N /\
         fence_events o.1.2
         = [EvGetCompletedValue completed; EvWaitForFence fence]).
Proof.
  intros Hb Hr k o Hk.
  destruct (Run_fence_tests fence0 inputs 0%nat (Initialize fence0) app
              outputs (Initialize_wf fence0) (Initialize_stamped fence0)
              Hb Hr k o Hk) as [completed Hout].
  simpl in Hout. destruct (decide (k < 3)%nat) as [Hlt|Hge].
  - destruct Hout as [[_ ->]|[(Hne & _)|(Hne & _)]]; done.
  - cbv zeta. exists completed.
    destruct Hout as [[Hz _]|[(_ & Hle & ->)|(_ & Hlt & ->)]].
    + lia.
    + by left.
    + by right.
Qed.

End FenceTests.

(** ** The properties on concrete scenes *)

Section Witnesses.

#[local] Existing Instance Demo.still_water.
#[local] Existing Instance Demo.low_random.
#[local] Existing Instance Demo.plain_scene.
#[local] Existing Instance Demo.plain_device.

(** The small scene is well formed. *)
Lemma small_app_wf : wf Demo.small_app.
Proof.
  split.
  - reflexivity.
  - by vm_compute.
  - eexists. by vm_compute.
  - apply ritem_okb_spec. by vm_compute.
  - intros layer. apply ritems_okb_spec. destruct layer; by vm_compute.
  - split; unfold timeline; simpl.
    + repeat constructor.
    + repeat constructor. lia.
    + repeat (apply Forall_cons; split; [left; lia|]). constructor.
Qed.

Example small_app_items :
  mAllRitems Demo.small_app = [Demo.water_item; Demo.box_item].
Proof. by vm_compute. Qed.

Example small_app_materials :
  mMaterials Demo.small_app !! "water" = Some Demo.water_material /\
  mMaterials Demo.small_app !! "bricks" = Some Demo.bricks_material.
Proof. split; by vm_compute. Qed.

Lemma small_app_unique_items k :
  unique_ObjCBIndex (mAllRitems Demo.small_app) k.
Proof.
  apply unique_ObjCBIndex_check. apply (bool_decide_unpack _). by vm_compute.
Qed.

Lemma small_app_unique_materials key :
  unique_MatCBIndex (mMaterials Demo.small_app) key.
Proof.
  apply unique_MatCBIndex_check. apply (bool_decide_unpack _). by vm_compute.
Qed.

(** Six ticks on the small scene: the slots, the number of object and
    material stores per tick, and the counters left at the end. *)
Example small_app_six_ticks :
  (fun r => (selected_slots r.2,
             (fun o => length (object_stores o.1.1 0 o.1.2
                               ++ object_stores o.1.1 1 o.1.2)) <$> r.2,
             (fun o => length (material_stores o.1.1 0 o.1.2)) <$> r.2,
             (fun o => length (material_stores o.1.1 1 o.1.2)) <$> r.2,
             RenderItem.NumFramesDirty <$> mAllRitems r.1,
             Material.NumFramesDirty <$> mMaterials r.1 !! "water",
             Material.NumFramesDirty <$> mMaterials r.1 !! "bricks"))
  <$> Run (Demo.frame <$> [1; 2; 3; 4; 5; 6]) Demo.small_app
  = Some ([1; 2; 0; 1; 2; 0],
          [2; 2; 2; 0; 0; 0]%nat,
          [1; 1; 1; 1; 1; 1]%nat,
          [1; 1; 1; 0; 0; 0]%nat,
          [0; 0], Some 2, Some 0).
Proof. by vm_compute. Qed.

(** The first tick on the small scene passes the fence test of slot 1
    (never submitted, so its fence is zero) and then stores. *)
Lemma fence_gate_precedes_writes_witness :
  exists app' log,
    Update (Demo.frame 1) Demo.small_app = Some (app', log) /\
    exists fr gate stores,
      at_index 1 (mFrameResources Demo.small_app) = Some fr /\
      log = gate ++ stores /\
      Forall (fun e => ~ is_store e) gate /\
      (FrameResource.Fence fr <= Gpu.Completed (mGpu app'))%N.
Proof.
  destruct (Update_total (Demo.frame 1) Demo.small_app small_app_wf)
    as [[app' log] Hupd].
  exists app', log. split; [exact Hupd|].
  destruct (fence_gate_precedes_writes _ _ _ _ Hupd)
    as (fr & gate & stores & Hfr & Hlog & Hgate & _ & _ & Hdone).
  exists fr, gate, stores.
  split; [exact Hfr|]. split; [exact Hlog|]. split; [exact Hgate|exact Hdone].
Defined.

(** The original wording of C2 fails on the first tick: the run starts by
    selecting slot 1, so the selected slots do not begin 0, 1, 2. *)
Lemma first_tick_selects_slot_1 :
  exists app' outputs,
    Run [Demo.frame 1] (Initialize 0) = Some (app', outputs) /\
    selected_slots outputs = [1] /\
    selected_slots outputs
    <> (fun k : nat => Z.of_nat k mod gNumFrameResources) <$> seq 0 1.
Proof.
  destruct (Run_total [Demo.frame 1] (Initialize 0) (Initialize_wf 0)
              ltac:(simpl; lia))
    as (app' & outputs & Hr & _).
  exists app', outputs. split; [exact Hr|].
  rewrite (Run_slots [Demo.frame 1] (Initialize 0) app' outputs
             ltac:(simpl; lia) Hr).
  change (mCurrFrameResourceIndex (Initialize 0)) with 0.
  split; [reflexivity | discriminate].
Qed.

(** Four ticks after start-up select the slots 1, 2, 0, 1; one tick on the
    small scene moves the index from 0 to 1. *)
Lemma slot_selection_cyclic_witness :
  (0 + N.of_nat (length Demo.ticks_1_4) < 2 ^ 64)%N /\
  (exists app' outputs,
     Run Demo.ticks_1_4 (Initialize 0) = Some (app', outputs) /\
     selected_slots outputs = [1; 2; 0; 1]) /\
  0 <= mCurrFrameResourceIndex Demo.small_app /\
  exists app' events commands,
    Tick (Demo.frame 1) Demo.small_app = Some (app', events, commands) /\
    mCurrFrameResourceIndex app' = 1.
Proof.
  split; [by vm_compute|]. split.
  - destruct (proj2 slot_selection_cyclic 0%N Demo.ticks_1_4
                ltac:(by vm_compute))
      as (app' & outputs & Hr & Hs).
    exists app', outputs. split; [exact Hr | exact Hs].
  - split; [by vm_compute|].
    destruct (Tick_total (Demo.frame 1) Demo.small_app small_app_wf
                ltac:(by vm_compute))
      as (app' & events & commands & Ht & _ & _).
    exists app', events, commands. split; [exact Ht|].
    assert (0 <= mCurrFrameResourceIndex Demo.small_app) as Hi
      by (by vm_compute).
    exact (proj1 slot_selection_cyclic (Demo.frame 1) Demo.small_app
             app' events commands Hi Ht).
Defined.

(** On the small scene the box and the bricks, both freshly edited, reach
    each of the three slots once in ticks 1 to 3, end with counter 0, and
    nothing more is stored for the box in ticks 4 and 5. *)
Lemma dirty_edit_reaches_each_slot_once_witness :
  wf Demo.small_app /\
  length Demo.ticks_1_3 = 3%nat /\
  (mCurrentFence Demo.small_app + 3
   + N.of_nat (length Demo.ticks_4_5) < 2 ^ 64)%N /\
  exists app3 outputs3 app' outputs',
    Run Demo.ticks_1_3 Demo.small_app = Some (app3, outputs3) /\
    Run Demo.ticks_4_5 app3 = Some (app', outputs') /\
    (forall s, 0 <= s < gNumFrameResources ->
       object_stores s 1 (run_events outputs3)
       = [object_constants Demo.box_item]) /\
    mAllRitems app3 !! 1%nat
    = Some (RenderItem.set_NumFramesDirty 0 Demo.box_item) /\
    (forall s, object_stores s 1 (run_events outputs') = []) /\
    (forall s, 0 <= s < gNumFrameResources ->
       material_stores s 1 (run_events outputs3)
       = [material_constants Demo.bricks_material]) /\
    mMaterials app3 !! "bricks"
    = Some (Material.set_NumFramesDirty 0 Demo.bricks_material).
Proof.
  split; [exact small_app_wf|]. split; [reflexivity|].
  split; [by vm_compute|].
  destruct (dirty_edit_reaches_each_slot_once Demo.small_app
              Demo.ticks_1_3 Demo.ticks_4_5
              small_app_wf eq_refl ltac:(by vm_compute))
    as (app3 & outputs3 & app' & outputs' & Hr3 & Hr' & Hitems & Hmats).
  exists app3, outputs3, app', outputs'.
  split; [exact Hr3|]. split; [exact Hr'|].
  destruct (Hitems 1%nat Demo.box_item ltac:(by vm_compute) eq_refl
              (small_app_unique_items 1)) as (_ & Hall & Hk3 & Hidle).
  destruct (Hmats "bricks" Demo.bricks_material ltac:(done)
              ltac:(by vm_compute) eq_refl
              (small_app_unique_materials "bricks"))
    as (_ & Hmall & Hm3 & _).
  split; [exact Hall|]. split; [exact Hk3|]. split; [exact Hidle|].
  split; [exact Hmall | exact Hm3].
Defined.


(** The first tick on the small scene streams every vertex of the grid into
    slot 1 and binds the water geometry to that slot's vertex buffer. *)
Lemma waves_streamed_every_tick_witness :
  exists app' log,
    Update (Demo.frame 1) Demo.small_app = Some (app', log) /\
    wave_stores log =
    (fun i =>
       (1, i,
        Vertex.mk (Position (mWaves app') i) (Normal (mWaves app') i)
          (XMFLOAT2.mk
             (F32.add (F32.lit 5 1)
                (F32.div (XMFLOAT3.x (Position (mWaves app') i))
                   (Width (mWaves app'))))
             (F32.sub (F32.lit 5 1)
                (F32.div (XMFLOAT3.z (Position (mWaves app') i))
                   (Depth (mWaves app')))))))
    <$> seqZ 0 (VertexCount (mWaves app')) /\
    exists ritem geo,
      mAllRitems app' !! mWavesRitem app' = Some ritem /\
      mGeometries app' !! RenderItem.Geo ritem = Some geo /\
      MeshGeometry.VertexBufferGPU geo = WavesVBResource 1.
Proof.
  destruct (Update_total (Demo.frame 1) Demo.small_app small_app_wf)
    as [[app' log] Hupd].
  exists app', log. split; [exact Hupd|].
  destruct (waves_streamed_every_tick _ _ _ _ Hupd)
    as (_ & Hstores & ritem & geo & Hr & Hg & Hvb & _).
  split; [exact Hstores|].
  exists ritem, geo. split; [exact Hr|]. split; [exact Hg | exact Hvb].
Defined.






(** One tick on the small scene stores the scrolled water record and leaves
    its counter at 2; so do four ticks after start-up. *)
Lemma water_material_rewritten_every_tick_witness :
  (exists app' events commands,
     Tick (Demo.frame 1) Demo.small_app = Some (app', events, commands) /\
     material_stores (mCurrFrameResourceIndex app') 0 events
     = [material_constants
          (scroll_water (FrameInput.gt (Demo.frame 1)) Demo.water_material)]
     /\
     Material.NumFramesDirty
     <$> mMaterials app' !! "water" = Some 2) /\
  (0 + N.of_nat (length Demo.ticks_1_4) < 2 ^ 64)%N /\
  exists app' outputs,
    Run Demo.ticks_1_4 (Initialize 0) = Some (app', outputs) /\
    Forall (fun o => exists d, material_stores o.1.1 2 o.1.2 = [d]) outputs /\
    exists water',
      mMaterials app' !! "water" = Some water' /\
      Material.NumFramesDirty water' = 2.
Proof.
  split.
  - destruct (Tick_total (Demo.frame 1) Demo.small_app small_app_wf
                ltac:(by vm_compute))
      as (app' & events & commands & Ht & _ & _).
    exists app', events, commands. split; [exact Ht|].
    destruct (proj1 water_material_rewritten_every_tick (Demo.frame 1)
                Demo.small_app app' events commands Demo.water_material Ht
                (proj1 small_app_materials)
                (small_app_unique_materials "water"))
      as (_ & Hst & Hw).
    split; [exact Hst|]. by rewrite Hw.
  - assert (0 + N.of_nat (length Demo.ticks_1_4) < 2 ^ 64)%N as Hb
      by (by vm_compute).
    split; [exact Hb|].
    destruct (proj2 water_material_rewritten_every_tick 0%N Demo.ticks_1_4 Hb)
      as (app' & outputs & Hr & Hst & Hw & _).
    exists app', outputs. split; [exact Hr|]. split; [exact Hst | exact Hw].
Defined.

(** Three ticks after start-up store only within the buffers. *)
Lemma constant_indices_within_bounds_witness :
  (0 + N.of_nat (length Demo.ticks_1_3) < 2 ^ 64)%N /\
  NoDup (RenderItem.ObjCBIndex <$> mAllRitems (Initialize 0)) /\
  Z.of_nat (size (mMaterials (Initialize 0))) = 12 /\
  exists app' outputs,
    Run Demo.ticks_1_3 (Initialize 0) = Some (app', outputs) /\
    Forall (store_in_bounds
              (Z.of_nat (length (mAllRitems (Initialize 0))))
              (Z.of_nat (size (mMaterials (Initialize 0)))))
           (run_events outputs).
Proof.
  assert (0 + N.of_nat (length Demo.ticks_1_3) < 2 ^ 64)%N as Hb
    by (by vm_compute).
  split; [exact Hb|].
  destruct (constant_indices_within_bounds 0%N Demo.ticks_1_3 Hb)
    as (_ & Hnd & Hn & _ & _ & _ & app' & outputs & Hr & Hst & _).
  split; [exact Hnd|]. split; [exact Hn|].
  exists app', outputs. split; [exact Hr | exact Hst].
Defined.

(** Runs from [Initialize 0] exist and end in a well-formed state. *)
Lemma Initialize_runs inputs :
  (0 + N.of_nat (length inputs) < 2 ^ 64)%N ->
  exists app outputs,
    Run inputs (Initialize 0) = Some (app, outputs) /\ wf app.
Proof.
  intros Hb.
  destruct (Run_total inputs (Initialize 0) (Initialize_wf 0) Hb)
    as (app & outputs & Hr & Hwf & _).
  by exists app, outputs.
Qed.

Lemma ticks_1_3_bound : (0 + N.of_nat (length Demo.ticks_1_3) < 2 ^ 64)%N.
Proof. by vm_compute. Qed.

Lemma ticks_1_4_bound : (0 + N.of_nat (length Demo.ticks_1_4) < 2 ^ 64)%N.
Proof. by vm_compute. Qed.

Lemma run_changes_only_counters_witness :
  exists app' outputs,
    Run Demo.ticks_1_3 Demo.small_app = Some (app', outputs) /\
    mAllRitems app'
    = ritem_after_n (length Demo.ticks_1_3) <$> mAllRitems Demo.small_app /\
    mRitemLayer app' = mRitemLayer Demo.small_app /\
    mWavesRitem app' = mWavesRitem Demo.small_app /\
    material_static <$> mMaterials app'
    = material_static <$> mMaterials Demo.small_app /\
    MeshGeometry.IndexBufferGPU <$> mGeometries app'
    = MeshGeometry.IndexBufferGPU <$> mGeometries Demo.small_app.
Proof.
  destruct (Run_total Demo.ticks_1_3 Demo.small_app small_app_wf
              ltac:(by vm_compute)) as (app' & outputs & Hr & _).
  exists app', outputs. split; [exact Hr|].
  exact (run_changes_only_counters Demo.ticks_1_3 Demo.small_app app'
           outputs Hr).
Defined.

Lemma frames_in_flight_bounded_witness :
  (0 + N.of_nat (length Demo.ticks_1_4) < 2 ^ 64)%N /\
  exists app outputs app1 log,
    Run Demo.ticks_1_4 (Initialize 0) = Some (app, outputs) /\
    Update (Demo.frame 5) app = Some (app1, log) /\
    (Gpu.Completed (mGpu app) <= mCurrentFence app)%N /\
    (mCurrentFence app <= Gpu.Completed (mGpu app) + 3)%N /\
    (Gpu.Completed (mGpu app1) <= mCurrentFence app1)%N /\
    (mCurrentFence app1 <= Gpu.Completed (mGpu app1) + 2)%N.
Proof.
  split; [exact ticks_1_4_bound|].
  destruct (Initialize_runs Demo.ticks_1_4 ticks_1_4_bound)
    as (app & outputs & Hr & Hwf).
  destruct (Update_total (Demo.frame 5) app Hwf) as [[app1 log] Hupd].
  exists app, outputs, app1, log.
  destruct (frames_in_flight_bounded 0 Demo.ticks_1_4 app outputs
              ticks_1_4_bound Hr) as (Hlo & Hhi & Hnext).
  destruct (Hnext (Demo.frame 5) app1 log Hupd) as [Hlo1 Hhi1].
  split; [exact Hr|]. split; [exact Hupd|].
  split; [exact Hlo|]. split; [exact Hhi|].
  split; [exact Hlo1 | exact Hhi1].
Defined.

Lemma every_item_drawn_once_witness :
  exists app' outputs,
    Run Demo.ticks_1_3 (Initialize 0) = Some (app', outputs) /\
    draw_order (Initialize 0)
    ≡ₚ seq 0 (length (mAllRitems (Initialize 0))) /\
    length (mAllRitems (Initialize 0)) = 143%nat /\
    Forall (fun o => draws_of (Initialize 0) (draw_order (Initialize 0)) o.2)
           outputs.
Proof.
  destruct (Initialize_runs Demo.ticks_1_3 ticks_1_3_bound)
    as (app' & outputs & Hr & _).
  exists app', outputs. split; [exact Hr|].
  exact (every_item_drawn_once 0 Demo.ticks_1_3 app' outputs Hr).
Defined.

Lemma steady_state_stores_witness :
  (3 <= length Demo.ticks_1_3)%nat /\
  exists app outputs app1 log water,
    Run Demo.ticks_1_3 (Initialize 0) = Some (app, outputs) /\
    Update (Demo.frame 4) app = Some (app1, log) /\
    mMaterials app !! "water" = Some water /\
    store_events log =
    EvCopyData (mCurrFrameResourceIndex app1) 2
      (ToMaterialCB
         (material_constants
            (scroll_water (FrameInput.gt (Demo.frame 4)) water)))
    :: EvCopyData (mCurrFrameResourceIndex app1) 0
         (ToPassCB (MainPassCB (Demo.frame 4)))
    :: ((fun i => EvCopyData (mCurrFrameResourceIndex app1) i
                    (ToWavesVB (wave_vertex (mWaves app1) i)))
        <$> seqZ 0 (VertexCount (mWaves app1))).
Proof.
  assert (3 <= length Demo.ticks_1_3)%nat as Hlen by (simpl; lia).
  split; [exact Hlen|].
  destruct (Initialize_runs Demo.ticks_1_3 ticks_1_3_bound)
    as (app & outputs & Hr & Hwf).
  destruct (Update_total (Demo.frame 4) app Hwf) as [[app1 log] Hupd].
  destruct (steady_state_stores 0 Demo.ticks_1_3 app outputs (Demo.frame 4)
              app1 log Hlen Hr Hupd) as (water & Hwater & Hstores).
  exists app, outputs, app1, log, water.
  split; [exact Hr|]. split; [exact Hupd|].
  split; [exact Hwater | exact Hstores].
Defined.

Lemma pass_and_vertex_stores_within_bounds_witness :
  (forall i j r w, VertexCount (Disturb i j r w) = VertexCount w) /\
  (forall dt w, VertexCount (Waves_Update dt w) = VertexCount w) /\
  exists app' outputs,
    Run Demo.ticks_1_3 (Initialize 0) = Some (app', outputs) /\
    Forall (stream_in_bounds (VertexCount (mWaves (Initialize 0))))
           (run_events outputs) /\
    VertexCount (mWaves app') = VertexCount (mWaves (Initialize 0)) /\
    Forall (fun fr =>
              UploadBuffer.mElementCount (FrameResource.PassCB fr) = 1 /\
              UploadBuffer.mElementCount (FrameResource.WavesVB fr)
              = VertexCount (mWaves (Initialize 0)))
           (mFrameResources app').
Proof.
  assert (forall i j r w, VertexCount (Disturb i j r w) = VertexCount w)
    as Hd by (intros; reflexivity).
  assert (forall dt w, VertexCount (Waves_Update dt w) = VertexCount w)
    as Hu by (intros; reflexivity).
  split; [exact Hd|]. split; [exact Hu|].
  destruct (Initialize_runs Demo.ticks_1_3 ticks_1_3_bound)
    as (app' & outputs & Hr & _).
  exists app', outputs. split; [exact Hr|].
  exact (pass_and_vertex_stores_within_bounds Hd Hu 0 Demo.ticks_1_3 app'
           outputs Hr).
Defined.

Lemma wave_index_buffer_valid_witness :
  1 <= 305 /\ 1 <= 150 /\ 305 * 150 < 65535 /\
  2 * ((305 - 1) * (150 - 1)) <= 90592 /\ 3 * 90592 < 2 ^ 31 /\
  BuildWavesGeometry_indices 90592 305 150
  = Some (grid_triangles 305 150
          ++ replicate
               (Z.to_nat (3 * 90592 - 6 * ((305 - 1) * (150 - 1)))) 0) /\
  length (grid_triangles 305 150)
  = Z.to_nat (6 * ((305 - 1) * (150 - 1))) /\
  Forall (fun v => 0 <= v < 305 * 150) (grid_triangles 305 150).
Proof.
  assert (1 <= 305) as H1 by lia.
  assert (1 <= 150) as H2 by lia.
  assert (305 * 150 < 65535) as H3 by lia.
  assert (2 * ((305 - 1) * (150 - 1)) <= 90592) as H4 by lia.
  assert (3 * 90592 < 2 ^ 31) as H5 by lia.
  split; [exact H1|]. split; [exact H2|]. split; [exact H3|].
  split; [exact H4|]. split; [exact H5|].
  exact (wave_index_buffer_valid 90592 305 150 H1 H2 H3 H4 H5).
Defined.

Lemma material_textures_in_heap_witness :
  exists app outputs heap,
    Run Demo.ticks_1_3 (Initialize 0) = Some (app, outputs) /\
    BuildDescriptorHeaps mCbvSrvDescriptorSize LoadTextures = Some heap /\
    Z.of_nat (length (SrvHeap.Views heap)) = SrvHeap.NumDescriptors heap /\
    map_Forall
      (fun key m =>
         0 <= Material.DiffuseSrvHeapIndex m < SrvHeap.NumDescriptors heap /\
         (Material.DiffuseSrvHeapIndex m = 11 <-> key = "treeSprites"))
      (mMaterials app).
Proof.
  destruct (Initialize_runs Demo.ticks_1_3 ticks_1_3_bound)
    as (app & outputs & Hr & _).
  destruct (material_textures_in_heap 0 Demo.ticks_1_3 app outputs Hr)
    as (heap & Hheap & Hlen & _ & Hmats & _).
  exists app, outputs, heap.
  split; [exact Hr|]. split; [exact Hheap|].
  split; [exact Hlen | exact Hmats].
Defined.

Lemma draws_match_pipeline_state_witness :
  exists app' outputs psos,
    Run Demo.ticks_1_3 (Initialize 0) = Some (app', outputs) /\
    BuildPSOs BuildShaders = Some psos /\
    Forall (fun o =>
              Forall (context_ok psos) (draw_contexts no_pso None o.2))
           outputs.
Proof.
  destruct (Initialize_runs Demo.ticks_1_3 ticks_1_3_bound)
    as (app' & outputs & Hr & _).
  destruct (draws_match_pipeline_state 0 Demo.ticks_1_3 app' outputs Hr)
    as (psos & Hpsos & Hall).
  exists app', outputs, psos.
  split; [exact Hr|]. split; [exact Hpsos | exact Hall].
Defined.

Lemma draw_binds_every_root_parameter_witness :
  exists app' commands,
    Draw Demo.small_app = Some (app', commands) /\
    root_arguments_ok BuildRootSignature [] commands = true.
Proof.
  destruct (Draw_total Demo.small_app small_app_wf)
    as [[app' commands] Hdraw].
  exists app', commands. split; [exact Hdraw|].
  exact (draw_binds_every_root_parameter Demo.small_app app' commands
           Hdraw).
Defined.

Lemma render_items_read_registered_submeshes_witness :
  (forall i, @placement Demo.plain_scene i = @placement Demo.sparse_scene i)
  /\
  (forall geo sub, (geo, sub) ∈ registered_submeshes ->
     @DrawArgs Demo.plain_scene geo sub
     = @DrawArgs Demo.sparse_scene geo sub) /\
  @DrawArgs Demo.plain_scene "boxGeo" "grid"
  <> @DrawArgs Demo.sparse_scene "boxGeo" "grid" /\
  @BuildRenderItems Demo.plain_scene = @BuildRenderItems Demo.sparse_scene.
Proof.
  assert (forall i,
            @placement Demo.plain_scene i = @placement Demo.sparse_scene i)
    as Hp by (intros; reflexivity).
  assert (forall geo sub, (geo, sub) ∈ registered_submeshes ->
            @DrawArgs Demo.plain_scene geo sub
            = @DrawArgs Demo.sparse_scene geo sub) as Hd.
  { intros geo sub Hin. simpl. by rewrite bool_decide_eq_true_2. }
  split; [exact Hp|]. split; [exact Hd|]. split; [by vm_compute|].
  exact (render_items_read_registered_submeshes Demo.plain_scene
           Demo.sparse_scene Hp Hd).
Defined.

Lemma fence_test_skipped_until_slots_reused_witness :
  (0 + N.of_nat (length Demo.ticks_1_4) < 2 ^ 64)%N /\
  exists app outputs first fourth completed,
    Run Demo.ticks_1_4 (Initialize 0) = Some (app, outputs) /\
    outputs !! 0%nat = Some first /\
    outputs !! 3%nat = Some fourth /\
    fence_events first.1.2 = [] /\
    (((1 <= completed)%N /\
      fence_events fourth.1.2 = [EvGetCompletedValue completed]) \/
     ((completed < 1)%N /\
      fence_events fourth.1.2
      = [EvGetCompletedValue completed; EvWaitForFence 1])).
Proof.
  split; [exact ticks_1_4_bound|].
  destruct (Initialize_runs Demo.ticks_1_4 ticks_1_4_bound)
    as (app & outputs & Hr & _).
  pose proof (fence_test_skipped_until_slots_reused 0 Demo.ticks_1_4 app
                outputs ticks_1_4_bound Hr) as Hgates.
  pose proof Hr as Hcons.
  change Demo.ticks_1_4
    with [Demo.frame 1; Demo.frame 2; Demo.frame 3; Demo.frame 4]
    in Hcons.
  apply Run_cons_inv in Hcons as (a1 & e1 & c1 & o1 & _ & Hcons & ->).
  apply Run_cons_inv in Hcons as (a2 & e2 & c2 & o2 & _ & Hcons & ->).
  apply Run_cons_inv in Hcons as (a3 & e3 & c3 & o3 & _ & Hcons & ->).
  apply Run_cons_inv in Hcons as (a4 & e4 & c4 & o4 & _ & _ & ->).
  pose proof (Hgates 0%nat _ eq_refl) as Hfirst.
  pose proof (Hgates 3%nat _ eq_refl) as Hfourth.
  rewrite decide_True in Hfirst by lia.
  rewrite decide_False in Hfourth by lia.
  cbv zeta in Hfourth.
  change (0 + N.of_nat 3 - 2)%N with 1%N in Hfourth.
  destruct Hfourth as [completed Hfourth].
  eexists app, _, _, _, completed.
  split; [exact Hr|]. split; [reflexivity|]. split; [reflexivity|].
  split; [exact Hfirst | exact Hfourth].
Defined.

End Witnesses.
